(** * Flash-loan arbitrage: the on-chain engine and the off-chain controller

    A shallow embedding of
    - [contracts/BaseFlashLoanArbitrage.sol] (Solidity 0.8.10): the
      flash-loan receiver [executeOperation], its entry point
      [executeFlashLoanArbitrage], the quoting helper
      [calculateArbitrageOpportunity] and [updateSettings];
    - [server/index.js]: the scanner [findArbitrageOpportunities], the
      submission routine [executeArbitrage] and the monitoring loop
      [startArbitrageBot] / [stopArbitrageBot].

    Conventions.  A [uint256] is a [Z]; Solidity 0.8 checked arithmetic is
    written out (an overflow is the failure [ArithmeticPanic]).  A revert is
    the [Err] branch of a state-and-error monad: a failed call carries no
    state, which is the ledger's rollback.  The tokens are ERC-20 contracts
    kept as a ledger of balances and allowances, whose [balanceOf] and
    [approve] answer; the router, the quoter and the pool are third parties,
    each given by what a call of theirs can come to.  A JavaScript number is
    the rational it denotes; a value of the price feed is kept as far as the
    server looks at it. *)

From Stdlib Require Import ZArith QArith Qabs Qminmax Lia List String Bool.
From stdpp Require Import base option gmap list sorting.
Import ListNotations.

Local Open Scope Z_scope.

(** ** Part I: the on-chain engine *)

Module Engine.

Definition address := Z.
Definition uint256_max : Z := 2 ^ 256 - 1.

(** The failure kinds of the engine.  [revert_reason] gives the revert
    string of the source for each of them. *)
Inductive Failure : Type :=
| AccessDenied
| InvalidCaller
| InvalidInitiator
| ReentrancyBlocked
| GasPriceExceeded
| UnprofitableTrade
| InsufficientRepayment
| NothingToWithdraw
| ArithmeticPanic
| MalformedParams
| ExternalCallReverted
| BadReturnData
| LoanNotFunded.

Definition revert_reason (f : Failure) : string :=
  match f with
  | AccessDenied => "Ownable: caller is not the owner"
  | InvalidCaller => "Invalid caller"
  | InvalidInitiator => "Invalid initiator"
  | ReentrancyBlocked => "ReentrancyGuard: reentrant call"
  | GasPriceExceeded => "Gas price too high"
  | UnprofitableTrade => "Arbitrage not profitable"
  | InsufficientRepayment => "Insufficient funds to repay loan"
  | NothingToWithdraw => "No profits to withdraw"
  | ArithmeticPanic => "Panic"
  | MalformedParams => "abi.decode"
  | ExternalCallReverted => "external call reverted"
  | BadReturnData => "call to non-contract or undecodable return data"
  | LoanNotFunded => "flash loan not funded or not repaid"
  end.

#[global] Instance Failure_eq_dec : EqDecision Failure.
Proof. solve_decision. Defined.

Inductive Result (A : Type) : Type :=
| Ok (a : A)
| Err (f : Failure).
Arguments Ok {A} a.
Arguments Err {A} f.

(** *** Data *)

Record ArbitrageParams : Type := {
  tokenIn : address;
  tokenOut : address;
  amountIn : Z;
  fee1 : Z;
  fee2 : Z;
  useAerodrome : bool
}.

(** [bytes calldata params]: either the ABI encoding of a parameter tuple or
    bytes that [abi.decode] rejects. *)
Definition bytes := option ArbitrageParams.

Record ExactInputSingleParams : Type := {
  eis_tokenIn : address;
  eis_tokenOut : address;
  eis_fee : Z;
  eis_recipient : address;
  eis_deadline : Z;
  eis_amountIn : Z;
  eis_amountOutMinimum : Z;
  eis_sqrtPriceLimitX96 : Z
}.

Inductive Event : Type :=
| ArbitrageExecuted (asset : address) (borrowAmount profit gasUsed : Z)
| ProfitWithdrawn (token : address) (amount : Z).

(** The engine's own storage: [Ownable._owner], [ReentrancyGuard._status]
    and the three settings. *)
Record Storage : Type := {
  _owner : address;
  _status : Z;
  minProfitBasisPoints : Z;
  maxGasPrice : Z;
  maxSlippage : Z
}.

Definition _NOT_ENTERED : Z := 1.
Definition _ENTERED : Z := 2.

(** The rest of the ledger: ERC-20 balances keyed by (token, holder),
    allowances keyed by (token, owner, spender), and the event log. *)
Record Chain : Type := {
  balances : gmap (address * address) Z;
  allowances : gmap (address * address * address) Z;
  events : list Event
}.

Record World : Type := {
  storage : Storage;
  chain : Chain
}.

(** The transaction context of a call. *)
Record Ctx : Type := {
  msg_sender : address;
  tx_gasprice : Z;
  block_timestamp : Z;
  gasleft : Z
}.

(** *** The state-and-error monad of contract code *)

Definition Result_map {A} (g : World -> World) (r : Result (A * World))
  : Result (A * World) :=
  match r with
  | Ok (a, w) => Ok (a, g w)
  | Err f => Err f
  end.

Definition M (A : Type) : Type := World -> Result (A * World).

Definition ret {A} (a : A) : M A := fun w => Ok (a, w).

Definition bind {A B} (m : M A) (k : A -> M B) : M B :=
  fun w => match m w with
           | Ok (a, w') => k a w'
           | Err f => Err f
           end.

Definition revert {A} (f : Failure) : M A := fun _ => Err f.

Definition require (b : bool) (f : Failure) : M unit :=
  if b then ret tt else revert f.

Notation "x <- m ;; k" := (bind m (fun x => k))
  (at level 100, m at next level, right associativity).
Notation "m ;;; k" := (bind m (fun _ => k))
  (at level 100, right associativity).

(** What the ledger keeps of a transaction: its effects if it returns, nothing
    if it reverts. *)
Definition transact {A} (m : M A) (w : World) : World :=
  match m w with
  | Ok (_, w') => w'
  | Err _ => w
  end.

Definition checked_add (a b : Z) : M Z :=
  if a + b <=? uint256_max then ret (a + b) else revert ArithmeticPanic.

Definition checked_mul (a b : Z) : M Z :=
  if a * b <=? uint256_max then ret (a * b) else revert ArithmeticPanic.

Definition checked_div (a b : Z) : M Z :=
  if b =? 0 then revert ArithmeticPanic else ret (a / b).

(** *** ERC-20 ledger operations *)

Definition balance_in (c : Chain) (token holder : address) : Z :=
  default 0 (balances c !! (token, holder)).

Definition allowance_in (c : Chain) (token owner spender : address) : Z :=
  default 0 (allowances c !! (token, owner, spender)).

Definition set_balance (token holder : address) (v : Z) (c : Chain) : Chain :=
  {| balances := <[(token, holder) := v]> (balances c);
     allowances := allowances c;
     events := events c |}.

Definition set_allowance (token owner spender : address) (v : Z) (c : Chain)
  : Chain :=
  {| balances := balances c;
     allowances := <[(token, owner, spender) := v]> (allowances c);
     events := events c |}.

Definition with_chain (f : Chain -> Chain) (w : World) : World :=
  {| storage := storage w; chain := f (chain w) |}.

Definition with_storage (f : Storage -> Storage) (w : World) : World :=
  {| storage := f (storage w); chain := chain w |}.

Definition set_status (v : Z) (s : Storage) : Storage :=
  {| _owner := _owner s; _status := v;
     minProfitBasisPoints := minProfitBasisPoints s;
     maxGasPrice := maxGasPrice s; maxSlippage := maxSlippage s |}.

(** [IERC20(token).balanceOf(holder)] *)
Definition balanceOf (token holder : address) : M Z :=
  fun w => Ok (balance_in (chain w) token holder, w).

(** [IERC20(token).approve(spender, amount)] called by [owner]. *)
Definition approve (token owner spender : address) (amount : Z) : M unit :=
  fun w => Ok (tt, with_chain (set_allowance token owner spender amount) w).

Definition emit (e : Event) : M unit :=
  fun w => Ok (tt, with_chain (fun c =>
     {| balances := balances c; allowances := allowances c;
        events := events c ++ [e] |}) w).

(** What a [try QUOTER.quoteExactInputSingle(...) returns (uint256 quote)]
    can meet.  The quoter answers with a quote and the ledger it leaves; or
    the call reverts inside the quoter, which is what the [catch] clause
    receives; or there is nothing to decode: no code at the quoter's address,
    or return data too short for a [uint256].  The last case is detected by
    the calling contract, outside the [try], and reverts it. *)
Inductive QuoterCall : Type :=
| QuoterReturns (quote : Z) (c : Chain)
| QuoterReverts
| QuoterUnanswered.

(** The venue addresses the source fixes as constants. *)
Definition UNISWAP_ROUTER : address :=
  0x2626664c2603336E57B271c5C0b26F421741e481.
Definition QUOTER : address :=
  0x3d4e44Eb1374240CE5F1B871ab261CD16335B76a.

Section Contract.

(** The deployment: the engine's own address and the pool it trusts. *)
Variable this : address.
Variable POOL : address.

(** The external venues.  [exactInputSingle c p] is the router's swap called
    by the engine on ledger [c]: [None] when the call reverts, otherwise the
    amount out and the ledger it leaves.  [quoteExactInputSingle] is the
    quoter as the engine's [try] statement meets it. *)
Variable exactInputSingle :
  Chain -> ExactInputSingleParams -> option (Z * Chain).
Variable quoteExactInputSingle :
  Chain -> address -> address -> Z -> Z -> Z -> QuoterCall.

Definition call_router (p : ExactInputSingleParams) : M Z :=
  fun w => match exactInputSingle (chain w) p with
           | Some (out, c') => Ok (out, with_chain (fun _ => c') w)
           | None => Err ExternalCallReverted
           end.

Definition abi_decode (params : bytes) : M ArbitrageParams :=
  match params with
  | Some p => ret p
  | None => revert MalformedParams
  end.

(** [_swapUniswapV3] *)
Definition _swapUniswapV3 (ctx : Ctx) (tokenIn tokenOut : address)
    (amountIn fee : Z) : M Z :=
  approve tokenIn this UNISWAP_ROUTER amountIn ;;;
  deadline <- checked_add (block_timestamp ctx) 300 ;;
  call_router {| eis_tokenIn := tokenIn;
                 eis_tokenOut := tokenOut;
                 eis_fee := fee;
                 eis_recipient := this;
                 eis_deadline := deadline;
                 eis_amountIn := amountIn;
                 eis_amountOutMinimum := 0;
                 eis_sqrtPriceLimitX96 := 0 |}.

(** [_swapAerodrome]: the placeholder of the source, which returns its input
    amount and touches nothing. *)
Definition _swapAerodrome (tokenIn tokenOut : address) (amountIn : Z) : M Z :=
  ret amountIn.

(** [_executeArbitrage] *)
Definition _executeArbitrage (ctx : Ctx) (params : ArbitrageParams)
    (amount : Z) : M Z :=
  startBalance <- balanceOf (tokenIn params) this ;;
  firstSwapOut <- _swapUniswapV3 ctx (tokenIn params) (tokenOut params)
                    amount (fee1 params) ;;
  secondSwapOut <-
    (if useAerodrome params
     then _swapAerodrome (tokenOut params) (tokenIn params) firstSwapOut
     else _swapUniswapV3 ctx (tokenOut params) (tokenIn params)
            firstSwapOut (fee2 params)) ;;
  endBalance <- balanceOf (tokenIn params) this ;;
  ret (if endBalance >? startBalance then endBalance - startBalance else 0).

(** [executeOperation], the callback of the pool. *)
Definition executeOperation (ctx : Ctx) (asset : address)
    (amount premium : Z) (initiator : address) (params : bytes) : M bool :=
  require (msg_sender ctx =? POOL) InvalidCaller ;;;
  require (initiator =? this) InvalidInitiator ;;;
  arbParams <- abi_decode params ;;
  profit <- _executeArbitrage ctx arbParams amount ;;
  totalDebt <- checked_add amount premium ;;
  held <- balanceOf asset this ;;
  require (held >=? totalDebt) InsufficientRepayment ;;;
  require (profit >? 0) UnprofitableTrade ;;;
  approve asset this POOL totalDebt ;;;
  emit (ArbitrageExecuted asset amount profit (gasleft ctx)) ;;;
  ret true.

(** The statements of [executeOperation] that follow the call of
    [_executeArbitrage], as a continuation of the profit it returned (a
    reading aid for the proofs: [executeOperation_unfold] below). *)
Definition settle (ctx : Ctx) (asset : address) (amount premium profit : Z)
  : M bool :=
  totalDebt <- checked_add amount premium ;;
  held <- balanceOf asset this ;;
  require (held >=? totalDebt) InsufficientRepayment ;;;
  require (profit >? 0) UnprofitableTrade ;;;
  approve asset this POOL totalDebt ;;;
  emit (ArbitrageExecuted asset amount profit (gasleft ctx)) ;;;
  ret true.

(** [_getUniswapQuote]: the [try ... catch] around the quoter call.  The
    [catch] clause turns a revert of the quoter into the quote [0]; a call
    that cannot be decoded reverts the helper itself. *)
Definition _getUniswapQuote (tokenIn tokenOut : address) (amountIn fee : Z)
  : M Z :=
  fun w =>
    match quoteExactInputSingle (chain w) tokenIn tokenOut fee amountIn 0 with
    | QuoterReturns quote c' => Ok (quote, with_chain (fun _ => c') w)
    | QuoterReverts => Ok (0, w)
    | QuoterUnanswered => Err BadReturnData
    end.

Definition read_minProfitBasisPoints : M Z :=
  fun w => Ok (minProfitBasisPoints (storage w), w).

(** [calculateArbitrageOpportunity]; the three named return values start at
    [false], [0], [0]. *)
Definition calculateArbitrageOpportunity (tokenA tokenB : address)
    (fee1 fee2 testAmount : Z) : M (bool * Z * Z) :=
  quote1 <- _getUniswapQuote tokenA tokenB testAmount fee1 ;;
  quote2 <- _getUniswapQuote tokenB tokenA quote1 fee2 ;;
  if quote2 >? testAmount then
    let profit := quote2 - testAmount in
    scaled <- checked_mul profit 10000 ;;
    profitBasisPoints <- checked_div scaled testAmount ;;
    threshold <- read_minProfitBasisPoints ;;
    ret (profitBasisPoints >=? threshold, profit, testAmount)
  else
    ret (false, 0, 0).

(** [Ownable.onlyOwner] *)
Definition onlyOwner (ctx : Ctx) : M unit :=
  fun w => require (_owner (storage w) =? msg_sender ctx) AccessDenied w.

(** [updateSettings] *)
Definition updateSettings (ctx : Ctx)
    (_minProfitBasisPoints _maxGasPrice _maxSlippage : Z) : M unit :=
  onlyOwner ctx ;;;
  fun w => Ok (tt, with_storage (fun s =>
    {| _owner := _owner s; _status := _status s;
       minProfitBasisPoints := _minProfitBasisPoints;
       maxGasPrice := _maxGasPrice;
       maxSlippage := _maxSlippage |}) w).

(** [ReentrancyGuard.nonReentrant], the part before and the part after the
    guarded body. *)
Definition nonReentrantBefore : M unit :=
  fun w =>
    (require (negb (_status (storage w) =? _ENTERED)) ReentrancyBlocked ;;;
     fun w' => Ok (tt, with_storage (set_status _ENTERED) w')) w.

Definition nonReentrantAfter : M unit :=
  fun w => Ok (tt, with_storage (set_status _NOT_ENTERED) w).

(** The lending facility is a third-party contract, not part of the
    repository; this is the behaviour of its [flashLoanSimple] that the
    engine relies on: the pool hands [amount] of [asset] to the receiver,
    runs the receiver's callback with itself as caller and the requester as
    initiator, and pulls [amount + premium] back through the allowance the
    callback granted.  [premiumOf] is the pool's fee schedule. *)
Variable premiumOf : Z -> Z.

Definition transfer (token from to : address) (amount : Z) : M unit :=
  fun w =>
    let c := chain w in
    if (0 <=? amount) && (amount <=? balance_in c token from) then
      let c1 := set_balance token from (balance_in c token from - amount) c in
      let c2 := set_balance token to (balance_in c1 token to + amount) c1 in
      Ok (tt, with_chain (fun _ => c2) w)
    else Err LoanNotFunded.

Definition transferFrom (token spender from to : address) (amount : Z)
  : M unit :=
  fun w =>
    let c := chain w in
    if amount <=? allowance_in c token from spender then
      (transfer token from to amount ;;;
       fun w' => Ok (tt, with_chain
         (fun c' => set_allowance token from spender
                      (allowance_in c' token from spender - amount) c') w')) w
    else Err LoanNotFunded.

Definition flashLoanSimple (ctx : Ctx) (asset : address) (amount : Z)
    (params : bytes) : M unit :=
  let callback :=
    {| msg_sender := POOL; tx_gasprice := tx_gasprice ctx;
       block_timestamp := block_timestamp ctx; gasleft := gasleft ctx |} in
  let premium := premiumOf amount in
  transfer asset POOL this amount ;;;
  ok <- executeOperation callback asset amount premium this params ;;
  require ok LoanNotFunded ;;;
  transferFrom asset POOL this POOL (amount + premium).

(** [withdrawProfits] *)
Definition withdrawProfits (ctx : Ctx) (token : address) : M unit :=
  onlyOwner ctx ;;;
  balance <- balanceOf token this ;;
  require (balance >? 0) NothingToWithdraw ;;;
  (fun w => transfer token this (_owner (storage w)) balance w) ;;;
  emit (ProfitWithdrawn token balance).

(** [executeFlashLoanArbitrage], with its modifiers in the order of the
    source: [onlyOwner], then [nonReentrant]. *)
Definition executeFlashLoanArbitrage (ctx : Ctx) (asset : address)
    (amount : Z) (params : bytes) : M unit :=
  onlyOwner ctx ;;;
  nonReentrantBefore ;;;
  (fun w => require (tx_gasprice ctx <=? maxGasPrice (storage w))
              GasPriceExceeded w) ;;;
  flashLoanSimple ctx asset amount params ;;;
  nonReentrantAfter.

End Contract.

(** The storage a fresh deployment by [deployer] starts from. *)
Definition initial_storage (deployer : address) : Storage :=
  {| _owner := deployer; _status := _NOT_ENTERED;
     minProfitBasisPoints := 50;
     maxGasPrice := 50 * 10 ^ 9;
     maxSlippage := 300 |}.

End Engine.

(** ** Part II: the off-chain scanner and controller *)

(** JavaScript values and control as the server uses them: numbers with
    their comparisons, and the completion of an awaited call, which either
    yields a value or throws. *)
Module Js.

Inductive Error : Type :=
| EngineFailure (f : Engine.Failure)
| NetworkError
| Timeout
| TypeError
| ContractNotInitialized
| InsufficientGasBalance.

Inductive Completion (A : Type) : Type :=
| Normal (a : A)
| Throw (e : Error).
Arguments Normal {A} a.
Arguments Throw {A} e.

Definition and_then {A B} (m : Completion A) (k : A -> Completion B)
  : Completion B :=
  match m with
  | Normal a => k a
  | Throw e => Throw e
  end.

(** [try { body } catch (error) { handler }] *)
Definition try_catch {A} (body : Completion A) (handler : Error -> Completion A)
  : Completion A :=
  match body with
  | Normal a => Normal a
  | Throw e => handler e
  end.

Notation "x <~ m ;; k" := (and_then m (fun x => k))
  (at level 100, m at next level, right associativity).

(** Reading a property of an object that may be [undefined]. *)
Definition property {A} (o : option A) : Completion A :=
  match o with
  | Some a => Normal a
  | None => Throw TypeError
  end.

(** [x > y], [x < y], [x >= y] and [x <= y] on numbers. *)
Definition gt (x y : Q) : bool := negb (Qle_bool x y).
Definition lt (x y : Q) : bool := gt y x.
Definition ge (x y : Q) : bool := Qle_bool y x.
Definition le (x y : Q) : bool := Qle_bool x y.

(** [x > floor] where [x] may be [undefined]: the comparison is then false. *)
Definition defined_gt (x : option Q) (floor : Q) : bool :=
  match x with
  | Some v => gt v floor
  | None => false
  end.

(** [x || 0] *)
Definition or_zero (x : option Q) : Q := default 0%Q x.

(** [!x] on the result of [parseFloat]: true on [NaN] and on zero. *)
Definition falsy (x : option Q) : bool :=
  match x with
  | Some v => Qeq_bool v 0
  | None => true
  end.

(** [x.toFixed(digits)].  Numbers have the method; on any other value the
    property is [undefined] and the call throws a [TypeError].  The argument
    says whether [x] is a number. *)
Definition toFixed (is_number : bool) : Completion unit :=
  if is_number then Normal tt else Throw TypeError.

(** The doubles denoted by the literals [0.0001] and [0.000001]. *)
Definition lit_0_0001 : Q := 7378697629483821 # 73786976294838206464.
Definition lit_0_000001 : Q := 4722366482869645 # 4722366482869645213696.

(** The numeric functions of the host, left open: the floating-point
    subtraction, addition, division and multiplication with their rounding,
    [Math.log10], and [parseFloat], which reads a number off the front of a
    text and answers [NaN] ([None]) when there is none. *)
Record Arith : Type := {
  fsub : Q -> Q -> Q;
  fadd : Q -> Q -> Q;
  fdiv : Q -> Q -> Q;
  fmul : Q -> Q -> Q;
  flog10 : Q -> Q;
  parseFloat : string -> option Q
}.

End Js.

Module Scanner.
Import Js.

(** A pair as the price feed reports it.  [priceUsd] is the field as the
    feed gives it, the text [parseFloat] is applied to; [baseToken] and
    [quoteToken] are the addresses of the two objects, [None] when the
    object is missing.  [liquidity_usd] is [pair.liquidity?.usd] as the
    comparison with the floor and [Math.min] take it, that is, converted to a
    number ([None] when it is [undefined] or converts to [NaN]), and
    [liquidity_is_number] says whether the value is a number itself: a
    numeric text compares like the number it spells, but it is not one.
    [volume_h24] is [pair.volume?.h24]. *)
Record Pair : Type := {
  chainId : string;
  dexId : string;
  priceUsd : string;
  baseToken : option string;
  quoteToken : option string;
  liquidity_usd : option Q;
  liquidity_is_number : bool;
  volume_h24 : option Q
}.

(** An entry of the scan result.  [price1] and [price2] are the feed's own
    [priceUsd] fields, not the numbers parsed from them; [liquidity1] and
    [liquidity2] are the feed's liquidity values, kept here as the numbers
    they convert to together with whether they are numbers themselves. *)
Record Opportunity : Type := {
  tokenIn : string;
  tokenOut : string;
  dex1 : string;
  dex2 : string;
  price1 : string;
  price2 : string;
  priceDiff : Q;
  liquidity1 : Q;
  liquidity1_is_number : bool;
  liquidity2 : Q;
  liquidity2_is_number : bool;
  volume24h1 : Q;
  volume24h2 : Q;
  timestamp : Z
}.

Definition tokensToMonitor : list string :=
  ["0x4200000000000000000000000000000000000006";
   "0x833589fCD6eDb6E08f4c7C32D4f71b54bdA02913";
   "0xd9aAEc86B65D86f6A7B5B1b0c42FFA531710b6CA"]%string.

(** The bounds of the retention test and the liquidity floor. *)
Definition retention_lower_bound : Q := 1.
Definition retention_upper_bound : Q := 10.
Definition minLiquidity : Q := 100.

(** The first test on the prices: "skip if prices are invalid or too
    extreme". *)
Definition implausible (price1 price2 : option Q) : bool :=
  falsy price1 || falsy price2
  || match price1, price2 with
     | Some p1, Some p2 =>
         le p1 0 || le p2 0
         || gt p1 1000000 || gt p2 1000000
         || lt p1 lit_0_000001 || lt p2 lit_0_000001
     | _, _ => true
     end.

(** An opportunity whose price difference lies strictly inside the
    retention window. *)
Definition in_window (o : Opportunity) : Prop :=
  (retention_lower_bound < priceDiff o)%Q
  /\ (priceDiff o < retention_upper_bound)%Q.

(** The order the scan result is returned in: highest difference first. *)
Definition ranks_before (a b : Opportunity) : Prop :=
  (priceDiff b <= priceDiff a)%Q.

(** [x] stands before [y] in [l]: the positions [i < j] of the two nested
    loops. *)
Definition precedes {A} (x y : A) (l : list A) : Prop :=
  exists l1 l2 l3, l = l1 ++ x :: l2 ++ y :: l3.

(** The object the inner loop pushes for [pair1] and [pair2].  It is built
    only where both liquidities compare above the floor, so that
    [liquidity?.usd || 0] is the liquidity value itself. *)
Definition opportunity_of (now : Z) (pair1 pair2 : Pair)
    (base quote : string) (priceDiffPercent : Q) : Opportunity :=
  {| tokenIn := base;
     tokenOut := quote;
     dex1 := dexId pair1;
     dex2 := dexId pair2;
     price1 := priceUsd pair1;
     price2 := priceUsd pair2;
     priceDiff := priceDiffPercent;
     liquidity1 := or_zero (liquidity_usd pair1);
     liquidity1_is_number := liquidity_is_number pair1;
     liquidity2 := or_zero (liquidity_usd pair2);
     liquidity2_is_number := liquidity_is_number pair2;
     volume24h1 := or_zero (volume_h24 pair1);
     volume24h2 := or_zero (volume_h24 pair2);
     timestamp := now |}.

Section WithArith.

Variable arith : Arith.

(** The price tests that sit in the retention condition: the narrower
    band and the bound on the spread of the two prices. *)
Definition prices_in_band (p1 p2 : Q) : bool :=
  gt p1 lit_0_0001 && gt p2 lit_0_0001
  && lt p1 100000 && lt p2 100000
  && lt (Qabs (flog10 arith (fdiv arith p1 p2))) 2.

(** The retention condition of the inner loop. *)
Definition retained (priceDiffPercent : Q) (pair1 pair2 : Pair) (p1 p2 : Q)
  : bool :=
  gt priceDiffPercent retention_lower_bound
  && lt priceDiffPercent retention_upper_bound
  && defined_gt (liquidity_usd pair1) minLiquidity
  && defined_gt (liquidity_usd pair2) minLiquidity
  && prices_in_band p1 p2.

Definition priceDiffPercent_of (p1 p2 : Q) : Q :=
  let priceDiff := Qabs (fsub arith p1 p2) in
  let avgPrice := fdiv arith (fadd arith p1 p2) 2 in
  fmul arith (fdiv arith priceDiff avgPrice) 100.

(** The body of the inner loop for one [pair1], [pair2]: the opportunity it
    pushes, if any. *)
Definition examine (now : Z) (pair1 pair2 : Pair)
  : Completion (option Opportunity) :=
  quote1 <~ property (quoteToken pair1) ;;
  quote2 <~ property (quoteToken pair2) ;;
  if String.eqb quote1 quote2 then
    let price1 := parseFloat arith (priceUsd pair1) in
    let price2 := parseFloat arith (priceUsd pair2) in
    if implausible price1 price2 then Normal None
    else
      match price1, price2 with
      | Some p1, Some p2 =>
          let priceDiffPercent := priceDiffPercent_of p1 p2 in
          if retained priceDiffPercent pair1 pair2 p1 p2 then
            base1 <~ property (baseToken pair1) ;;
            Normal (Some (opportunity_of now pair1 pair2 base1 quote1
                            priceDiffPercent))
          else Normal None
      | _, _ => Normal None
      end
  else Normal None.

(** [for (let j = i + 1; ...)] over the pairs after [pair1]. *)
Fixpoint scan_against (now : Z) (pair1 : Pair) (later : list Pair)
    (opportunities : list Opportunity) : Completion (list Opportunity) :=
  match later with
  | [] => Normal opportunities
  | pair2 :: later' =>
      found <~ examine now pair1 pair2 ;;
      scan_against now pair1 later'
        (match found with
         | Some o => opportunities ++ [o]
         | None => opportunities
         end)
  end.

(** [for (let i = 0; ...)] *)
Fixpoint scan_pairs (now : Z) (pairs : list Pair)
    (opportunities : list Opportunity) : Completion (list Opportunity) :=
  match pairs with
  | [] => Normal opportunities
  | pair1 :: later =>
      opportunities' <~ scan_against now pair1 later opportunities ;;
      scan_pairs now later opportunities'
  end.

(** [getBaseTokenPairs]: the feed's answer restricted to the Base network,
    or nothing when the request fails. *)
Definition getBaseTokenPairs (feed : string -> Completion (list Pair))
    (tokenAddress : string) : Completion (list Pair) :=
  try_catch
    (pairs <~ feed tokenAddress ;;
     Normal (List.filter (fun pair => String.eqb (chainId pair) "base") pairs))
    (fun _ => Normal []).

Fixpoint scan_tokens (feed : string -> Completion (list Pair)) (now : Z)
    (tokens : list string) (opportunities : list Opportunity)
  : Completion (list Opportunity) :=
  match tokens with
  | [] => Normal opportunities
  | token :: tokens' =>
      pairs <~ getBaseTokenPairs feed token ;;
      opportunities' <~ scan_pairs now pairs opportunities ;;
      scan_tokens feed now tokens' opportunities'
  end.

(** [opportunities.sort((a, b) => b.priceDiff - a.priceDiff)]: a stable sort,
    highest difference first. *)
Fixpoint insert_desc (o : Opportunity) (sorted : list Opportunity)
  : list Opportunity :=
  match sorted with
  | [] => [o]
  | o' :: rest =>
      if le (priceDiff o') (priceDiff o) then o :: sorted
      else o' :: insert_desc o rest
  end.

Definition sort_desc (l : list Opportunity) : list Opportunity :=
  foldr insert_desc [] l.

(** [findArbitrageOpportunities] *)
Definition findArbitrageOpportunities
    (feed : string -> Completion (list Pair)) (now : Z)
  : Completion (list Opportunity) :=
  try_catch
    (opportunities <~ scan_tokens feed now tokensToMonitor [] ;;
     Normal (take 10 (sort_desc opportunities)))
    (fun _ => Normal []).

End WithArith.

End Scanner.

Module Controller.
Import Js Scanner.

Record Receipt : Type := {
  transactionHash : string;
  gasUsed : Z
}.

(** What [executeArbitrage] returns: [{ success: true, txHash, gasUsed,
    opportunity }] or [{ success: false, error, opportunity }]. *)
Inductive ExecResult : Type :=
| Success (txHash : string) (used : Z) (opportunity : Opportunity)
| Failure (error : Error) (opportunity : Opportunity).

Definition success (r : ExecResult) : bool :=
  match r with
  | Success _ _ _ => true
  | Failure _ _ => false
  end.

(** The call [contract.executeFlashLoanArbitrage(asset, amount, params,
    { gasPrice, gasLimit })]. *)
Record Submission : Type := {
  sub_asset : string;
  sub_amount : Z;
  sub_tokenIn : string;
  sub_tokenOut : string;
  sub_amountIn : Z;
  sub_fee1 : Z;
  sub_fee2 : Z;
  sub_useAerodrome : bool;
  sub_gasPrice : Z;
  sub_gasLimit : Z
}.

(** The network as one attempt sees it. *)
Record Net : Type := {
  contract_ready : bool;
  wallet_getBalance : Completion Z;
  provider_getGasPrice : Completion Z;
  contract_executeFlashLoanArbitrage : Submission -> Completion string;
  tx_wait : string -> Completion Receipt
}.

(** [ethers.utils.parseEther] of the literals the source uses, in wei, and
    the fallback gas price of half a gwei. *)
Definition ether_0_0005 : Z := 5 * 10 ^ 14.
Definition ether_0_01 : Z := 10 ^ 16.
Definition ether_0_001 : Z := 10 ^ 15.
Definition ether_0_0001 : Z := 10 ^ 14.
Definition gwei_0_5 : Z := 5 * 10 ^ 8.

(** [getOptimalGasPrice] *)
Definition getOptimalGasPrice (net : Net) : Completion Z :=
  try_catch (provider_getGasPrice net) (fun _ => Normal gwei_0_5).

(** The loan amount [executeArbitrage] picks from the smaller of the two
    liquidities.  (The source wraps this choice in a [try] whose [catch]
    falls back to the smallest amount; nothing in it throws.) *)
Definition loanAmount_of (opportunity : Opportunity) : Z :=
  let lowest := Qmin (liquidity1 opportunity) (liquidity2 opportunity) in
  if ge lowest 1000 then ether_0_01
  else if ge lowest 100 then ether_0_001
  else ether_0_0001.

(** The transaction [executeArbitrage] sends for an opportunity at a gas
    price. *)
Definition submission (opportunity : Opportunity) (gasPrice : Z)
  : Submission :=
  {| sub_asset := tokenIn opportunity;
     sub_amount := loanAmount_of opportunity;
     sub_tokenIn := tokenIn opportunity;
     sub_tokenOut := tokenOut opportunity;
     sub_amountIn := loanAmount_of opportunity;
     sub_fee1 := 3000;
     sub_fee2 := 500;
     sub_useAerodrome :=
       String.eqb (dex1 opportunity) "aerodrome"
       || String.eqb (dex2 opportunity) "aerodrome";
     sub_gasPrice := gasPrice;
     sub_gasLimit := 300000 |}.

(** [executeArbitrage] *)
Definition executeArbitrage (net : Net) (opportunity : Opportunity)
  : Completion ExecResult :=
  try_catch
    (if negb (contract_ready net) then Throw ContractNotInitialized
     else
       balance <~ wallet_getBalance net ;;
       if balance <? ether_0_0005 then Throw InsufficientGasBalance
       else
         gasPrice <~ getOptimalGasPrice net ;;
         tx <~ contract_executeFlashLoanArbitrage net
                 (submission opportunity gasPrice) ;;
         receipt <~ tx_wait net tx ;;
         Normal (Success (transactionHash receipt) (gasUsed receipt)
                   opportunity))
    (fun error => Normal (Failure error opportunity)).

(** The threshold of the monitoring loop ("only execute if >1% profit
    potential") and its two pauses, in milliseconds. *)
Definition execution_threshold : Q := 1.
Definition SCAN_INTERVAL : Z := 30000.
Definition ERROR_INTERVAL : Z := 60000.

(** One turn of the [while] loop of [startArbitrageBot]: what it submitted,
    what came back, and how long it sleeps before the loop condition is
    evaluated again. *)
Record Turn : Type := {
  submitted : option Opportunity;
  outcome : option ExecResult;
  pause : Z
}.

(** The lines the loop prints before it executes: the price difference
    and the two liquidities, each through [toFixed].  The price difference is
    a number; the liquidities are what the feed gave. *)
Definition announce (bestOpportunity : Opportunity) : Completion unit :=
  _ <~ toFixed true ;;
  _ <~ toFixed (liquidity1_is_number bestOpportunity) ;;
  toFixed (liquidity2_is_number bestOpportunity).

(** The [try] block of the loop, up to its pause: the opportunity it
    submitted and the result that came back, if any. *)
Definition loop_try (scan : Completion (list Opportunity))
    (execute : Opportunity -> Completion ExecResult)
  : Completion (option Opportunity * option ExecResult) :=
  opportunities <~ scan ;;
  match opportunities with
  | bestOpportunity :: _ =>
      if gt (priceDiff bestOpportunity) execution_threshold then
        _ <~ announce bestOpportunity ;;
        result <~ execute bestOpportunity ;;
        Normal (Some bestOpportunity, Some result)
      else
        _ <~ toFixed true ;;
        Normal (None, None)
  | [] => Normal (None, None)
  end.

(** The [try] block followed by the pause of 30 s, or, when the block
    throws, the [catch] clause with its pause of 60 s. *)
Definition loop_body (scan : Completion (list Opportunity))
    (execute : Opportunity -> Completion ExecResult) : Turn :=
  match loop_try scan execute with
  | Normal (sent, result) =>
      {| submitted := sent; outcome := result; pause := SCAN_INTERVAL |}
  | Throw _ =>
      {| submitted := None; outcome := None; pause := ERROR_INTERVAL |}
  end.

(** One turn of the bot against a feed and a network. *)
Definition turn (arith : Arith) (feed : string -> Completion (list Pair))
    (net : Net) (now : Z) : Turn :=
  loop_body (findArbitrageOpportunities arith feed now) (executeArbitrage net).

(** The run flag and the loops alive.  [loops] counts the invocations of
    [startArbitrageBot] that have entered their [while] loop and not yet
    left it. *)
Record Bot : Type := {
  isMonitoring : bool;
  loops : nat
}.

Definition bot_idle : Bot := {| isMonitoring := false; loops := 0 |}.

(** [startArbitrageBot], up to its first [await]. *)
Definition startArbitrageBot (b : Bot) : Bot :=
  if isMonitoring b then b
  else {| isMonitoring := true; loops := S (loops b) |}.

(** [stopArbitrageBot] *)
Definition stopArbitrageBot (b : Bot) : Bot :=
  {| isMonitoring := false; loops := loops b |}.

(** A loop returns from its pause and evaluates [while (isMonitoring)]: it
    goes on when the flag is set and ends otherwise. *)
Definition wake (b : Bot) : Bot :=
  if isMonitoring b then b
  else {| isMonitoring := false; loops := Nat.pred (loops b) |}.

Inductive Event : Type := Start | Stop | Wake.

Definition step (b : Bot) (e : Event) : Bot :=
  match e with
  | Start => startArbitrageBot b
  | Stop => stopArbitrageBot b
  | Wake => wake b
  end.

Definition run (events : list Event) (b : Bot) : Bot :=
  fold_left step events b.

(** The flag and the count agree: one loop while the flag is set, none
    while it is clear. *)
Definition settled (b : Bot) : Prop :=
  loops b = if isMonitoring b then 1%nat else 0%nat.

End Controller.

(** ** Concrete deployments used to exercise the engine *)

Module Scenario.
Import Engine.

(** Addresses: the engine, the pool, the owner and three tokens. *)
Definition engine : address := 100.
Definition pool : address := 200.
Definition deployer : address := 7.
Definition tokX : address := 1.
Definition tokA : address := 2.
Definition tokB : address := 3.

(** A venue with a fixed rate [num/den] per input token: it takes the input
    from the recipient's balance, under the allowance granted to the router,
    and credits the output to the recipient. *)
Definition venue (rate : address -> Z * Z) (c : Chain)
    (p : ExactInputSingleParams) : option (Z * Chain) :=
  let payer := eis_recipient p in
  if (eis_amountIn p <=? balance_in c (eis_tokenIn p) payer)
     && (eis_amountIn p <=?
           allowance_in c (eis_tokenIn p) payer UNISWAP_ROUTER)
  then
    let out := eis_amountIn p * fst (rate (eis_tokenIn p))
               / snd (rate (eis_tokenIn p)) in
    let c1 := set_balance (eis_tokenIn p) payer
                (balance_in c (eis_tokenIn p) payer - eis_amountIn p) c in
    Some (out, set_balance (eis_tokenOut p) payer
                 (balance_in c1 (eis_tokenOut p) payer + out) c1)
  else None.

(** Selling [tokA] one for one and buying it back three for two: a winning
    round trip. *)
Definition rate_router : Chain -> ExactInputSingleParams -> option (Z * Chain)
  := venue (fun t => if t =? tokA then (1, 1) else (3, 2)).

(** Nine for ten in every direction: a losing round trip. *)
Definition lossy_router : Chain -> ExactInputSingleParams -> option (Z * Chain)
  := venue (fun _ => (9, 10)).

(** A venue that answers every swap with its input amount and moves
    nothing. *)
Definition idle_router (c : Chain) (p : ExactInputSingleParams)
  : option (Z * Chain) :=
  Some (eis_amountIn p, c).

Definition from_pool : Ctx :=
  {| msg_sender := pool; tx_gasprice := 1;
     block_timestamp := 1000; gasleft := 5 |}.

(** A round trip [tokA -> tokB -> tokA] on the primary venue. *)
Definition round_trip : ArbitrageParams :=
  {| tokenIn := tokA; tokenOut := tokB; amountIn := 10;
     fee1 := 3000; fee2 := 500; useAerodrome := false |}.

(** A second invocation of [executeOperation], made while a first one is
    executing: the pool is the caller and the engine the initiator; [st] is
    the engine's storage and [c] the ledger at that moment. *)
Definition nested_callback (st : Storage) (c : Chain)
  : Result (bool * World) :=
  executeOperation engine pool rate_router from_pool tokA 10 0 engine
    (Some round_trip) {| storage := st; chain := c |}.

(** A venue that, when the engine calls it for the leg out of [tokA], first
    has the pool call back into the engine ([nested_callback]) and then
    performs the swap on the ledger that call left; if the nested call
    reverts, so does the swap. *)
Definition reentering_router (st : Storage) (c : Chain)
    (p : ExactInputSingleParams) : option (Z * Chain) :=
  if eis_tokenIn p =? tokA then
    match nested_callback st c with
    | Ok (_, w') => rate_router (chain w') p
    | Err _ => None
    end
  else rate_router c p.

(** Quoters: one that always reverts, one that always answers zero, one
    that answers its input, the one of the worked example (1050 for the
    leg out of [tokA], 1060 for the leg back), and an address that holds no
    quoter code. *)
Definition failing_quoter (c : Chain) (tin tout : address) (fee amt lim : Z)
  : QuoterCall := QuoterReverts.

Definition zero_quoter (c : Chain) (tin tout : address) (fee amt lim : Z)
  : QuoterCall := QuoterReturns 0 c.

Definition par_quoter (c : Chain) (tin tout : address) (fee amt lim : Z)
  : QuoterCall := QuoterReturns amt c.

Definition example_quoter (c : Chain) (tin tout : address) (fee amt lim : Z)
  : QuoterCall :=
  if tin =? tokA then QuoterReturns 1050 c else QuoterReturns 1060 c.

Definition absent_quoter (c : Chain) (tin tout : address) (fee amt lim : Z)
  : QuoterCall := QuoterUnanswered.

(** A quoter that answers the leg out of [tokA] and holds no code for the leg
    back. *)
Definition half_quoter (c : Chain) (tin tout : address) (fee amt lim : Z)
  : QuoterCall :=
  if tin =? tokA then QuoterReturns 1050 c else QuoterUnanswered.


(** A premium of five basis points, rounded half up. *)
Definition premium_5bps (amount : Z) : Z := (amount * 5 + 5000) / 10000.

(** An idle engine holding 50 [tokA], facing a pool that holds 100000. *)
Definition world_funded : World :=
  {| storage := initial_storage deployer;
     chain := {| balances := <[(tokA, pool) := 100000]>
                               (<[(tokA, engine) := 50]> ∅);
                 allowances := ∅;
                 events := [] |} |}.

(** The engine holding exactly a loan of 10 [tokA]. *)
Definition ledger_loan : Chain :=
  {| balances := <[(tokA, engine) := 10]> ∅;
     allowances := ∅;
     events := [] |}.

Definition world_loan : World :=
  {| storage := set_status _ENTERED (initial_storage deployer);
     chain := ledger_loan |}.

Definition ledger0 : Chain :=
  {| balances := <[(tokX, engine) := 100]> (<[(tokA, engine) := 50]> ∅);
     allowances := ∅;
     events := [] |}.

(** The engine in the middle of [executeFlashLoanArbitrage]: the guard is
    set. *)
Definition world_entered : World :=
  {| storage := set_status _ENTERED (initial_storage deployer);
     chain := ledger0 |}.

Definition world_idle : World :=
  {| storage := initial_storage deployer; chain := ledger0 |}.

Definition from_owner : Ctx :=
  {| msg_sender := deployer; tx_gasprice := 1;
     block_timestamp := 1000; gasleft := 5 |}.

(** The idle engine after its owner has set the profit threshold to 0. *)
Definition world_no_threshold : World :=
  transact (updateSettings from_owner 0 (50 * 10 ^ 9) 300) world_idle.


End Scenario.

(** ** A concrete feed and network used to exercise the controller *)

Module Desk.
Import Js Scanner Controller.

(** [Math.log10] up to the only question the scanner asks of it, whether
    its absolute value stays below 2: 0 for a ratio strictly between 1/100
    and 100, and 2 otherwise. *)
Definition coarse_log10 (r : Q) : Q :=
  if gt r (1 # 100) && lt r 100 then 0%Q else 2%Q.

(** [parseFloat] on texts that start with an unsigned whole number: the
    number their leading decimal digits spell, and [NaN] when the text does
    not start with a digit. *)
Definition digit_of (c : Ascii.ascii) : option N :=
  let n := Ascii.N_of_ascii c in
  if ((48 <=? n) && (n <=? 57))%N then Some (n - 48)%N else None.

Fixpoint leading_digits (s : string) (read : option N) : option N :=
  match s with
  | String c rest =>
      match digit_of c with
      | Some d => leading_digits rest (Some (10 * default 0 read + d))%N
      | None => read
      end
  | EmptyString => read
  end.

Definition parse_whole (s : string) : option Q :=
  match leading_digits s None with
  | Some n => Some (inject_Z (Z.of_N n))
  | None => None
  end.

(** Arithmetic without rounding. *)
Definition exact_arith : Arith :=
  {| fsub := Qminus; fadd := Qplus; fdiv := Qdiv; fmul := Qmult;
     flog10 := coarse_log10; parseFloat := parse_whole |}.

Definition WETH : string := "0x4200000000000000000000000000000000000006".
Definition quote_token : string := "0x833589fCD6eDb6E08f4c7C32D4f71b54bdA02913".

(** Two pools of the same asset against the same quote token, priced 102
    and 100, each with liquidity one unit above the floor. *)
Definition pair_uniswap : Pair :=
  {| chainId := "base"; dexId := "uniswap";
     priceUsd := "102";
     baseToken := Some WETH; quoteToken := Some quote_token;
     liquidity_usd := Some 101%Q; liquidity_is_number := true;
     volume_h24 := Some 5000%Q |}.

Definition pair_aerodrome : Pair :=
  {| chainId := "base"; dexId := "aerodrome";
     priceUsd := "100";
     baseToken := Some WETH; quoteToken := Some quote_token;
     liquidity_usd := Some 101%Q; liquidity_is_number := true;
     volume_h24 := Some 7000%Q |}.

(** The same pool with its liquidity exactly at the floor. *)
Definition pair_thin : Pair :=
  {| chainId := "base"; dexId := "aerodrome";
     priceUsd := "100";
     baseToken := Some WETH; quoteToken := Some quote_token;
     liquidity_usd := Some 100%Q; liquidity_is_number := true;
     volume_h24 := Some 7000%Q |}.

Definition feed0 (tokenAddress : string) : Completion (list Pair) :=
  if String.eqb tokenAddress WETH
  then Normal [pair_uniswap; pair_aerodrome]
  else Normal [].

(** The opportunity the scanner makes of the two pools: a price difference
    of 200/101 percent. *)
Definition opportunity0 : Opportunity :=
  {| tokenIn := WETH; tokenOut := quote_token;
     dex1 := "uniswap"; dex2 := "aerodrome";
     price1 := "102"; price2 := "100";
     priceDiff := priceDiffPercent_of exact_arith 102 100;
     liquidity1 := 101; liquidity1_is_number := true;
     liquidity2 := 101; liquidity2_is_number := true;
     volume24h1 := 5000; volume24h2 := 7000;
     timestamp := 0 |}.

(** A network on which the submission completes as [sent] and the wait for
    the receipt as [mined]. *)
Definition net_with (sent : Completion string) (mined : Completion Receipt)
  : Net :=
  {| contract_ready := true;
     wallet_getBalance := Normal (10 ^ 18);
     provider_getGasPrice := Normal (10 ^ 9);
     contract_executeFlashLoanArbitrage := fun _ => sent;
     tx_wait := fun _ => mined |}.

(** The engine reverts the attempt as unprofitable, the transport fails,
    the wait times out, the attempt is mined. *)
Definition net_reverting : Net :=
  net_with (Normal "0xabc"%string) (Throw (EngineFailure Engine.UnprofitableTrade)).
Definition net_unreachable : Net :=
  net_with (Throw NetworkError) (Throw NetworkError).
Definition net_timing_out : Net :=
  net_with (Normal "0xabc"%string) (Throw Timeout).
Definition net_mining : Net :=
  net_with (Normal "0xabc"%string)
    (Normal {| transactionHash := "0xabc"; gasUsed := 210000 |}).

End Desk.

(** ** Part III: the HTTP surface and the earlier copy of the server *)

(** The handlers of [server/index.js] that drive the bot, on the part of the
    process state they read and write: whether the contract artifact was
    loaded ([contractABI]), whether a contract object exists ([contract]),
    and the bot. *)
Module Api.
Import Js Controller.

Record Server : Type := {
  contractABI : bool;
  contract : bool;
  bot : Bot
}.

(** [initializeBlockchain], when the connection comes up: the contract
    object is created if an address and the artifact are both there. *)
Definition initializeBlockchain (artifact_found address_known : bool)
  : Server :=
  {| contractABI := artifact_found;
     contract := address_known && artifact_found;
     bot := bot_idle |}.

(** [POST /api/start-bot]: the status code and the state it leaves. *)
Definition post_start_bot (s : Server) : Z * Server :=
  if negb (contract s) then (400, s)
  else (200, {| contractABI := contractABI s;
                contract := contract s;
                bot := startArbitrageBot (bot s) |}).

(** [POST /api/stop-bot] *)
Definition post_stop_bot (s : Server) : Z * Server :=
  (200, {| contractABI := contractABI s;
           contract := contract s;
           bot := stopArbitrageBot (bot s) |}).

(** [POST /api/deploy], given how the deployment transaction completes. *)
Definition post_deploy (deployment : Completion string) (s : Server)
  : Z * Server :=
  if negb (contractABI s) then (400, s)
  else
    match deployment with
    | Normal _ => (200, {| contractABI := contractABI s;
                          contract := true;
                          bot := bot s |})
    | Throw _ => (500, s)
    end.

(** The two flags [GET /api/status] reports. *)
Definition status_contractDeployed (s : Server) : bool := contract s.
Definition status_botRunning (s : Server) : bool := isMonitoring (bot s).

(** What can happen to the process: a request arrives, or a loop comes back
    from its pause. *)
Inductive Incident : Type :=
| StartBot
| StopBot
| Deploy (deployment : Completion string)
| LoopWakes.

Definition handle (s : Server) (i : Incident) : Server :=
  match i with
  | StartBot => snd (post_start_bot s)
  | StopBot => snd (post_stop_bot s)
  | Deploy deployment => snd (post_deploy deployment s)
  | LoopWakes => {| contractABI := contractABI s;
                    contract := contract s;
                    bot := wake (bot s) |}
  end.

Definition handle_all (incidents : list Incident) (s : Server) : Server :=
  fold_left handle incidents s.

(** What every reachable state of the server satisfies: the artifact flag
    is the one of start-up, a contract object needs the artifact, and
    without a contract object the bot is idle. *)
Definition api_sound (artifact_found : bool) (s : Server) : Prop :=
  contractABI s = artifact_found
  /\ (contract s = true -> artifact_found = true)
  /\ (contract s = false -> bot s = bot_idle).

(** How many of the bot's events are calls of [startArbitrageBot]. *)
Definition starts (events : list Event) : nat :=
  length (List.filter (fun e => match e with Start => true | _ => false end)
            events).

End Api.

(** The earlier copy of the server kept in the repository: its
    [getOptimalGasPrice], which adds a ten percent buffer with the integer
    arithmetic of [BigNumber] and falls back to one gwei. *)
Module Legacy.
Import Js Controller.

Definition gwei_1 : Z := 10 ^ 9.

Definition getOptimalGasPrice (net : Net) : Completion Z :=
  try_catch
    (gasPrice <~ provider_getGasPrice net ;;
     Normal (gasPrice * 110 / 100))
    (fun _ => Normal gwei_1).

End Legacy.

(** ** More feeds and networks *)

Module Bench.
Import Js Scanner Controller Desk.

(** A pair whose [quoteToken] object is missing. *)
Definition pair_broken : Pair :=
  {| chainId := "base"; dexId := "uniswap";
     priceUsd := "101";
     baseToken := Some WETH; quoteToken := None;
     liquidity_usd := Some 500%Q; liquidity_is_number := true;
     volume_h24 := Some 10%Q |}.

(** A pair of another network. *)
Definition pair_elsewhere : Pair :=
  {| chainId := "ethereum"; dexId := "uniswap";
     priceUsd := "105";
     baseToken := Some WETH; quoteToken := Some quote_token;
     liquidity_usd := Some 900000%Q; liquidity_is_number := true;
     volume_h24 := Some 10%Q |}.

(** The pool priced 102 with its [baseToken] object missing. *)
Definition pair_baseless : Pair :=
  {| chainId := "base"; dexId := "uniswap";
     priceUsd := "102";
     baseToken := None; quoteToken := Some quote_token;
     liquidity_usd := Some 101%Q; liquidity_is_number := true;
     volume_h24 := Some 5000%Q |}.

(** The pool priced 102 as a feed would give it with its liquidity written
    as the text ["101"] instead of the number. *)
Definition pair_texted : Pair :=
  {| chainId := "base"; dexId := "uniswap";
     priceUsd := "102";
     baseToken := Some WETH; quoteToken := Some quote_token;
     liquidity_usd := Some 101%Q; liquidity_is_number := false;
     volume_h24 := Some 5000%Q |}.

(** The pool priced 102 with trailing text after the number. *)
Definition pair_suffixed : Pair :=
  {| chainId := "base"; dexId := "uniswap";
     priceUsd := "102abc";
     baseToken := Some WETH; quoteToken := Some quote_token;
     liquidity_usd := Some 101%Q; liquidity_is_number := true;
     volume_h24 := Some 5000%Q |}.

(** A pool of the same asset on venue [dex] at price [price]. *)
Definition pool_at (dex price : string) : Pair :=
  {| chainId := "base"; dexId := dex;
     priceUsd := price;
     baseToken := Some WETH; quoteToken := Some quote_token;
     liquidity_usd := Some 5000%Q; liquidity_is_number := true;
     volume_h24 := Some 10%Q |}.

(** Six pools priced from 110 down to 100: fifteen candidates, every one
    inside the retention window. *)
Definition feed_wide (tokenAddress : string) : Completion (list Pair) :=
  if String.eqb tokenAddress WETH
  then Normal [pool_at "a" "110"; pool_at "b" "108"; pool_at "c" "106";
               pool_at "d" "104"; pool_at "e" "102"; pool_at "f" "100"]
  else Normal [].

(** The good feed followed by the broken pair, the good feed with the
    second pool's liquidity at the floor, with the first pool's base token
    missing, with its liquidity as text, and with text after its price. *)
Definition feed_late_break (tokenAddress : string) : Completion (list Pair) :=
  if String.eqb tokenAddress WETH
  then Normal [pair_uniswap; pair_aerodrome; pair_broken]
  else Normal [].

Definition feed_thin (tokenAddress : string) : Completion (list Pair) :=
  if String.eqb tokenAddress WETH
  then Normal [pair_uniswap; pair_thin]
  else Normal [].

Definition feed_baseless (tokenAddress : string) : Completion (list Pair) :=
  if String.eqb tokenAddress WETH
  then Normal [pair_baseless; pair_aerodrome]
  else Normal [].

Definition feed_texted (tokenAddress : string) : Completion (list Pair) :=
  if String.eqb tokenAddress WETH
  then Normal [pair_texted; pair_aerodrome]
  else Normal [].

Definition feed_suffixed (tokenAddress : string) : Completion (list Pair) :=
  if String.eqb tokenAddress WETH
  then Normal [pair_suffixed; pair_aerodrome]
  else Normal [].

(** The good feed with the broken pair in front, a feed that is down, and
    a feed that only knows another network. *)
Definition feed_broken (tokenAddress : string) : Completion (list Pair) :=
  if String.eqb tokenAddress WETH
  then Normal [pair_broken; pair_uniswap; pair_aerodrome]
  else Normal [].

Definition feed_down (tokenAddress : string) : Completion (list Pair) :=
  Throw NetworkError.

Definition feed_elsewhere (tokenAddress : string) : Completion (list Pair) :=
  Normal [pair_elsewhere; pair_elsewhere].

(** Networks: no contract object, a wallet short of gas money, and a gas
    oracle that is down while everything else works. *)
Definition net_no_contract : Net :=
  {| contract_ready := false;
     wallet_getBalance := Normal (10 ^ 18);
     provider_getGasPrice := Normal (10 ^ 9);
     contract_executeFlashLoanArbitrage := fun _ => Normal "0xabc"%string;
     tx_wait := fun _ =>
       Normal {| transactionHash := "0xabc"; gasUsed := 210000 |} |}.

Definition net_poor : Net :=
  {| contract_ready := true;
     wallet_getBalance := Normal (4 * 10 ^ 14);
     provider_getGasPrice := Normal (10 ^ 9);
     contract_executeFlashLoanArbitrage := fun _ => Normal "0xabc"%string;
     tx_wait := fun _ =>
       Normal {| transactionHash := "0xabc"; gasUsed := 210000 |} |}.

(** The submission comes back with the gas price it was sent at as its
    hash, so that the price used can be read off the result. *)
Definition net_no_oracle : Net :=
  {| contract_ready := true;
     wallet_getBalance := Normal (10 ^ 18);
     provider_getGasPrice := Throw NetworkError;
     contract_executeFlashLoanArbitrage := fun sub =>
       if sub_gasPrice sub =? gwei_0_5 then Normal "fallback"%string
       else Normal "other"%string;
     tx_wait := fun tx => Normal {| transactionHash := tx; gasUsed := 1 |} |}.

End Bench.

(** * Properties of the engine *)

Section EngineFacts.
Import Engine.

Variable this POOL : address.
Variable router : Chain -> ExactInputSingleParams -> option (Z * Chain).
Variable quoter : Chain -> address -> address -> Z -> Z -> Z -> QuoterCall.

Lemma bind_Ok {A B} (m : M A) (k : A -> M B) w r :
  bind m k w = Ok r -> exists a w', m w = Ok (a, w') /\ k a w' = Ok r.
Proof.
  unfold bind. destruct (m w) as [[a w']|f]; [eauto | discriminate].
Qed.

Lemma bind_Ok_intro {A B} (m : M A) (k : A -> M B) w a w' :
  m w = Ok (a, w') -> bind m k w = k a w'.
Proof. unfold bind. now intros ->. Qed.

Lemma bind_Err {A B} (m : M A) (k : A -> M B) w f :
  m w = Err f -> bind m k w = Err f.
Proof. unfold bind. now intros ->. Qed.

Lemma require_Ok b f w r :
  require b f w = Ok r -> b = true /\ r = (tt, w).
Proof.
  destruct b; cbn; [intros [= <-]; auto | discriminate].
Qed.

Lemma require_true f w : require true f w = Ok (tt, w).
Proof. reflexivity. Qed.

Lemma require_false f w : require false f w = Err f.
Proof. reflexivity. Qed.

Lemma checked_add_Ok a b w r :
  checked_add a b w = Ok r -> r = (a + b, w) /\ a + b <= uint256_max.
Proof.
  unfold checked_add. destruct (Z.leb_spec (a + b) uint256_max); cbn.
  - intros [= <-]; auto.
  - discriminate.
Qed.

Lemma checked_add_in_range a b w :
  a + b <= uint256_max -> checked_add a b w = Ok (a + b, w).
Proof.
  intros H. unfold checked_add.
  destruct (Z.leb_spec (a + b) uint256_max); [reflexivity | lia].
Qed.

(** Swaps leave the engine's storage alone. *)
Lemma call_router_storage p w out w' :
  call_router router p w = Ok (out, w') -> storage w' = storage w.
Proof.
  unfold call_router. destruct (router (chain w) p) as [[o c]|]; [|discriminate].
  now intros [= _ <-].
Qed.

(** What [_executeArbitrage] returns, when it returns: the positive part of
    the change of the engine's [tokenIn] balance across the two swaps. *)
Lemma _executeArbitrage_profit ctx p amount w profit w1 :
  _executeArbitrage this router ctx p amount w = Ok (profit, w1) ->
  profit = Z.max 0 (balance_in (chain w1) (tokenIn p) this
                    - balance_in (chain w) (tokenIn p) this).
Proof.
  unfold _executeArbitrage. intros H.
  apply bind_Ok in H as (s & w0 & Hs & H). revert Hs; intros [= <- <-].
  apply bind_Ok in H as (o1 & wa & _ & H).
  apply bind_Ok in H as (o2 & wb & _ & H).
  apply bind_Ok in H as (e & wc & He & H). revert He; intros [= <- <-].
  revert H; intros [= <- <-].
  destruct (Z.gtb_spec (balance_in (chain wb) (tokenIn p) this)
              (balance_in (chain w) (tokenIn p) this)); lia.
Qed.

Lemma _executeArbitrage_nonneg ctx p amount w profit w1 :
  _executeArbitrage this router ctx p amount w = Ok (profit, w1) ->
  0 <= profit.
Proof. intros H. apply _executeArbitrage_profit in H. lia. Qed.

Lemma executeOperation_unfold ctx asset amount premium p w :
  msg_sender ctx = POOL ->
  executeOperation this POOL router ctx asset amount premium this (Some p) w
  = bind (_executeArbitrage this router ctx p amount)
      (settle this POOL ctx asset amount premium) w.
Proof.
  intros Hc. unfold executeOperation, settle.
  rewrite Hc, !Z.eqb_refl. reflexivity.
Qed.

Lemma executeOperation_checks ctx asset amount premium initiator params w r :
  executeOperation this POOL router ctx asset amount premium initiator params w
    = Ok r ->
  msg_sender ctx = POOL /\ initiator = this /\ exists p, params = Some p.
Proof.
  unfold executeOperation. intros H.
  apply bind_Ok in H as ([] & w0 & H0 & H).
  apply require_Ok in H0 as [H0 [= ->]].
  apply bind_Ok in H as ([] & w0 & H1 & H).
  apply require_Ok in H1 as [H1 [= ->]].
  destruct params as [p|]; [|discriminate].
  apply Z.eqb_eq in H0, H1. eauto.
Qed.

Lemma settle_Ok ctx asset amount premium profit w b w' :
  settle this POOL ctx asset amount premium profit w = Ok (b, w') ->
  b = true /\ 0 < profit /\ amount + premium <= balance_in (chain w) asset this
  /\ balances (chain w') = balances (chain w)
  /\ storage w' = storage w
  /\ events (chain w') =
       events (chain w) ++ [ArbitrageExecuted asset amount profit (gasleft ctx)]
  /\ allowance_in (chain w') asset this POOL = amount + premium.
Proof.
  unfold settle. intros H.
  apply bind_Ok in H as (d & w0 & Hd & H).
  apply checked_add_Ok in Hd as [[= -> ->] Hr].
  apply bind_Ok in H as (h & w0 & Hh & H). revert Hh; intros [= <- <-].
  apply bind_Ok in H as ([] & w0 & H0 & H).
  apply require_Ok in H0 as [H0 [= ->]].
  apply bind_Ok in H as ([] & w0 & H1 & H).
  apply require_Ok in H1 as [H1 [= ->]].
  cbn in H. revert H; intros [= <- <-].
  apply Z.geb_le in H0. apply Z.gtb_lt in H1.
  repeat split; try assumption; try lia.
  cbn. unfold allowance_in. cbn. now rewrite lookup_insert_eq.
Qed.

(** [transact] keeps nothing of a call that reverts. *)
Lemma transact_Err {A} (m : M A) w f : m w = Err f -> transact m w = w.
Proof. unfold transact. now intros ->. Qed.

(** When the swaps complete, [executeOperation] goes one of three ways, and
    the repayment test is the first of the two. *)
Lemma settle_cases ctx asset amount premium profit w :
  amount + premium <= uint256_max ->
  (balance_in (chain w) asset this < amount + premium ->
     settle this POOL ctx asset amount premium profit w
       = Err InsufficientRepayment)
  /\ (amount + premium <= balance_in (chain w) asset this -> profit <= 0 ->
     settle this POOL ctx asset amount premium profit w
       = Err UnprofitableTrade)
  /\ (amount + premium <= balance_in (chain w) asset this -> 0 < profit ->
     exists w', settle this POOL ctx asset amount premium profit w
       = Ok (true, w')).
Proof.
  intros Hr. unfold settle, checked_add, balanceOf, bind.
  destruct (Z.leb_spec (amount + premium) uint256_max); [|lia]. cbn.
  destruct (Z.geb_spec (balance_in (chain w) asset this) (amount + premium));
    cbn; (destruct (Z.gtb_spec profit 0); cbn);
    repeat split; intros; try lia; eauto.
Qed.

Lemma settle_unprofitable ctx asset amount premium profit w :
  profit <= 0 ->
  exists e, settle this POOL ctx asset amount premium profit w = Err e.
Proof.
  intros Hp. unfold settle, checked_add, balanceOf, bind.
  destruct (Z.leb_spec (amount + premium) uint256_max); cbn;
    [|eexists; reflexivity].
  destruct (Z.geb_spec (balance_in (chain w) asset this) (amount + premium));
    cbn; [|eexists; reflexivity].
  destruct (Z.gtb_spec profit 0); cbn; [lia | eexists; reflexivity].
Qed.

(** A callback that returns has made a strictly positive profit, and the
    engine's [tokenIn] balance has grown by exactly that profit. *)
Lemma executeOperation_Ok_profit
    ctx asset amount premium initiator p w b w' :
  executeOperation this POOL router ctx asset amount premium initiator
    (Some p) w = Ok (b, w') ->
  exists profit,
    0 < profit
    /\ (exists w1, _executeArbitrage this router ctx p amount w
                   = Ok (profit, w1))
    /\ balance_in (chain w') (tokenIn p) this
       = balance_in (chain w) (tokenIn p) this + profit.
Proof.
  intros H.
  destruct (executeOperation_checks _ _ _ _ _ _ _ _ H) as (Hc & -> & _).
  rewrite executeOperation_unfold in H by assumption.
  apply bind_Ok in H as (profit & w1 & Harb & Hs).
  apply settle_Ok in Hs as (_ & Hpos & _ & Hbal & _).
  pose proof (_executeArbitrage_profit _ _ _ _ _ _ Harb) as Hp.
  exists profit. split; [exact Hpos|]. split; [eauto|].
  unfold balance_in in *. rewrite Hbal. lia.
Qed.

Lemma settle_overflow ctx asset amount premium profit w :
  uint256_max < amount + premium ->
  settle this POOL ctx asset amount premium profit w = Err ArithmeticPanic.
Proof.
  intros Hr. unfold settle, checked_add, bind.
  destruct (Z.leb_spec (amount + premium) uint256_max); [lia | reflexivity].
Qed.

(** C3, as the code has it.  For an invocation that passes the caller and
    initiator checks and whose swaps complete, the profit is
    [max 0 (postBalance - preBalance)] of [params.tokenIn].  The engine then
    adds [amount + premium] in checked arithmetic (an arithmetic panic when
    the sum does not fit a [uint256]), first requires the held balance of the
    asset to cover that debt (InsufficientRepayment otherwise) and only then
    requires the profit to be positive (UnprofitableTrade otherwise).  Each of
    the three failures undoes the swaps; with both tests passed the callback
    returns [true]; and a profit that is not positive always ends in one of
    the three failures. *)
Theorem executeOperation_checks_in_order
    ctx asset amount premium p w profit w1 :
  msg_sender ctx = POOL ->
  _executeArbitrage this router ctx p amount w = Ok (profit, w1) ->
  profit = Z.max 0 (balance_in (chain w1) (tokenIn p) this
                    - balance_in (chain w) (tokenIn p) this)
  /\ (uint256_max < amount + premium ->
      executeOperation this POOL router ctx asset amount premium this
        (Some p) w = Err ArithmeticPanic
      /\ transact (executeOperation this POOL router ctx asset amount premium
                     this (Some p)) w = w)
  /\ (amount + premium <= uint256_max ->
      balance_in (chain w1) asset this < amount + premium ->
      executeOperation this POOL router ctx asset amount premium this
        (Some p) w = Err InsufficientRepayment
      /\ transact (executeOperation this POOL router ctx asset amount premium
                     this (Some p)) w = w)
  /\ (amount + premium <= uint256_max ->
      amount + premium <= balance_in (chain w1) asset this -> profit <= 0 ->
      executeOperation this POOL router ctx asset amount premium this
        (Some p) w = Err UnprofitableTrade
      /\ transact (executeOperation this POOL router ctx asset amount premium
                     this (Some p)) w = w)
  /\ (amount + premium <= uint256_max ->
      amount + premium <= balance_in (chain w1) asset this -> 0 < profit ->
      exists w',
        executeOperation this POOL router ctx asset amount premium this
          (Some p) w = Ok (true, w')).
Proof.
  intros Hc Harb.
  split; [now apply _executeArbitrage_profit in Harb|].
  assert (Heq :
    executeOperation this POOL router ctx asset amount premium this
      (Some p) w
    = settle this POOL ctx asset amount premium profit w1).
  { rewrite executeOperation_unfold by assumption.
    exact (bind_Ok_intro _ _ _ _ _ Harb). }
  split; [|split; [|split]].
  - intros Hr. pose proof (settle_overflow ctx asset _ _ profit w1 Hr) as He.
    rewrite <- Heq in He.
    split; [exact He | exact (transact_Err _ _ _ He)].
  - intros Hr H.
    destruct (settle_cases ctx asset amount premium profit w1 Hr)
      as (Hlow & _). specialize (Hlow H). rewrite <- Heq in Hlow.
    split; [exact Hlow | exact (transact_Err _ _ _ Hlow)].
  - intros Hr H Hp.
    destruct (settle_cases ctx asset amount premium profit w1 Hr)
      as (_ & Hflat & _). specialize (Hflat H Hp). rewrite <- Heq in Hflat.
    split; [exact Hflat | exact (transact_Err _ _ _ Hflat)].
  - intros Hr H Hp.
    destruct (settle_cases ctx asset amount premium profit w1 Hr)
      as (_ & _ & Hwin). rewrite Heq. exact (Hwin H Hp).
Qed.

(** [executeOperation] never consults the engine's storage: changing the
    storage changes neither its verdict nor its effect on the ledger. *)
Lemma executeOperation_storage_blind
    (g : Storage -> Storage) ctx asset amount premium initiator params w :
  executeOperation this POOL router ctx asset amount premium initiator params
    (with_storage g w)
  = Result_map (with_storage g)
      (executeOperation this POOL router ctx asset amount premium initiator
         params w).
Proof.
  unfold executeOperation.
  destruct (msg_sender ctx =? POOL); [|reflexivity].
  destruct (initiator =? this); [|reflexivity].
  destruct params as [p|]; [|reflexivity].
  unfold _executeArbitrage, _swapUniswapV3, _swapAerodrome, call_router,
    checked_add, approve, balanceOf, emit, abi_decode, bind, require, ret,
    revert. cbn.
  destruct (block_timestamp ctx + 300 <=? uint256_max); [|reflexivity]. cbn.
  destruct (router _ _) as [[o1 c1]|]; [|reflexivity]. cbn.
  destruct (useAerodrome p); cbn.
  - destruct (amount + premium <=? uint256_max); [|reflexivity]. cbn.
    destruct (_ >=? _); [|reflexivity]. cbn.
    destruct (_ >? 0); reflexivity.
  - destruct (router _ _) as [[o2 c2]|]; [|reflexivity]. cbn.
    destruct (amount + premium <=? uint256_max); [|reflexivity]. cbn.
    destruct (_ >=? _); [|reflexivity]. cbn.
    destruct (_ >? 0); reflexivity.
Qed.



(** *** The whole attempt, through the lending facility *)

Lemma balance_in_set_balance_eq token holder v c :
  balance_in (set_balance token holder v c) token holder = v.
Proof. unfold balance_in, set_balance. cbn. now rewrite lookup_insert_eq. Qed.

Lemma balance_in_set_balance_ne token holder v c token' holder' :
  (token, holder) <> (token', holder') ->
  balance_in (set_balance token holder v c) token' holder'
  = balance_in c token' holder'.
Proof.
  intros Hne. unfold balance_in, set_balance. cbn.
  now rewrite lookup_insert_ne.
Qed.

Lemma transfer_Ok token from to amount w w' :
  transfer token from to amount w = Ok (tt, w') ->
  from <> to ->
  storage w' = storage w
  /\ balance_in (chain w') token to = balance_in (chain w) token to + amount
  /\ balance_in (chain w') token from
     = balance_in (chain w) token from - amount.
Proof.
  unfold transfer. intros H Hne.
  destruct ((0 <=? amount) && (amount <=? balance_in (chain w) token from));
    [|discriminate].
  revert H; intros [= <-]. cbn. split; [reflexivity|].
  assert (Hk : (token, from) <> (token, to)) by congruence.
  assert (Hk' : (token, to) <> (token, from)) by congruence.
  rewrite balance_in_set_balance_eq.
  rewrite !(balance_in_set_balance_ne _ _ _ _ _ _ Hk).
  rewrite (balance_in_set_balance_ne _ _ _ _ _ _ Hk').
  rewrite balance_in_set_balance_eq. split; reflexivity.
Qed.

Lemma transferFrom_Ok token spender from to amount w w' :
  transferFrom token spender from to amount w = Ok (tt, w') ->
  from <> to ->
  storage w' = storage w
  /\ balance_in (chain w') token from
     = balance_in (chain w) token from - amount.
Proof.
  unfold transferFrom. intros H Hne.
  destruct (amount <=? allowance_in (chain w) token from spender);
    [|discriminate].
  apply bind_Ok in H as ([] & w1 & Ht & H).
  apply transfer_Ok in Ht as (Hs & _ & Hb); [|exact Hne].
  revert H; intros [= <-]. cbn. split; [exact Hs|].
  rewrite <- Hb. reflexivity.
Qed.

(** A successful attempt, seen from outside: the callback made a strictly
    positive profit, and what the engine holds of [tokenIn], when that is the
    borrowed asset, has grown by that profit less the premium the pool
    collected. *)
Lemma attempt_net_balance premiumOf ctx asset amount p w w' :
  executeFlashLoanArbitrage this POOL router premiumOf ctx asset amount
    (Some p) w = Ok (tt, w') ->
  exists profit,
    0 < profit
    /\ (this <> POOL -> tokenIn p = asset ->
        balance_in (chain w') asset this
        = balance_in (chain w) asset this + profit - premiumOf amount).
Proof.
  intros H. unfold executeFlashLoanArbitrage in H.
  apply bind_Ok in H as ([] & w1 & Ho & H).
  unfold onlyOwner in Ho. apply require_Ok in Ho as [_ [= ->]].
  apply bind_Ok in H as ([] & w1 & Hg & H).
  unfold nonReentrantBefore in Hg.
  apply bind_Ok in Hg as ([] & w0 & Hg0 & Hg).
  apply require_Ok in Hg0 as [_ [= ->]]. revert Hg; intros [= <-].
  apply bind_Ok in H as ([] & w1 & Hp & H).
  apply require_Ok in Hp as [_ [= ->]].
  apply bind_Ok in H as ([] & w4 & Hf & H).
  unfold nonReentrantAfter in H. revert H; intros [= <-].
  unfold flashLoanSimple in Hf.
  apply bind_Ok in Hf as ([] & w1 & Ht & Hf).
  apply bind_Ok in Hf as (ok & w2 & Hcb & Hf).
  apply bind_Ok in Hf as ([] & w3 & Hr & Hf).
  apply require_Ok in Hr as [_ [= ->]].
  destruct (executeOperation_Ok_profit _ _ _ _ _ _ _ _ _ Hcb)
    as (profit & Hpos & _ & Hbal).
  exists profit. split; [exact Hpos|].
  intros Hne Htok.
  apply transfer_Ok in Ht as (_ & Hin & _); [|congruence].
  apply transferFrom_Ok in Hf as (_ & Hout); [|exact Hne].
  cbn in Hin. cbn. rewrite Hout. rewrite <- Htok in *. rewrite Hbal, Hin. lia.
Qed.

(** C1, as the code has it.  Whenever [executeOperation] returns, the profit
    it computed is strictly positive and the engine's balance of
    [params.tokenIn] (the token whose balance the engine records, which is the
    borrowed asset when the request names it as [tokenIn]) is the balance at
    the start of the callback plus that profit; whenever the two swaps
    complete with a profit that is not positive, the callback reverts, so the
    ledger keeps the state it had before; and for the attempt as a whole, a
    success means a strictly positive profit, of which the engine keeps what
    the premium leaves, and a failure leaves the state untouched. *)
Theorem executeOperation_profit_or_rollback :
  (forall ctx asset amount premium initiator p w b w',
     executeOperation this POOL router ctx asset amount premium initiator
       (Some p) w = Ok (b, w') ->
     exists profit,
       0 < profit
       /\ (exists w1, _executeArbitrage this router ctx p amount w
                      = Ok (profit, w1))
       /\ balance_in (chain w') (tokenIn p) this
          = balance_in (chain w) (tokenIn p) this + profit
       /\ (tokenIn p = asset ->
           balance_in (chain w') asset this
           = balance_in (chain w) asset this + profit))
  /\ (forall ctx asset amount premium initiator p w profit w1,
     _executeArbitrage this router ctx p amount w = Ok (profit, w1) ->
     profit <= 0 ->
     (exists e,
        executeOperation this POOL router ctx asset amount premium initiator
          (Some p) w = Err e)
     /\ transact
          (executeOperation this POOL router ctx asset amount premium
             initiator (Some p)) w = w)
  /\ (forall premiumOf ctx asset amount p w w',
     executeFlashLoanArbitrage this POOL router premiumOf ctx asset amount
       (Some p) w = Ok (tt, w') ->
     exists profit,
       0 < profit
       /\ (this <> POOL -> tokenIn p = asset ->
           balance_in (chain w') asset this
           = balance_in (chain w) asset this + profit - premiumOf amount))
  /\ (forall premiumOf ctx asset amount params w e,
     executeFlashLoanArbitrage this POOL router premiumOf ctx asset amount
       params w = Err e ->
     transact
       (executeFlashLoanArbitrage this POOL router premiumOf ctx asset amount
          params) w = w).
Proof.
  split; [|split; [|split]].
  - intros ctx asset amount premium initiator p w b w' H.
    destruct (executeOperation_Ok_profit _ _ _ _ _ _ _ _ _ H)
      as (profit & Hpos & Harb & Hbal).
    exists profit. repeat split; eauto.
    intros <-. exact Hbal.
  - intros ctx asset amount premium initiator p w profit w1 Harb Hp.
    assert (He : exists e,
      executeOperation this POOL router ctx asset amount premium initiator
        (Some p) w = Err e).
    { unfold executeOperation.
      destruct (msg_sender ctx =? POOL) eqn:Hc; [|eexists; reflexivity].
      destruct (initiator =? this) eqn:Hi; [|eexists; reflexivity].
      cbn [require]. unfold ret at 1. unfold bind at 1.
      unfold ret at 1. unfold bind at 1.
      unfold abi_decode, ret at 1. unfold bind at 1.
      change (exists e, bind (_executeArbitrage this router ctx p amount)
                (settle this POOL ctx asset amount premium) w = Err e).
      rewrite (bind_Ok_intro _ _ _ _ _ Harb).
      now apply settle_unprofitable. }
    split; [exact He|]. destruct He as [e He]. now apply transact_Err in He.
  - exact attempt_net_balance.
  - intros premiumOf ctx asset amount params w e H.
    exact (transact_Err _ _ _ H).
Qed.

(** *** The quoting helper *)

(** The helper fails in one way only: when there is no answer to decode. *)
Lemma _getUniswapQuote_cases tokenIn tokenOut amountIn fee w :
  (exists q w',
     _getUniswapQuote quoter tokenIn tokenOut amountIn fee w = Ok (q, w')
     /\ quoter (chain w) tokenIn tokenOut fee amountIn 0 <> QuoterUnanswered)
  \/ (_getUniswapQuote quoter tokenIn tokenOut amountIn fee w
       = Err BadReturnData
      /\ quoter (chain w) tokenIn tokenOut fee amountIn 0 = QuoterUnanswered).
Proof.
  unfold _getUniswapQuote.
  destruct (quoter _ _ _ _ _ _) as [q c| |];
    [left | left | right]; eauto 6; do 2 eexists; split;
    (reflexivity || discriminate).
Qed.

Lemma _getUniswapQuote_storage tokenIn tokenOut amountIn fee w q w' :
  _getUniswapQuote quoter tokenIn tokenOut amountIn fee w = Ok (q, w') ->
  storage w' = storage w.
Proof.
  unfold _getUniswapQuote.
  destruct (quoter _ _ _ _ _ _) as [q0 c| |]; [| |discriminate];
    now intros [= _ <-].
Qed.

Lemma _getUniswapQuote_reverting tokenIn tokenOut amountIn fee w :
  quoter (chain w) tokenIn tokenOut fee amountIn 0 = QuoterReverts ->
  _getUniswapQuote quoter tokenIn tokenOut amountIn fee w = Ok (0, w).
Proof. unfold _getUniswapQuote. now intros ->. Qed.

Lemma _getUniswapQuote_unanswered tokenIn tokenOut amountIn fee w :
  quoter (chain w) tokenIn tokenOut fee amountIn 0 = QuoterUnanswered ->
  _getUniswapQuote quoter tokenIn tokenOut amountIn fee w = Err BadReturnData.
Proof. unfold _getUniswapQuote. now intros ->. Qed.

Lemma calculateArbitrageOpportunity_unfold
    tokenA tokenB fee1 fee2 testAmount w q1 w1 quoteBack w2 :
  _getUniswapQuote quoter tokenA tokenB testAmount fee1 w = Ok (q1, w1) ->
  _getUniswapQuote quoter tokenB tokenA q1 fee2 w1 = Ok (quoteBack, w2) ->
  calculateArbitrageOpportunity quoter tokenA tokenB fee1 fee2 testAmount w
  = if quoteBack >? testAmount then
      (scaled <- checked_mul (quoteBack - testAmount) 10000 ;;
       profitBasisPoints <- checked_div scaled testAmount ;;
       threshold <- read_minProfitBasisPoints ;;
       ret (profitBasisPoints >=? threshold,
            quoteBack - testAmount, testAmount)) w2
    else Ok ((false, 0, 0), w2).
Proof.
  intros H1 H2. unfold calculateArbitrageOpportunity.
  rewrite (bind_Ok_intro _ _ _ _ _ H1), (bind_Ok_intro _ _ _ _ _ H2).
  destruct (quoteBack >? testAmount); reflexivity.
Qed.

(** C4, as the code has it.  With [testAmount > 0] and a round trip quoting
    [quoteBack], the call returns, unless the scaled profit overflows, the
    flag [quoteBack > testAmount && (quoteBack - testAmount) * 10000 /
    testAmount >= minProfitBasisPoints], the profit [quoteBack - testAmount]
    (0 when there is none) and the test amount (0 when there is no profit);
    quotes of 1050 and 1060 on a test amount of 1000 with the threshold at 50
    give [(true, 60, 1000)]. *)
Theorem calculateArbitrageOpportunity_flag
    tokenA tokenB fee1 fee2 testAmount w q1 w1 quoteBack w2 :
  0 < testAmount ->
  _getUniswapQuote quoter tokenA tokenB testAmount fee1 w = Ok (q1, w1) ->
  _getUniswapQuote quoter tokenB tokenA q1 fee2 w1 = Ok (quoteBack, w2) ->
  (quoteBack - testAmount) * 10000 <= uint256_max ->
  calculateArbitrageOpportunity quoter tokenA tokenB fee1 fee2 testAmount w
  = Ok (((quoteBack >? testAmount)
         && ((quoteBack - testAmount) * 10000 / testAmount
             >=? minProfitBasisPoints (storage w)),
         if quoteBack >? testAmount then quoteBack - testAmount else 0,
         if quoteBack >? testAmount then testAmount else 0), w2)
  /\ calculateArbitrageOpportunity Scenario.example_quoter
       Scenario.tokA Scenario.tokB 3000 500 1000 Scenario.world_idle
     = Ok ((true, 60, 1000), Scenario.world_idle).
Proof.
  intros Hpos H1 H2 Hfit. split; [|vm_compute; reflexivity].
  rewrite (calculateArbitrageOpportunity_unfold _ _ _ _ _ _ _ _ _ _ H1 H2).
  assert (Hs : storage w2 = storage w).
  { rewrite (_getUniswapQuote_storage _ _ _ _ _ _ _ H2).
    apply (_getUniswapQuote_storage _ _ _ _ _ _ _ H1). }
  destruct (quoteBack >? testAmount); [|reflexivity].
  unfold checked_mul, checked_div, read_minProfitBasisPoints, bind, ret.
  destruct (Z.leb_spec ((quoteBack - testAmount) * 10000) uint256_max);
    [|lia].
  destruct (Z.eqb_spec testAmount 0); [lia|].
  rewrite Hs. reflexivity.
Qed.

(** C5, as the code has it.  A quoter call that reverts inside the quoter is
    caught and not propagated: the helper returns the plain number 0 and
    leaves the state as it was, which is exactly what it returns when the
    quoter answers zero, so nothing in the result tells the two apart.  A call
    with nothing to decode (no code at the quoter's address, or return data
    too short) is outside the [catch]: the helper reverts, and so does
    [calculateArbitrageOpportunity], on either leg.  The helper fails in no
    other way. *)
Theorem failed_quote_is_plain_zero tokenIn tokenOut amountIn fee w :
  (quoter (chain w) tokenIn tokenOut fee amountIn 0 = QuoterReverts ->
   _getUniswapQuote quoter tokenIn tokenOut amountIn fee w = Ok (0, w)
   /\ forall quoter',
        quoter' (chain w) tokenIn tokenOut fee amountIn 0
          = QuoterReturns 0 (chain w) ->
        _getUniswapQuote quoter' tokenIn tokenOut amountIn fee w
        = _getUniswapQuote quoter tokenIn tokenOut amountIn fee w)
  /\ (quoter (chain w) tokenIn tokenOut fee amountIn 0 = QuoterUnanswered ->
      _getUniswapQuote quoter tokenIn tokenOut amountIn fee w
        = Err BadReturnData
      /\ forall fee2,
           calculateArbitrageOpportunity quoter tokenIn tokenOut fee fee2
             amountIn w = Err BadReturnData)
  /\ (forall q1 w1 fee2,
        _getUniswapQuote quoter tokenIn tokenOut amountIn fee w
          = Ok (q1, w1) ->
        quoter (chain w1) tokenOut tokenIn fee2 q1 0 = QuoterUnanswered ->
        calculateArbitrageOpportunity quoter tokenIn tokenOut fee fee2
          amountIn w = Err BadReturnData)
  /\ (forall e,
        _getUniswapQuote quoter tokenIn tokenOut amountIn fee w = Err e ->
        e = BadReturnData
        /\ quoter (chain w) tokenIn tokenOut fee amountIn 0
           = QuoterUnanswered).
Proof.
  split; [|split; [|split]].
  - intros Hfail. rewrite (_getUniswapQuote_reverting _ _ _ _ _ Hfail).
    split; [reflexivity|].
    intros quoter' Hz. unfold _getUniswapQuote. rewrite Hz.
    destruct w; reflexivity.
  - intros Hun. apply _getUniswapQuote_unanswered in Hun.
    split; [exact Hun|].
    intros fee2. unfold calculateArbitrageOpportunity.
    exact (bind_Err _ _ _ _ Hun).
  - intros q1 w1 fee2 H1 Hun. apply _getUniswapQuote_unanswered in Hun.
    unfold calculateArbitrageOpportunity.
    rewrite (bind_Ok_intro _ _ _ _ _ H1).
    exact (bind_Err _ _ _ _ Hun).
  - intros e He.
    destruct (_getUniswapQuote_cases tokenIn tokenOut amountIn fee w)
      as [(q & w' & Hq & _)|[Hq Hun]]; rewrite Hq in He.
    + discriminate.
    + revert He; intros [= <-]. split; [reflexivity | exact Hun].
Qed.

(** C10.  When the round trip quotes no more than the test amount, the call
    returns [(false, 0, 0)] and does not fail; this covers a failed first
    quote, after which the second leg is quoted for an input of 0, and a
    failed second quote, whose zero is never above the test amount. *)
Theorem calculateArbitrageOpportunity_no_profit
    tokenA tokenB fee1 fee2 testAmount w :
  (forall q1 w1 quoteBack w2,
     _getUniswapQuote quoter tokenA tokenB testAmount fee1 w = Ok (q1, w1) ->
     _getUniswapQuote quoter tokenB tokenA q1 fee2 w1 = Ok (quoteBack, w2) ->
     quoteBack <= testAmount ->
     calculateArbitrageOpportunity quoter tokenA tokenB fee1 fee2 testAmount w
     = Ok ((false, 0, 0), w2))
  /\ (forall quoteBack w2,
     quoter (chain w) tokenA tokenB fee1 testAmount 0 = QuoterReverts ->
     _getUniswapQuote quoter tokenB tokenA 0 fee2 w = Ok (quoteBack, w2) ->
     quoteBack <= testAmount ->
     calculateArbitrageOpportunity quoter tokenA tokenB fee1 fee2 testAmount w
     = Ok ((false, 0, 0), w2))
  /\ (forall q1 w1,
     _getUniswapQuote quoter tokenA tokenB testAmount fee1 w = Ok (q1, w1) ->
     quoter (chain w1) tokenB tokenA fee2 q1 0 = QuoterReverts ->
     0 <= testAmount ->
     calculateArbitrageOpportunity quoter tokenA tokenB fee1 fee2 testAmount w
     = Ok ((false, 0, 0), w1)).
Proof.
  assert (Hgen : forall q1 w1 quoteBack w2,
     _getUniswapQuote quoter tokenA tokenB testAmount fee1 w = Ok (q1, w1) ->
     _getUniswapQuote quoter tokenB tokenA q1 fee2 w1 = Ok (quoteBack, w2) ->
     quoteBack <= testAmount ->
     calculateArbitrageOpportunity quoter tokenA tokenB fee1 fee2 testAmount w
     = Ok ((false, 0, 0), w2)).
  { intros q1 w1 quoteBack w2 H1 H2 Hle.
    rewrite (calculateArbitrageOpportunity_unfold _ _ _ _ _ _ _ _ _ _ H1 H2).
    destruct (Z.gtb_spec quoteBack testAmount); [lia | reflexivity]. }
  split; [exact Hgen|]. split.
  - intros quoteBack w2 Hfail H2 Hle.
    apply (Hgen 0 w quoteBack w2); [|exact H2 | exact Hle].
    unfold _getUniswapQuote. now rewrite Hfail.
  - intros q1 w1 H1 Hfail Hnn.
    apply (Hgen q1 w1 0 w1); [exact H1 | | exact Hnn].
    unfold _getUniswapQuote. now rewrite Hfail.
Qed.

End EngineFacts.

Section EngineScenarios.
Import Engine Scenario.

(** The winning round trip, run by the pool's callback while the guard is
    set, goes through. *)
Example winning_callback :
  exists w',
    executeOperation engine pool rate_router from_pool tokA 10 1 engine
      (Some round_trip) world_entered = Ok (true, w')
    /\ balance_in (chain w') tokA engine = 55
    /\ events (chain w') = [ArbitrageExecuted tokA 10 5 5].
Proof. eexists. repeat split; vm_compute; reflexivity. Qed.

(** A callback issued from inside a swap of a callback in progress runs to
    completion: the log shows the inner execution, then the outer one. *)
Example nested_callback_completes :
  exists w',
    executeOperation engine pool
      (reentering_router (storage world_entered)) from_pool tokA 10 1 engine
      (Some round_trip) world_entered = Ok (true, w')
    /\ events (chain w')
       = [ArbitrageExecuted tokA 10 5 5; ArbitrageExecuted tokA 10 10 5].
Proof. eexists. split; vm_compute; reflexivity. Qed.

(** A whole attempt through the pool: a loan of 10000 [tokA] comes back as
    15000, the pool collects 10005, the engine keeps 4995 and the guard is
    released. *)
Example winning_attempt :
  exists w',
    executeFlashLoanArbitrage engine pool rate_router premium_5bps from_owner
      tokA 10000 (Some round_trip) world_funded = Ok (tt, w')
    /\ balance_in (chain w') tokA engine = 50 + 5000 - 5
    /\ balance_in (chain w') tokA pool = 100000 + 5
    /\ _status (storage w') = _NOT_ENTERED
    /\ events (chain w') = [ArbitrageExecuted tokA 10000 5000 5].
Proof. eexists. repeat split; vm_compute; reflexivity. Qed.

(** The same attempt on the losing venue reverts, and the ledger keeps the
    world it had. *)
Example losing_attempt :
  executeFlashLoanArbitrage engine pool lossy_router premium_5bps from_owner
    tokA 10000 (Some round_trip) world_funded = Err InsufficientRepayment
  /\ transact
       (executeFlashLoanArbitrage engine pool lossy_router premium_5bps
          from_owner tokA 10000 (Some round_trip)) world_funded
     = world_funded.
Proof. split; vm_compute; reflexivity. Qed.

(** C1 as stated fails when the request names a [tokenIn] other than the
    borrowed asset: borrowing [tokX] while trading [tokA], the callback
    succeeds with profit 5, and the balance of the borrowed [tokX] is what it
    was, not 5 more. *)
Lemma profit_not_in_borrowed_asset :
  exists w' w1,
    executeOperation engine pool rate_router from_pool tokX 10 1 engine
      (Some round_trip) world_entered = Ok (true, w')
    /\ _executeArbitrage engine rate_router from_pool round_trip 10
         world_entered = Ok (5, w1)
    /\ balance_in (chain world_entered) tokX engine = 100
    /\ balance_in (chain w') tokX engine = 100
    /\ balance_in (chain w') tokX engine
       <> balance_in (chain world_entered) tokX engine + 5.
Proof.
  do 2 eexists.
  split; [vm_compute; reflexivity|].
  split; [vm_compute; reflexivity|].
  split; [vm_compute; reflexivity|].
  split; [vm_compute; reflexivity|].
  vm_compute. discriminate.
Qed.

Lemma executeOperation_profit_or_rollback_witness :
  (exists profit,
     0 < profit
     /\ (exists w1, _executeArbitrage engine rate_router from_pool round_trip
                      10 world_entered = Ok (profit, w1))
     /\ balance_in (chain (transact
          (executeOperation engine pool rate_router from_pool tokA 10 1
             engine (Some round_trip)) world_entered)) tokA engine
        = balance_in (chain world_entered) tokA engine + profit)
  /\ transact
       (executeOperation engine pool lossy_router from_pool tokA 10 1 engine
          (Some round_trip)) world_loan = world_loan
  /\ (exists profit,
        0 < profit
        /\ balance_in (chain (transact
             (executeFlashLoanArbitrage engine pool rate_router premium_5bps
                from_owner tokA 10000 (Some round_trip)) world_funded))
             tokA engine
           = balance_in (chain world_funded) tokA engine + profit
             - premium_5bps 10000)
  /\ transact
       (executeFlashLoanArbitrage engine pool lossy_router premium_5bps
          from_owner tokA 10000 (Some round_trip)) world_funded
     = world_funded.
Proof.
  destruct (executeOperation_profit_or_rollback engine pool rate_router)
    as (Hwin & _ & Hnet & _).
  destruct (executeOperation_profit_or_rollback engine pool lossy_router)
    as (_ & Hlose & _ & Hback).
  split; [|split; [|split]].
  - edestruct (Hwin from_pool tokA 10 1 engine round_trip world_entered)
      as (profit & Hpos & Harb & Hbal & _).
    { vm_compute. reflexivity. }
    exists profit. split; [exact Hpos|]. split; [exact Harb|].
    etransitivity; [|exact Hbal]. vm_compute. reflexivity.
  - edestruct (Hlose from_pool tokA 10 1 engine round_trip world_loan)
      as [_ Hsame].
    { vm_compute. reflexivity. }
    { vm_compute. discriminate. }
    exact Hsame.
  - edestruct (Hnet premium_5bps from_owner tokA 10000 round_trip
                 world_funded) as (profit & Hpos & Hbal).
    { vm_compute. reflexivity. }
    exists profit. split; [exact Hpos|].
    etransitivity; [|apply Hbal; [vm_compute; discriminate | reflexivity]].
    vm_compute. reflexivity.
  - apply (Hback premium_5bps from_owner tokA 10000 (Some round_trip)
             world_funded InsufficientRepayment).
    vm_compute. reflexivity.
Defined.



(** C3 as stated fails: a losing round trip started from the bare loan has
    profit 0 and is rejected with InsufficientRepayment, not with
    UnprofitableTrade. *)
Lemma unprofitable_fails_as_insufficient :
  (exists w1, _executeArbitrage engine lossy_router from_pool round_trip 10
                world_loan = Ok (0, w1))
  /\ executeOperation engine pool lossy_router from_pool tokA 10 1 engine
       (Some round_trip) world_loan = Err InsufficientRepayment
  /\ executeOperation engine pool lossy_router from_pool tokA 10 1 engine
       (Some round_trip) world_loan <> Err UnprofitableTrade.
Proof.
  split; [eexists; vm_compute; reflexivity|].
  split; [vm_compute; reflexivity | vm_compute; discriminate].
Qed.

Lemma executeOperation_checks_in_order_witness :
  executeOperation engine pool idle_router from_pool tokA uint256_max 1
    engine (Some round_trip) world_entered = Err ArithmeticPanic
  /\ executeOperation engine pool lossy_router from_pool tokA 10 1 engine
       (Some round_trip) world_loan = Err InsufficientRepayment
  /\ executeOperation engine pool idle_router from_pool tokA 10 1 engine
       (Some round_trip) world_entered = Err UnprofitableTrade
  /\ exists w',
       executeOperation engine pool rate_router from_pool tokA 10 1 engine
         (Some round_trip) world_entered = Ok (true, w').
Proof.
  split; [|split; [|split]].
  - edestruct (executeOperation_checks_in_order engine pool idle_router
                 from_pool tokA uint256_max 1 round_trip world_entered)
      as (_ & Hover & _).
    { reflexivity. } { vm_compute. reflexivity. }
    apply Hover. vm_compute. reflexivity.
  - edestruct (executeOperation_checks_in_order engine pool lossy_router
                 from_pool tokA 10 1 round_trip world_loan)
      as (_ & _ & Hlow & _).
    { reflexivity. } { vm_compute. reflexivity. }
    apply Hlow; vm_compute; [discriminate | reflexivity].
  - edestruct (executeOperation_checks_in_order engine pool idle_router
                 from_pool tokA 10 1 round_trip world_entered)
      as (_ & _ & _ & Hflat & _).
    { reflexivity. } { vm_compute. reflexivity. }
    apply Hflat; vm_compute; discriminate.
  - edestruct (executeOperation_checks_in_order engine pool rate_router
                 from_pool tokA 10 1 round_trip world_entered)
      as (_ & _ & _ & _ & Hwin).
    { reflexivity. } { vm_compute. reflexivity. }
    apply Hwin; vm_compute; [discriminate | discriminate | reflexivity].
Defined.

(** C4 as stated fails at the break-even point once the owner has set the
    threshold to 0: a round trip quoting exactly the test amount is reported
    as not profitable, while the stated formula evaluates to [true]. *)
Lemma break_even_quote_not_profitable :
  minProfitBasisPoints (storage world_no_threshold) = 0
  /\ _getUniswapQuote par_quoter tokB tokA 1000 500 world_no_threshold
     = Ok (1000, world_no_threshold)
  /\ calculateArbitrageOpportunity par_quoter tokA tokB 3000 500 1000
       world_no_threshold = Ok ((false, 0, 0), world_no_threshold)
  /\ ((1000 - 1000) * 10000 / 1000
      >=? minProfitBasisPoints (storage world_no_threshold)) = true.
Proof. repeat split; vm_compute; reflexivity. Qed.

Lemma calculateArbitrageOpportunity_flag_witness :
  calculateArbitrageOpportunity example_quoter tokA tokB 3000 500 1000
    world_idle = Ok ((true, 60, 1000), world_idle).
Proof.
  edestruct (calculateArbitrageOpportunity_flag example_quoter tokA tokB
               3000 500 1000 world_idle) as [Hflag _].
  { lia. } { vm_compute. reflexivity. } { vm_compute. reflexivity. }
  { vm_compute. discriminate. }
  etransitivity; [exact Hflag|]. vm_compute. reflexivity.
Defined.

(** C5 as stated fails: the result of a failed quote carries no tag.  The
    helper returns the same value and state for a quoter that reverts and
    for one that answers zero, so no test on the result separates them. *)
Lemma failed_quote_indistinguishable :
  failing_quoter (chain world_idle) tokA tokB 3000 1000 0 = QuoterReverts
  /\ zero_quoter (chain world_idle) tokA tokB 3000 1000 0
     = QuoterReturns 0 (chain world_idle)
  /\ _getUniswapQuote failing_quoter tokA tokB 1000 3000 world_idle
     = _getUniswapQuote zero_quoter tokA tokB 1000 3000 world_idle
  /\ ~ (exists unavailable : Result (Z * World) -> bool,
          unavailable
            (_getUniswapQuote failing_quoter tokA tokB 1000 3000 world_idle)
          = true
          /\ unavailable
               (_getUniswapQuote zero_quoter tokA tokB 1000 3000 world_idle)
             = false).
Proof.
  split; [reflexivity|]. split; [reflexivity|]. split; [reflexivity|].
  intros (unavailable & Hfail & Hzero).
  change (_getUniswapQuote zero_quoter tokA tokB 1000 3000 world_idle)
    with (_getUniswapQuote failing_quoter tokA tokB 1000 3000 world_idle)
    in Hzero.
  congruence.
Qed.

Lemma failed_quote_is_plain_zero_witness :
  (_getUniswapQuote failing_quoter tokA tokB 1000 3000 world_idle
   = Ok (0, world_idle)
   /\ _getUniswapQuote zero_quoter tokA tokB 1000 3000 world_idle
      = _getUniswapQuote failing_quoter tokA tokB 1000 3000 world_idle)
  /\ (_getUniswapQuote absent_quoter tokA tokB 1000 3000 world_idle
      = Err BadReturnData
      /\ calculateArbitrageOpportunity absent_quoter tokA tokB 3000 500 1000
           world_idle = Err BadReturnData)
  /\ calculateArbitrageOpportunity half_quoter tokA tokB 3000 500 1000
       world_idle = Err BadReturnData
  /\ absent_quoter (chain world_idle) tokA tokB 3000 1000 0
     = QuoterUnanswered.
Proof.
  split; [|split; [|split]].
  - destruct (failed_quote_is_plain_zero failing_quoter tokA tokB 1000 3000
                world_idle) as (Hcaught & _).
    destruct (Hcaught eq_refl) as [Hzero Hsame].
    split; [exact Hzero|]. apply Hsame. reflexivity.
  - destruct (failed_quote_is_plain_zero absent_quoter tokA tokB 1000 3000
                world_idle) as (_ & Hun & _).
    destruct (Hun eq_refl) as [Hhelper Hcalc].
    split; [exact Hhelper | exact (Hcalc 500)].
  - destruct (failed_quote_is_plain_zero half_quoter tokA tokB 1000 3000
                world_idle) as (_ & _ & Hsecond & _).
    apply (Hsecond 1050 world_idle 500); reflexivity.
  - destruct (failed_quote_is_plain_zero absent_quoter tokA tokB 1000 3000
                world_idle) as (_ & _ & _ & Honly).
    apply (Honly BadReturnData). reflexivity.
Defined.

Lemma calculateArbitrageOpportunity_no_profit_witness :
  calculateArbitrageOpportunity par_quoter tokA tokB 3000 500 1000 world_idle
  = Ok ((false, 0, 0), world_idle)
  /\ calculateArbitrageOpportunity failing_quoter tokA tokB 3000 500 1000
       world_idle = Ok ((false, 0, 0), world_idle).
Proof.
  split.
  - destruct (calculateArbitrageOpportunity_no_profit par_quoter tokA tokB
                3000 500 1000 world_idle) as (Hgen & _ & _).
    apply (Hgen 1000 world_idle 1000 world_idle);
      [reflexivity | reflexivity | lia].
  - destruct (calculateArbitrageOpportunity_no_profit failing_quoter tokA
                tokB 3000 500 1000 world_idle) as (_ & Hfirst & _).
    apply (Hfirst 0 world_idle); [reflexivity | reflexivity | lia].
Defined.

End EngineScenarios.

(** * Properties of the scanner and the controller *)

Section JsFacts.
Import Js.

Lemma gt_spec (x y : Q) : gt x y = true <-> (y < x)%Q.
Proof.
  unfold gt. rewrite negb_true_iff. split.
  - intros H. apply Qnot_le_lt. intros Hle.
    apply Qle_bool_iff in Hle. congruence.
  - intros H. destruct (Qle_bool x y) eqn:E; [|reflexivity].
    apply Qle_bool_iff in E. exfalso. exact (Qlt_not_le _ _ H E).
Qed.

Lemma lt_spec (x y : Q) : lt x y = true <-> (x < y)%Q.
Proof. unfold lt. apply gt_spec. Qed.

Lemma defined_gt_spec (x : option Q) (floor : Q) :
  defined_gt x floor = true <-> exists v, x = Some v /\ (floor < v)%Q.
Proof.
  destruct x as [v|]; cbn.
  - rewrite gt_spec. split; [eauto|]. now intros (v' & [= <-] & H).
  - split; [discriminate|]. now intros (v' & [=] & _).
Qed.

Lemma try_catch_Normal {A} (body : Completion A) (h : Error -> A) :
  exists a, try_catch body (fun e => Normal (h e)) = Normal a.
Proof. destruct body; cbn; eauto. Qed.

End JsFacts.

Section ScannerFacts.
Import Js Scanner.

Variable arith : Arith.

(** The retention condition, once the price tests are passed. *)
Lemma retained_spec pd pair1 pair2 p1 p2 :
  prices_in_band arith p1 p2 = true ->
  retained arith pd pair1 pair2 p1 p2 = true
  <-> ((retention_lower_bound < pd)%Q /\ (pd < retention_upper_bound)%Q
       /\ (exists l1, liquidity_usd pair1 = Some l1 /\ (minLiquidity < l1)%Q)
       /\ (exists l2, liquidity_usd pair2 = Some l2 /\ (minLiquidity < l2)%Q)).
Proof.
  intros Hband. unfold retained. rewrite Hband, andb_true_r.
  rewrite !andb_true_iff, gt_spec, lt_spec, !defined_gt_spec. tauto.
Qed.

Lemma retained_window pd pair1 pair2 p1 p2 :
  retained arith pd pair1 pair2 p1 p2 = true ->
  (retention_lower_bound < pd)%Q /\ (pd < retention_upper_bound)%Q.
Proof.
  unfold retained. rewrite !andb_true_iff, gt_spec, lt_spec. tauto.
Qed.

(** What [examine] does with two pairs that share their quote token and
    whose prices parse and pass the first test: it pushes the entry if the
    retention condition holds, which takes [pair1.baseToken] to be there. *)
Lemma examine_candidate now pair1 pair2 quote p1 p2 :
  quoteToken pair1 = Some quote -> quoteToken pair2 = Some quote ->
  parseFloat arith (priceUsd pair1) = Some p1 ->
  parseFloat arith (priceUsd pair2) = Some p2 ->
  implausible (Some p1) (Some p2) = false ->
  examine arith now pair1 pair2
  = if retained arith (priceDiffPercent_of arith p1 p2) pair1 pair2 p1 p2
    then match baseToken pair1 with
         | Some base =>
             Normal (Some (opportunity_of now pair1 pair2 base quote
                             (priceDiffPercent_of arith p1 p2)))
         | None => Throw TypeError
         end
    else Normal None.
Proof.
  intros Hq1 Hq2 Hp1 Hp2 Himp. unfold examine.
  rewrite Hq1, Hq2. cbn [property and_then]. rewrite String.eqb_refl.
  cbv zeta. rewrite Hp1, Hp2, Himp.
  destruct (retained _ _ _ _ _ _); [|reflexivity].
  destruct (baseToken pair1); reflexivity.
Qed.

(** Every entry [examine] builds rests on its pairs: both liquidities are
    above the floor, the two price fields parse to numbers inside the
    narrower band, the difference is the one computed from those numbers, and
    it lies inside the retention window. *)
Lemma examine_sound now pair1 pair2 o :
  examine arith now pair1 pair2 = Normal (Some o) ->
  (minLiquidity < liquidity1 o)%Q /\ (minLiquidity < liquidity2 o)%Q
  /\ (exists p1 p2,
        parseFloat arith (price1 o) = Some p1
        /\ parseFloat arith (price2 o) = Some p2
        /\ (lit_0_0001 < p1)%Q /\ (p1 < 100000)%Q
        /\ (lit_0_0001 < p2)%Q /\ (p2 < 100000)%Q
        /\ priceDiff o = priceDiffPercent_of arith p1 p2)
  /\ (retention_lower_bound < priceDiff o)%Q
  /\ (priceDiff o < retention_upper_bound)%Q.
Proof.
  unfold examine.
  destruct (quoteToken pair1) as [q1|]; [|discriminate].
  destruct (quoteToken pair2) as [q2|]; [|discriminate].
  cbn [property and_then].
  destruct (String.eqb q1 q2); [|discriminate]. cbv zeta.
  destruct (implausible _ _); [discriminate|].
  destruct (parseFloat arith (priceUsd pair1)) as [p1|] eqn:E1;
    [|discriminate].
  destruct (parseFloat arith (priceUsd pair2)) as [p2|] eqn:E2;
    [|discriminate].
  destruct (retained _ _ _ _ _ _) eqn:Hret; [|discriminate].
  destruct (baseToken pair1) as [b|]; [|discriminate].
  cbn [property and_then]. intros [= <-]. cbn.
  unfold retained, prices_in_band in Hret.
  rewrite !andb_true_iff, !gt_spec, !lt_spec, !defined_gt_spec in Hret.
  destruct Hret as ((((Hlo & Hup) & (l1 & L1 & Hl1)) & (l2 & L2 & Hl2))
                    & ((((Hp1 & Hp2) & Hq1) & Hq2) & _)).
  rewrite L1, L2. cbn.
  split; [exact Hl1|]. split; [exact Hl2|].
  split; [|split; assumption].
  exists p1, p2. repeat split; assumption.
Qed.

Lemma examine_in_window now pair1 pair2 o :
  examine arith now pair1 pair2 = Normal (Some o) -> in_window o.
Proof.
  intros H. apply examine_sound in H as (_ & _ & _ & Hlo & Hup).
  split; assumption.
Qed.

(** *** What a scan collects *)

Lemma precedes_cons {A} (x y a : A) l :
  precedes x y (a :: l) -> (x = a /\ In y l) \/ precedes x y l.
Proof.
  intros (l1 & l2 & l3 & Heq). destruct l1 as [|a' l1]; cbn in Heq.
  - revert Heq; intros [= -> ->]. left. split; [reflexivity|].
    apply in_or_app. right. now left.
  - revert Heq; intros [= -> ->]. right. now exists l1, l2, l3.
Qed.

(** A scan that completes has examined every pair of positions [i < j]
    without an exception, and holds every entry these examinations built. *)
Lemma scan_against_examined now pair1 later :
  forall acc res,
    scan_against arith now pair1 later acc = Normal res ->
    (forall o, In o acc -> In o res)
    /\ (forall pair2, In pair2 later ->
          exists r, examine arith now pair1 pair2 = Normal r
                    /\ forall o, r = Some o -> In o res).
Proof.
  induction later as [|p later IH]; intros acc res; cbn.
  - intros [= <-]. split; [auto|]. intros pair2 [].
  - destruct (examine arith now pair1 p) as [r|e] eqn:Hex; cbn;
      [|discriminate].
    intros Hs. destruct (IH _ _ Hs) as [Hacc Hlater]. split.
    + intros o Ho. apply Hacc. destruct r; [|exact Ho].
      apply in_or_app. now left.
    + intros pair2 [<-|Hin]; [|exact (Hlater pair2 Hin)].
      exists r. split; [exact Hex|]. intros o ->. apply Hacc.
      apply in_or_app. right. now left.
Qed.

Lemma scan_pairs_examined now pairs :
  forall acc res,
    scan_pairs arith now pairs acc = Normal res ->
    (forall o, In o acc -> In o res)
    /\ (forall pair1 pair2, precedes pair1 pair2 pairs ->
          exists r, examine arith now pair1 pair2 = Normal r
                    /\ forall o, r = Some o -> In o res).
Proof.
  induction pairs as [|p later IH]; intros acc res; cbn.
  - intros [= <-]. split; [auto|].
    intros pair1 pair2 (l1 & l2 & l3 & Heq). now destruct l1.
  - destruct (scan_against arith now p later acc) as [acc'|e] eqn:Hsa; cbn;
      [|discriminate].
    intros Hs. destruct (IH _ _ Hs) as [Hacc Hlater].
    destruct (scan_against_examined _ _ _ _ _ Hsa) as [Hacc' Hfirst]. split.
    + intros o Ho. apply Hacc, Hacc', Ho.
    + intros pair1 pair2 Hp. apply precedes_cons in Hp as [[-> Hin]|Hp];
        [|exact (Hlater pair1 pair2 Hp)].
      destruct (Hfirst pair2 Hin) as (r & Hex & Hr).
      exists r. split; [exact Hex|]. intros o Ho. apply Hacc, (Hr o Ho).
Qed.

Lemma scan_tokens_examined feed now tokens :
  forall acc res,
    scan_tokens arith feed now tokens acc = Normal res ->
    (forall o, In o acc -> In o res)
    /\ (forall token pairs pair1 pair2,
          In token tokens ->
          getBaseTokenPairs feed token = Normal pairs ->
          precedes pair1 pair2 pairs ->
          exists r, examine arith now pair1 pair2 = Normal r
                    /\ forall o, r = Some o -> In o res).
Proof.
  induction tokens as [|t tokens IH]; intros acc res; cbn.
  - intros [= <-]. split; [auto|]. intros token pairs pair1 pair2 [].
  - destruct (getBaseTokenPairs feed t) as [ps|e] eqn:Hg; cbn;
      [|discriminate].
    destruct (scan_pairs arith now ps acc) as [acc'|e] eqn:Hsp; cbn;
      [|discriminate].
    intros Hs. destruct (IH _ _ Hs) as [Hacc Hlater].
    destruct (scan_pairs_examined _ _ _ _ Hsp) as [Hacc' Hfirst]. split.
    + intros o Ho. apply Hacc, Hacc', Ho.
    + intros token pairs pair1 pair2 [<-|Hin] Hpairs Hp;
        [|exact (Hlater token pairs pair1 pair2 Hin Hpairs Hp)].
      rewrite Hg in Hpairs. revert Hpairs; intros [= <-].
      destruct (Hfirst pair1 pair2 Hp) as (r & Hex & Hr).
      exists r. split; [exact Hex|]. intros o Ho. apply Hacc, (Hr o Ho).
Qed.

Lemma scan_against_in_window now pair1 later :
  forall acc res,
    Forall in_window acc ->
    scan_against arith now pair1 later acc = Normal res ->
    Forall in_window res.
Proof.
  induction later as [|pair2 later IH]; intros acc res Hacc; cbn.
  - now intros [= <-].
  - destruct (examine arith now pair1 pair2) as [[o|]|e] eqn:Hex;
      cbn; [| |discriminate].
    + apply IH. apply Forall_app. split; [exact Hacc|].
      constructor; [|constructor]. exact (examine_in_window _ _ _ _ Hex).
    + apply IH. exact Hacc.
Qed.

Lemma scan_pairs_in_window now pairs :
  forall acc res,
    Forall in_window acc ->
    scan_pairs arith now pairs acc = Normal res ->
    Forall in_window res.
Proof.
  induction pairs as [|pair1 later IH]; intros acc res Hacc; cbn.
  - now intros [= <-].
  - destruct (scan_against arith now pair1 later acc) as [acc'|e] eqn:Hsa;
      cbn; [|discriminate].
    apply IH. exact (scan_against_in_window _ _ _ _ _ Hacc Hsa).
Qed.

Lemma scan_tokens_in_window feed now tokens :
  forall acc res,
    Forall in_window acc ->
    scan_tokens arith feed now tokens acc = Normal res ->
    Forall in_window res.
Proof.
  induction tokens as [|token tokens IH]; intros acc res Hacc; cbn.
  - now intros [= <-].
  - destruct (getBaseTokenPairs feed token) as [pairs|e]; cbn; [|discriminate].
    destruct (scan_pairs arith now pairs acc) as [acc'|e] eqn:Hsp;
      cbn; [|discriminate].
    apply IH. exact (scan_pairs_in_window _ _ _ _ Hacc Hsp).
Qed.

Lemma insert_desc_Forall (P : Opportunity -> Prop) o sorted :
  P o -> Forall P sorted -> Forall P (insert_desc o sorted).
Proof.
  intros Ho. induction 1 as [|o' rest Ho' Hrest IH]; cbn.
  - constructor; [exact Ho | constructor].
  - destruct (le (priceDiff o') (priceDiff o)).
    + constructor; [exact Ho|]. constructor; assumption.
    + constructor; assumption.
Qed.

Lemma sort_desc_Forall (P : Opportunity -> Prop) l :
  Forall P l -> Forall P (sort_desc l).
Proof.
  induction 1 as [|o l Ho Hl IH]; cbn.
  - constructor.
  - apply insert_desc_Forall; assumption.
Qed.

Lemma le_spec (x y : Q) : le x y = true <-> (x <= y)%Q.
Proof. apply Qle_bool_iff. Qed.

Lemma insert_desc_Permutation o sorted : insert_desc o sorted ≡ₚ o :: sorted.
Proof.
  induction sorted as [|o' rest IH]; cbn; [reflexivity|].
  destruct (le (priceDiff o') (priceDiff o)); [reflexivity|].
  rewrite IH. apply Permutation_swap.
Qed.

Lemma sort_desc_Permutation l : sort_desc l ≡ₚ l.
Proof.
  induction l as [|o l IH]; cbn; [reflexivity|].
  now rewrite insert_desc_Permutation, IH.
Qed.

Lemma insert_desc_HdRel o' o rest :
  (priceDiff o <= priceDiff o')%Q ->
  HdRel ranks_before o' rest ->
  HdRel ranks_before o' (insert_desc o rest).
Proof.
  intros Hle Hhd. destruct rest as [|x rest]; cbn.
  - constructor. exact Hle.
  - destruct (le (priceDiff x) (priceDiff o)); constructor;
      [exact Hle | now inversion Hhd].
Qed.

Lemma insert_desc_Sorted o sorted :
  Sorted ranks_before sorted -> Sorted ranks_before (insert_desc o sorted).
Proof.
  induction 1 as [|o' rest Hs IH Hhd]; cbn.
  - repeat constructor.
  - destruct (le (priceDiff o') (priceDiff o)) eqn:Hle.
    + apply le_spec in Hle. repeat constructor; assumption.
    + constructor; [exact IH|].
      apply insert_desc_HdRel; [|exact Hhd].
      apply Qlt_le_weak, Qnot_le_lt. intros H.
      apply le_spec in H. congruence.
Qed.

(** The sort returns its input, rearranged, highest difference first. *)
Lemma sort_desc_Sorted l : Sorted ranks_before (sort_desc l).
Proof.
  induction l as [|o l IH]; cbn; [constructor|].
  now apply insert_desc_Sorted.
Qed.

Lemma take_Sorted n :
  forall l, Sorted ranks_before l -> Sorted ranks_before (take n l).
Proof.
  induction n as [|n IH]; intros [|o l] Hs; cbn; try constructor.
  - apply IH. now inversion Hs.
  - inversion Hs as [|? ? _ Hhd]; subst.
    destruct l as [|x l]; destruct n; cbn; constructor.
    now inversion Hhd.
Qed.

(** [findArbitrageOpportunities] always returns, with at most ten
    opportunities, each inside the retention window, highest difference
    first. *)
Lemma findArbitrageOpportunities_in_window feed now :
  exists found,
    findArbitrageOpportunities arith feed now = Normal found
    /\ Forall in_window found /\ (length found <= 10)%nat
    /\ Sorted ranks_before found.
Proof.
  unfold findArbitrageOpportunities.
  destruct (scan_tokens arith feed now tokensToMonitor []) as [all|e] eqn:Hs;
    cbn.
  - eexists. split; [reflexivity|]. split; [|split].
    + apply Forall_take, sort_desc_Forall.
      exact (scan_tokens_in_window _ _ _ _ _ (List.Forall_nil _) Hs).
    + rewrite length_take. lia.
    + apply take_Sorted, sort_desc_Sorted.
  - exists []. split; [reflexivity|]. split; [constructor|].
    split; [cbn; lia | constructor].
Qed.

(** Whatever holds of every opportunity [examine] builds holds of every
    opportunity a scan collects. *)
Section Collected.

Variable P : Opportunity -> Prop.
Hypothesis examine_P :
  forall now pair1 pair2 o,
    examine arith now pair1 pair2 = Normal (Some o) -> P o.

Lemma scan_against_Forall now pair1 later :
  forall acc res,
    Forall P acc ->
    scan_against arith now pair1 later acc = Normal res -> Forall P res.
Proof.
  induction later as [|pair2 later IH]; intros acc res Hacc; cbn.
  - now intros [= <-].
  - destruct (examine arith now pair1 pair2) as [[o|]|e] eqn:Hex;
      cbn; [| |discriminate].
    + apply IH. apply Forall_app. split; [exact Hacc|].
      constructor; [|constructor]. exact (examine_P _ _ _ _ Hex).
    + apply IH. exact Hacc.
Qed.

Lemma scan_pairs_Forall now pairs :
  forall acc res,
    Forall P acc ->
    scan_pairs arith now pairs acc = Normal res -> Forall P res.
Proof.
  induction pairs as [|pair1 later IH]; intros acc res Hacc; cbn.
  - now intros [= <-].
  - destruct (scan_against arith now pair1 later acc) as [acc'|e] eqn:Hsa;
      cbn; [|discriminate].
    apply IH. exact (scan_against_Forall _ _ _ _ _ Hacc Hsa).
Qed.

Lemma scan_tokens_Forall feed now tokens :
  forall acc res,
    Forall P acc ->
    scan_tokens arith feed now tokens acc = Normal res -> Forall P res.
Proof.
  induction tokens as [|token tokens IH]; intros acc res Hacc; cbn.
  - now intros [= <-].
  - destruct (getBaseTokenPairs feed token) as [pairs|e]; cbn; [|discriminate].
    destruct (scan_pairs arith now pairs acc) as [acc'|e] eqn:Hsp;
      cbn; [|discriminate].
    apply IH. exact (scan_pairs_Forall _ _ _ _ Hacc Hsp).
Qed.

Lemma findArbitrageOpportunities_Forall feed now found :
  findArbitrageOpportunities arith feed now = Normal found ->
  Forall P found.
Proof.
  unfold findArbitrageOpportunities.
  destruct (scan_tokens arith feed now tokensToMonitor []) as [all|e] eqn:Hs;
    cbn; intros [= <-]; [|constructor].
  apply Forall_take, sort_desc_Forall.
  exact (scan_tokens_Forall _ _ _ _ _ (List.Forall_nil _) Hs).
Qed.

End Collected.

Lemma ranks_before_trans a b c :
  ranks_before a b -> ranks_before b c -> ranks_before a c.
Proof. unfold ranks_before. intros H1 H2. exact (Qle_trans _ _ _ H2 H1). Qed.

Lemma Sorted_ranks_app l1 :
  forall l2, Sorted ranks_before (l1 ++ l2) ->
  forall kept late, In kept l1 -> In late l2 -> ranks_before kept late.
Proof.
  intros l2 Hs.
  assert (Hss : StronglySorted ranks_before (l1 ++ l2)).
  { apply Sorted_StronglySorted; [|exact Hs].
    intros a b c. apply ranks_before_trans. }
  clear Hs. induction l1 as [|x l1 IH]; intros kept late Hk Hl;
    [destruct Hk|].
  cbn in Hss. apply StronglySorted_inv in Hss as [Hss Hall].
  destruct Hk as [<-|Hk]; [|exact (IH Hss kept late Hk Hl)].
  rewrite List.Forall_forall in Hall. apply Hall.
  apply in_or_app. now right.
Qed.


(** C6, as the code has it.  Take a candidate: two pairs of a monitored
    token, the first standing before the second in the feed's answer, with
    the same quote token and prices that pass the price tests; and a scan
    that completes, that is, meets no pair whose [quoteToken] or [baseToken]
    object is missing where it reads one (a scan that throws returns the
    empty list and retains nothing).  The scan collects the candidate's
    entry exactly when the price difference lies strictly between the lower
    and the upper bound and the liquidity of each side is strictly above the
    floor.  What [findArbitrageOpportunities] returns are the ten collected
    entries of highest difference: the entry of a candidate outside the
    window or at the floor is never returned, and the entry of one inside is
    returned unless ten entries with at least its difference are.  A
    difference at the lower bound, at or above the upper bound, or a
    liquidity at the floor excludes the candidate; a difference strictly
    inside with both liquidities one unit above the floor includes it. *)
Theorem scanner_retention_boundaries feed now :
  (forall e,
     scan_tokens arith feed now tokensToMonitor [] = Throw e ->
     findArbitrageOpportunities arith feed now = Normal [])
  /\ (forall token pairs pair1 pair2 quote p1 p2 collected,
       In token tokensToMonitor ->
       getBaseTokenPairs feed token = Normal pairs ->
       precedes pair1 pair2 pairs ->
       quoteToken pair1 = Some quote -> quoteToken pair2 = Some quote ->
       parseFloat arith (priceUsd pair1) = Some p1 ->
       parseFloat arith (priceUsd pair2) = Some p2 ->
       implausible (Some p1) (Some p2) = false ->
       prices_in_band arith p1 p2 = true ->
       scan_tokens arith feed now tokensToMonitor [] = Normal collected ->
       let pd := priceDiffPercent_of arith p1 p2 in
       let entry base := opportunity_of now pair1 pair2 base quote pd in
       let found := take 10 (sort_desc collected) in
       let inside :=
         (retention_lower_bound < pd)%Q /\ (pd < retention_upper_bound)%Q
         /\ (exists l1, liquidity_usd pair1 = Some l1
                        /\ (minLiquidity < l1)%Q)
         /\ (exists l2, liquidity_usd pair2 = Some l2
                        /\ (minLiquidity < l2)%Q) in
       findArbitrageOpportunities arith feed now = Normal found
       /\ ((exists base,
              baseToken pair1 = Some base /\ In (entry base) collected)
           <-> inside)
       /\ (forall base, In (entry base) found -> inside)
       /\ (inside ->
           exists base,
             baseToken pair1 = Some base
             /\ (In (entry base) found
                 \/ (length found = 10%nat
                     /\ Forall (fun o => (pd <= priceDiff o)%Q) found)))
       /\ ((pd == retention_lower_bound)%Q ->
           forall base, ~ In (entry base) collected)
       /\ ((retention_upper_bound <= pd)%Q ->
           forall base, ~ In (entry base) collected)
       /\ (liquidity_usd pair1 = Some minLiquidity
           \/ liquidity_usd pair2 = Some minLiquidity ->
           forall base, ~ In (entry base) collected)
       /\ ((retention_lower_bound < pd)%Q -> (pd < retention_upper_bound)%Q ->
           liquidity_usd pair1 = Some (minLiquidity + 1)%Q ->
           liquidity_usd pair2 = Some (minLiquidity + 1)%Q ->
           exists base,
             baseToken pair1 = Some base /\ In (entry base) collected)).
Proof.
  split.
  { intros e Hthrow. unfold findArbitrageOpportunities. now rewrite Hthrow. }
  intros token pairs pair1 pair2 quote p1 p2 collected
    Htok Hpairs Hprec Hq1 Hq2 Hp1 Hp2 Himp Hband Hscan pd entry found inside.
  pose proof (examine_candidate now pair1 pair2 quote p1 p2
                Hq1 Hq2 Hp1 Hp2 Himp) as Hex.
  fold pd in Hex.
  pose proof (retained_spec pd pair1 pair2 p1 p2 Hband) as Hret.
  fold inside in Hret.
  (* every collected entry satisfies the retention condition *)
  assert (Hsound : forall base, In (entry base) collected -> inside).
  { intros base Hin.
    pose proof (scan_tokens_Forall
      (fun o => (minLiquidity < liquidity1 o)%Q
                /\ (minLiquidity < liquidity2 o)%Q /\ in_window o)) as Hall.
    specialize (Hall (fun now' a b o Ho =>
      let H := examine_sound now' a b o Ho in
      conj (proj1 H) (conj (proj1 (proj2 H))
                        (proj2 (proj2 (proj2 H)))))
      feed now tokensToMonitor [] collected (List.Forall_nil _) Hscan).
    rewrite List.Forall_forall in Hall.
    destruct (Hall _ Hin) as (Hl1 & Hl2 & Hlo & Hup). cbn in Hl1, Hl2, Hlo, Hup.
    split; [exact Hlo|]. split; [exact Hup|]. split.
    - destruct (liquidity_usd pair1) as [l1|]; [eauto|].
      cbn in Hl1. exfalso. revert Hl1. vm_compute. congruence.
    - destruct (liquidity_usd pair2) as [l2|]; [eauto|].
      cbn in Hl2. exfalso. revert Hl2. vm_compute. congruence. }
  (* a candidate inside the window has been pushed *)
  assert (Hpushed : inside ->
            exists base, baseToken pair1 = Some base
                         /\ In (entry base) collected).
  { intros Hin. apply Hret in Hin.
    destruct (scan_tokens_examined _ _ _ _ _ Hscan) as [_ Hexamined].
    destruct (Hexamined token pairs pair1 pair2 Htok Hpairs Hprec)
      as (r & Hr & Hres).
    rewrite Hex, Hin in Hr.
    destruct (baseToken pair1) as [base|]; [|discriminate].
    revert Hr; intros [= <-]. exists base. split; [reflexivity|].
    now apply Hres. }
  assert (Hfound : forall o, In o found -> In o collected).
  { intros o Ho. apply (Permutation_in _ (sort_desc_Permutation collected)).
    rewrite <- (take_drop 10 (sort_desc collected)).
    apply in_or_app. now left. }
  split; [unfold findArbitrageOpportunities; now rewrite Hscan|].
  split; [split; [intros (base & _ & Hin); exact (Hsound base Hin)
                 | exact Hpushed]|].
  split; [intros base Hin; exact (Hsound base (Hfound _ Hin))|].
  split.
  { intros Hin. destruct (Hpushed Hin) as (base & Hb & Hc).
    exists base. split; [exact Hb|].
    apply (Permutation_in _ (Permutation_sym (sort_desc_Permutation _)))
      in Hc.
    rewrite <- (take_drop 10 (sort_desc collected)) in Hc.
    apply in_app_or in Hc as [Hc|Hc]; [now left|]. right.
    assert (Hsorted : Sorted ranks_before
                        (take 10 (sort_desc collected)
                         ++ drop 10 (sort_desc collected))).
    { rewrite take_drop. apply sort_desc_Sorted. }
    split.
    - unfold found. rewrite length_take.
      destruct (Nat.le_gt_cases (length (sort_desc collected)) 10)
        as [Hle|Hgt]; [|lia].
      rewrite (drop_ge _ _ Hle) in Hc. destruct Hc.
    - apply List.Forall_forall. intros kept Hk.
      exact (Sorted_ranks_app _ _ Hsorted kept _ Hk Hc). }
  split.
  { intros Heq base Hin. destruct (Hsound base Hin) as (Hlo & _).
    rewrite Heq in Hlo. exact (Qlt_irrefl _ Hlo). }
  split.
  { intros Hge base Hin. destruct (Hsound base Hin) as (_ & Hup & _).
    exact (Qlt_not_le _ _ Hup Hge). }
  split.
  { intros Hliq base Hin.
    destruct (Hsound base Hin)
      as (_ & _ & (l1 & Hl1 & Hgt1) & (l2 & Hl2 & Hgt2)).
    destruct Hliq as [Hliq|Hliq].
    - rewrite Hliq in Hl1. revert Hl1; intros [= <-].
      exact (Qlt_irrefl _ Hgt1).
    - rewrite Hliq in Hl2. revert Hl2; intros [= <-].
      exact (Qlt_irrefl _ Hgt2). }
  intros Hlo Hup Hl1 Hl2. apply Hpushed.
  repeat split; try assumption; eexists; (split; [eassumption|]);
    reflexivity.
Qed.

End ScannerFacts.

Section ControllerFacts.
Import Js Scanner Controller.

(** The announcement goes through exactly when both liquidities are
    numbers. *)
Lemma announce_cases o :
  announce o
  = if liquidity1_is_number o && liquidity2_is_number o
    then Normal tt else Throw TypeError.
Proof.
  unfold announce.
  destruct (liquidity1_is_number o), (liquidity2_is_number o); reflexivity.
Qed.

Lemma loop_try_head best rest execute :
  loop_try (Normal (best :: rest)) execute
  = if gt (priceDiff best) execution_threshold then
      if liquidity1_is_number best && liquidity2_is_number best then
        result <~ execute best ;; Normal (Some best, Some result)
      else Throw TypeError
    else Normal (None, None).
Proof.
  unfold loop_try. cbn [and_then].
  destruct (gt (priceDiff best) execution_threshold); [|reflexivity].
  rewrite announce_cases.
  destruct (liquidity1_is_number best && liquidity2_is_number best);
    reflexivity.
Qed.

(** The monitoring loop submits the head of the scan, and only when its
    price difference exceeds the execution threshold and the announcement
    went through. *)
Lemma loop_body_submitted scan execute best :
  submitted (loop_body scan execute) = Some best ->
  exists rest,
    scan = Normal (best :: rest)
    /\ (execution_threshold < priceDiff best)%Q
    /\ liquidity1_is_number best && liquidity2_is_number best = true.
Proof.
  unfold loop_body. destruct scan as [[|o rest]|e]; try discriminate.
  rewrite loop_try_head.
  destruct (gt (priceDiff o) execution_threshold) eqn:Hgt;
    cbn; [|discriminate].
  destruct (liquidity1_is_number o && liquidity2_is_number o) eqn:Hnum;
    cbn; [|discriminate].
  destruct (execute o) as [r|e]; cbn; [|discriminate].
  intros [= <-]. exists rest. split; [reflexivity|].
  split; [now apply gt_spec | exact Hnum].
Qed.

Lemma loop_body_executes best rest execute r :
  (execution_threshold < priceDiff best)%Q ->
  liquidity1_is_number best && liquidity2_is_number best = true ->
  execute best = Normal r ->
  loop_body (Normal (best :: rest)) execute
  = {| submitted := Some best; outcome := Some r; pause := SCAN_INTERVAL |}.
Proof.
  intros Hgt Hnum Hr. unfold loop_body. rewrite loop_try_head.
  apply gt_spec in Hgt. rewrite Hgt, Hnum, Hr. reflexivity.
Qed.

Lemma loop_body_skips best rest execute :
  ~ (execution_threshold < priceDiff best)%Q ->
  loop_body (Normal (best :: rest)) execute
  = {| submitted := None; outcome := None; pause := SCAN_INTERVAL |}.
Proof.
  intros Hno. unfold loop_body. rewrite loop_try_head.
  destruct (gt (priceDiff best) execution_threshold) eqn:Hgt; [|reflexivity].
  apply gt_spec in Hgt. contradiction.
Qed.

(** [executeArbitrage] catches whatever its steps throw. *)
Lemma executeArbitrage_returns net opportunity :
  exists r, executeArbitrage net opportunity = Normal r.
Proof. unfold executeArbitrage. apply try_catch_Normal. Qed.

(** Every entry of a scan result exceeds the execution threshold. *)
Lemma scanned_exceed_threshold arith feed now found :
  findArbitrageOpportunities arith feed now = Normal found ->
  Forall (fun o => (execution_threshold < priceDiff o)%Q) found.
Proof.
  intros Hscan.
  destruct (findArbitrageOpportunities_in_window arith feed now)
    as (found' & Hfound & Hwin & _).
  rewrite Hscan in Hfound. revert Hfound; intros [= <-].
  eapply Forall_impl; [exact Hwin|]. now intros o [Hlo _].
Qed.

(** C7, as the code has it.  The loop moves on to execution only when the
    top-ranked opportunity's price difference exceeds the execution
    threshold, and a top result that does not exceed it is not executed.
    But that threshold is the scanner's lower retention bound itself, not a
    stricter one: every entry of a scan result already exceeds it. *)
Theorem execution_threshold_is_retention_bound :
  (forall scan execute best,
     submitted (loop_body scan execute) = Some best ->
     exists rest,
       scan = Normal (best :: rest)
       /\ (execution_threshold < priceDiff best)%Q)
  /\ (forall best rest execute,
        ~ (execution_threshold < priceDiff best)%Q ->
        loop_body (Normal (best :: rest)) execute
        = {| submitted := None; outcome := None; pause := SCAN_INTERVAL |})
  /\ (execution_threshold == retention_lower_bound)%Q
  /\ (forall arith feed now found,
        findArbitrageOpportunities arith feed now = Normal found ->
        Forall (fun o => (execution_threshold < priceDiff o)%Q) found).
Proof.
  split; [|split; [exact loop_body_skips|
           split; [reflexivity | exact scanned_exceed_threshold]]].
  intros scan execute best H.
  destruct (loop_body_submitted _ _ _ H) as (rest & Hs & Hgt & _). eauto.
Qed.

End ControllerFacts.

Section ControllerFacts2.
Import Js Scanner Controller.

Lemma executeArbitrage_submission_throws net opportunity balance gasPrice e :
  contract_ready net = true ->
  wallet_getBalance net = Normal balance ->
  ether_0_0005 <= balance ->
  getOptimalGasPrice net = Normal gasPrice ->
  (contract_executeFlashLoanArbitrage net (submission opportunity gasPrice)
     = Throw e
   \/ exists tx,
        contract_executeFlashLoanArbitrage net (submission opportunity gasPrice)
          = Normal tx
        /\ tx_wait net tx = Throw e) ->
  executeArbitrage net opportunity = Normal (Failure e opportunity).
Proof.
  intros Hready Hbal Hmin Hgas Hthrow. unfold executeArbitrage.
  rewrite Hready, Hbal. cbn [negb and_then].
  destruct (Z.ltb_spec balance ether_0_0005); [lia|].
  rewrite Hgas. cbn [and_then].
  destruct Hthrow as [Hsend|(tx & Hsend & Hwait)]; rewrite Hsend; cbn.
  - reflexivity.
  - rewrite Hwait. reflexivity.
Qed.

(** When the [try] block of the loop throws: the scan call throws, or the
    announcement of the top opportunity does; execution itself never does.
    Nothing has been submitted then. *)
Lemma loop_try_throws scan execute :
  (forall o, exists r, execute o = Normal r) ->
  (exists e, loop_try scan execute = Throw e)
  <-> ((exists e, scan = Throw e)
       \/ exists best rest,
            scan = Normal (best :: rest)
            /\ (execution_threshold < priceDiff best)%Q
            /\ liquidity1_is_number best && liquidity2_is_number best
               = false).
Proof.
  intros Hex. destruct scan as [[|o rest]|e].
  - cbn. split; [intros [e [=]]|].
    intros [[e [=]]|(best & rest & [=] & _)].
  - rewrite loop_try_head.
    destruct (gt (priceDiff o) execution_threshold) eqn:Hgt.
    + destruct (liquidity1_is_number o && liquidity2_is_number o) eqn:Hnum.
      * destruct (Hex o) as [r ->]. cbn. split; [intros [e [=]]|].
        intros [[e [=]]|(best & rest' & [= <- <-] & _ & Hno)]. congruence.
      * split; [|eauto]. intros _. right. exists o, rest.
        split; [reflexivity|]. split; [now apply gt_spec | exact Hnum].
    + split; [intros [e [=]]|].
      intros [[e [=]]|(best & rest' & [= <- <-] & Hlo & _)].
      apply gt_spec in Hlo. congruence.
  - cbn. split; eauto.
Qed.

Lemma loop_body_pause scan execute :
  pause (loop_body scan execute) = ERROR_INTERVAL
  <-> exists e, loop_try scan execute = Throw e.
Proof.
  unfold loop_body. destruct (loop_try scan execute) as [[sent result]|e]; cbn.
  - split; [discriminate | intros [e [=]]].
  - split; eauto.
Qed.

Lemma loop_body_outcome scan execute r :
  outcome (loop_body scan execute) = Some r ->
  pause (loop_body scan execute) = SCAN_INTERVAL
  /\ exists best, submitted (loop_body scan execute) = Some best
                  /\ execute best = Normal r.
Proof.
  unfold loop_body. destruct scan as [[|o rest]|e]; try discriminate.
  rewrite loop_try_head.
  destruct (gt (priceDiff o) execution_threshold); cbn; [|discriminate].
  destruct (liquidity1_is_number o && liquidity2_is_number o);
    cbn; [|discriminate].
  destruct (execute o) as [r'|e] eqn:Hr; cbn; [|discriminate].
  intros [= <-]. split; [reflexivity|]. exists o. split; [reflexivity|].
  exact Hr.
Qed.

(** C8, as the code has it.  [executeArbitrage] catches every failure of a
    submission, whether the engine rejects the attempt, the transport fails
    or the wait times out, and returns a failure result; a turn of the loop
    whose submission failed pauses for the ordinary scan interval.  The
    longer pause is taken exactly when an exception escapes the [try] block of
    the loop, which is when the scan call throws or when the announcement of
    the top opportunity applies [toFixed] to a liquidity that is not a
    number; nothing has been submitted then.  After either pause the loop
    goes on as long as the run flag is set: no failure ends it. *)
Theorem submission_failure_handling :
  (forall net opportunity,
     exists r, executeArbitrage net opportunity = Normal r)
  /\ (forall net opportunity balance gasPrice e,
        contract_ready net = true ->
        wallet_getBalance net = Normal balance ->
        ether_0_0005 <= balance ->
        getOptimalGasPrice net = Normal gasPrice ->
        (contract_executeFlashLoanArbitrage net
           (submission opportunity gasPrice) = Throw e
         \/ exists tx,
              contract_executeFlashLoanArbitrage net
                (submission opportunity gasPrice) = Normal tx
              /\ tx_wait net tx = Throw e) ->
        executeArbitrage net opportunity = Normal (Failure e opportunity))
  /\ (forall net best rest e,
        (execution_threshold < priceDiff best)%Q ->
        liquidity1_is_number best && liquidity2_is_number best = true ->
        executeArbitrage net best = Normal (Failure e best) ->
        loop_body (Normal (best :: rest)) (executeArbitrage net)
        = {| submitted := Some best;
             outcome := Some (Failure e best);
             pause := SCAN_INTERVAL |})
  /\ (forall scan net e o,
        outcome (loop_body scan (executeArbitrage net)) = Some (Failure e o) ->
        pause (loop_body scan (executeArbitrage net)) = SCAN_INTERVAL)
  /\ (forall scan net,
        pause (loop_body scan (executeArbitrage net)) = ERROR_INTERVAL
        <-> exists e, loop_try scan (executeArbitrage net) = Throw e)
  /\ (forall scan net,
        (exists e, loop_try scan (executeArbitrage net) = Throw e)
        <-> ((exists e, scan = Throw e)
             \/ exists best rest,
                  scan = Normal (best :: rest)
                  /\ (execution_threshold < priceDiff best)%Q
                  /\ liquidity1_is_number best && liquidity2_is_number best
                     = false))
  /\ (forall scan net,
        pause (loop_body scan (executeArbitrage net)) = ERROR_INTERVAL ->
        submitted (loop_body scan (executeArbitrage net)) = None
        /\ outcome (loop_body scan (executeArbitrage net)) = None)
  /\ (forall arith feed net now,
        pause (turn arith feed net now) = ERROR_INTERVAL
        <-> exists best rest,
              findArbitrageOpportunities arith feed now
                = Normal (best :: rest)
              /\ liquidity1_is_number best && liquidity2_is_number best
                 = false)
  /\ SCAN_INTERVAL < ERROR_INTERVAL
  /\ (forall b, isMonitoring b = true -> wake b = b).
Proof.
  split; [exact executeArbitrage_returns|].
  split; [exact executeArbitrage_submission_throws|].
  split; [intros net best rest e Hgt Hnum Hr;
          exact (loop_body_executes best rest _ _ Hgt Hnum Hr)|].
  split; [intros scan net e o H;
          exact (proj1 (loop_body_outcome _ _ _ H))|].
  split; [intros scan net; apply loop_body_pause|].
  split; [intros scan net;
          exact (loop_try_throws scan _ (executeArbitrage_returns net))|].
  split.
  { intros scan net H. apply loop_body_pause in H as [e He].
    unfold loop_body. rewrite He. split; reflexivity. }
  split.
  { intros arith feed net now. unfold turn.
    rewrite loop_body_pause,
      (loop_try_throws _ _ (executeArbitrage_returns net)).
    split.
    - intros [[e He]|(best & rest & Hs & _ & Hnum)]; [|eauto].
      destruct (findArbitrageOpportunities_in_window arith feed now)
        as (found & Hf & _). congruence.
    - intros (best & rest & Hs & Hnum). right. exists best, rest.
      split; [exact Hs|]. split; [|exact Hnum].
      pose proof (scanned_exceed_threshold _ _ _ _ Hs) as Hall.
      now apply Forall_cons in Hall as [Hb _]. }
  split; [reflexivity|].
  intros b Hb. unfold wake. now rewrite Hb.
Qed.

(** *** The run flag *)

Lemma step_settled b e : e <> Stop -> settled b -> settled (step b e).
Proof.
  unfold settled. destruct b as [[|] n]; destruct e; cbn; intros He Hs;
    try congruence; subst; reflexivity.
Qed.

Lemma run_settled events :
  forall b, Forall (fun e => e <> Stop) events -> settled b ->
            settled (run events b).
Proof.
  induction events as [|e events IH]; intros b Hev Hb; cbn.
  - exact Hb.
  - apply Forall_cons in Hev as [He Hev].
    apply IH; [exact Hev|]. now apply step_settled.
Qed.

(** C9, as the code has it.  While the run flag is set, calling
    [startArbitrageBot] again changes nothing and starts no loop; and as
    long as no stop request intervenes, at most one loop is alive. *)
Theorem startArbitrageBot_idempotent_while_running :
  (forall b, isMonitoring b = true ->
     startArbitrageBot b = b
     /\ loops (startArbitrageBot b) = loops b)
  /\ (forall b, startArbitrageBot (startArbitrageBot b) = startArbitrageBot b)
  /\ (forall events,
        Forall (fun e => e <> Stop) events ->
        (loops (run events bot_idle) <= 1)%nat).
Proof.
  split; [|split].
  - intros b Hb. unfold startArbitrageBot. rewrite Hb. split; reflexivity.
  - intros [[|] n]; reflexivity.
  - intros events Hev.
    pose proof (run_settled events bot_idle Hev eq_refl) as Hs.
    unfold settled in Hs. rewrite Hs.
    destruct (isMonitoring (run events bot_idle)); lia.
Qed.

End ControllerFacts2.

Section ControllerScenarios.
Import Js Scanner Controller Desk Bench.

(** The scan of the concrete feed finds the one opportunity. *)
Example scan_of_feed0 :
  findArbitrageOpportunities exact_arith feed0 0 = Normal [opportunity0].
Proof. vm_compute. reflexivity. Qed.

(** Among the fifteen candidates of [feed_wide], all inside the window, the
    pools priced 102 and 100 are collected and not returned: ten entries of
    higher difference are. *)
Example wide_feed_is_cut :
  exists collected found,
    scan_tokens exact_arith feed_wide 0 tokensToMonitor [] = Normal collected
    /\ findArbitrageOpportunities exact_arith feed_wide 0 = Normal found
    /\ length collected = 15%nat
    /\ length found = 10%nat
    /\ In (opportunity_of 0 (pool_at "e" "102") (pool_at "f" "100") WETH
             quote_token (priceDiffPercent_of exact_arith 102 100))
         collected
    /\ ~ In (opportunity_of 0 (pool_at "e" "102") (pool_at "f" "100") WETH
               quote_token (priceDiffPercent_of exact_arith 102 100))
           found.
Proof.
  do 2 eexists.
  split; [vm_compute; reflexivity|].
  split; [vm_compute; reflexivity|].
  split; [reflexivity|]. split; [reflexivity|].
  split.
  - vm_compute. do 14 right. now left.
  - vm_compute. intros H.
    repeat (destruct H as [H|H]; [discriminate H|]). exact H.
Qed.

(** C6 as stated fails.  The two pools of [feed_baseless] are a candidate
    that passes every price test, with a difference of 200/101 percent,
    strictly inside the window, and liquidities above the floor; but the
    first lacks its [baseToken] object, pushing the entry throws, and the
    scanner retains nothing: the scan collects no list and returns the empty
    one.  The same happens to the well-formed candidate of
    [feed_late_break], whose entry the inner loop does push: a later pair of
    the same answer lacks its [quoteToken] object. *)
Lemma candidate_inside_window_not_retained :
  (In WETH tokensToMonitor
   /\ feed_baseless WETH = Normal [pair_baseless; pair_aerodrome]
   /\ quoteToken pair_baseless = quoteToken pair_aerodrome
   /\ implausible (parseFloat exact_arith (priceUsd pair_baseless))
        (parseFloat exact_arith (priceUsd pair_aerodrome)) = false
   /\ prices_in_band exact_arith 102 100 = true
   /\ (retention_lower_bound < priceDiffPercent_of exact_arith 102 100)%Q
   /\ (priceDiffPercent_of exact_arith 102 100 < retention_upper_bound)%Q
   /\ liquidity_usd pair_baseless = Some 101%Q
   /\ liquidity_usd pair_aerodrome = Some 101%Q
   /\ (minLiquidity < 101)%Q
   /\ examine exact_arith 0 pair_baseless pair_aerodrome = Throw TypeError
   /\ scan_tokens exact_arith feed_baseless 0 tokensToMonitor []
      = Throw TypeError
   /\ findArbitrageOpportunities exact_arith feed_baseless 0 = Normal [])
  /\ (feed_late_break WETH = Normal [pair_uniswap; pair_aerodrome; pair_broken]
      /\ examine exact_arith 0 pair_uniswap pair_aerodrome
         = Normal (Some opportunity0)
      /\ (retention_lower_bound < priceDiff opportunity0)%Q
      /\ (priceDiff opportunity0 < retention_upper_bound)%Q
      /\ (minLiquidity < liquidity1 opportunity0)%Q
      /\ (minLiquidity < liquidity2 opportunity0)%Q
      /\ scan_tokens exact_arith feed_late_break 0 tokensToMonitor []
         = Throw TypeError
      /\ findArbitrageOpportunities exact_arith feed_late_break 0
         = Normal []).
Proof.
  split.
  - split; [now left|].
    repeat (split; [vm_compute; reflexivity|]). vm_compute. reflexivity.
  - repeat (split; [vm_compute; reflexivity|]). vm_compute. reflexivity.
Qed.

Lemma scanner_retention_boundaries_witness :
  (exists base,
     baseToken pair_uniswap = Some base
     /\ In (opportunity_of 0 pair_uniswap pair_aerodrome base quote_token
              (priceDiffPercent_of exact_arith 102 100)) [opportunity0])
  /\ findArbitrageOpportunities exact_arith feed0 0
     = Normal (take 10 (sort_desc [opportunity0]))
  /\ (forall base,
        ~ In (opportunity_of 0 pair_uniswap pair_thin base quote_token
                (priceDiffPercent_of exact_arith 102 100)) [])
  /\ findArbitrageOpportunities exact_arith feed_broken 0 = Normal [].
Proof.
  pose proof (proj2 (scanner_retention_boundaries exact_arith feed0 0) WETH
                [pair_uniswap; pair_aerodrome] pair_uniswap pair_aerodrome
                quote_token 102%Q 100%Q [opportunity0]) as Hkept.
  pose proof (proj2 (scanner_retention_boundaries exact_arith feed_thin 0)
                WETH [pair_uniswap; pair_thin] pair_uniswap pair_thin
                quote_token 102%Q 100%Q []) as Hthin.
  cbv zeta in Hkept, Hthin.
  destruct Hkept as (Hfound & _ & _ & _ & _ & _ & _ & Hin).
  { now left. } { reflexivity. } { exists [], [], []. reflexivity. }
  { reflexivity. } { reflexivity. }
  { vm_compute. reflexivity. } { vm_compute. reflexivity. }
  { vm_compute. reflexivity. } { vm_compute. reflexivity. }
  { vm_compute. reflexivity. }
  destruct Hthin as (_ & _ & _ & _ & _ & _ & Hfloor & _).
  { now left. } { reflexivity. } { exists [], [], []. reflexivity. }
  { reflexivity. } { reflexivity. }
  { vm_compute. reflexivity. } { vm_compute. reflexivity. }
  { vm_compute. reflexivity. } { vm_compute. reflexivity. }
  { vm_compute. reflexivity. }
  split; [|split; [|split]].
  - apply Hin; [vm_compute; reflexivity | vm_compute; reflexivity
               | reflexivity | reflexivity].
  - exact Hfound.
  - apply Hfloor. right. reflexivity.
  - apply (proj1 (scanner_retention_boundaries exact_arith feed_broken 0)
             TypeError).
    vm_compute. reflexivity.
Defined.

(** C7 as stated fails: the execution threshold is not above the scanner's
    lower bound, no price difference passes the one and misses the other,
    and an opportunity barely inside the window (200/101 percent) is
    submitted. *)
Lemma execution_threshold_not_stricter :
  ~ (retention_lower_bound < execution_threshold)%Q
  /\ ~ (exists pd : Q, (retention_lower_bound < pd)%Q
                       /\ ~ (execution_threshold < pd)%Q)
  /\ (priceDiff opportunity0 < 2)%Q
  /\ submitted (turn exact_arith feed0 net_mining 0) = Some opportunity0.
Proof.
  split; [vm_compute; discriminate|].
  split; [intros (pd & Hlo & Hno); exact (Hno Hlo)|].
  split; vm_compute; reflexivity.
Qed.

Lemma execution_threshold_is_retention_bound_witness :
  (execution_threshold < priceDiff opportunity0)%Q
  /\ loop_body
       (Normal [opportunity_of 0 pair_uniswap pair_aerodrome WETH
                  quote_token 1])
       (executeArbitrage net_mining)
     = {| submitted := None; outcome := None; pause := SCAN_INTERVAL |}
  /\ Forall (fun o => (execution_threshold < priceDiff o)%Q) [opportunity0].
Proof.
  destruct execution_threshold_is_retention_bound
    as (Honly & Hskip & _ & Hall).
  split; [|split].
  - destruct (Honly (findArbitrageOpportunities exact_arith feed0 0)
                (executeArbitrage net_mining) opportunity0)
      as (rest & _ & Hgt); [vm_compute; reflexivity | exact Hgt].
  - apply Hskip. vm_compute. discriminate.
  - apply (Hall exact_arith feed0 0). vm_compute. reflexivity.
Defined.

(** C8 as stated fails: after a submission the engine reverts, after one
    the transport drops and after one that times out, the loop pauses for the
    scan interval, not for anything longer. *)
Lemma failed_submission_no_cooldown :
  outcome (turn exact_arith feed0 net_reverting 0)
    = Some (Failure (EngineFailure Engine.UnprofitableTrade) opportunity0)
  /\ pause (turn exact_arith feed0 net_reverting 0) = SCAN_INTERVAL
  /\ ~ (SCAN_INTERVAL < pause (turn exact_arith feed0 net_reverting 0))
  /\ outcome (turn exact_arith feed0 net_unreachable 0)
     = Some (Failure NetworkError opportunity0)
  /\ ~ (SCAN_INTERVAL < pause (turn exact_arith feed0 net_unreachable 0))
  /\ outcome (turn exact_arith feed0 net_timing_out 0)
     = Some (Failure Timeout opportunity0)
  /\ ~ (SCAN_INTERVAL < pause (turn exact_arith feed0 net_timing_out 0)).
Proof.
  repeat split; try (vm_compute; reflexivity); vm_compute; discriminate.
Qed.

Lemma submission_failure_handling_witness :
  executeArbitrage net_reverting opportunity0
    = Normal (Failure (EngineFailure Engine.UnprofitableTrade) opportunity0)
  /\ loop_body (Normal [opportunity0]) (executeArbitrage net_reverting)
     = {| submitted := Some opportunity0;
          outcome := Some (Failure (EngineFailure Engine.UnprofitableTrade)
                             opportunity0);
          pause := SCAN_INTERVAL |}
  /\ pause (turn exact_arith feed0 net_reverting 0) = SCAN_INTERVAL
  /\ pause (turn exact_arith feed_texted net_mining 0) = ERROR_INTERVAL
  /\ submitted (turn exact_arith feed_texted net_mining 0) = None
  /\ wake (startArbitrageBot bot_idle) = startArbitrageBot bot_idle.
Proof.
  destruct submission_failure_handling
    as (_ & Hthrows & Hpause & Hfailed & _ & _ & Hnone & Hturn & _ & Hgoes).
  assert (Hfail : executeArbitrage net_reverting opportunity0
    = Normal (Failure (EngineFailure Engine.UnprofitableTrade) opportunity0)).
  { apply (Hthrows net_reverting opportunity0 (10 ^ 18) (10 ^ 9)).
    - reflexivity.
    - reflexivity.
    - vm_compute. discriminate.
    - reflexivity.
    - right. exists "0xabc"%string. split; reflexivity. }
  assert (Hlong : pause (turn exact_arith feed_texted net_mining 0)
                  = ERROR_INTERVAL).
  { apply Hturn. do 2 eexists. split; vm_compute; reflexivity. }
  split; [exact Hfail|]. split; [|split; [|split; [|split]]].
  - apply Hpause; [vm_compute; reflexivity | reflexivity | exact Hfail].
  - apply (Hfailed _ net_reverting
             (EngineFailure Engine.UnprofitableTrade) opportunity0).
    vm_compute. reflexivity.
  - exact Hlong.
  - exact (proj1 (Hnone _ _ Hlong)).
  - apply Hgoes. reflexivity.
Defined.

(** C9 as stated fails on its last clause: a stop followed by a start
    before the first loop has looked at the flag leaves two loops alive, and
    both go on at every later wake-up. *)
Lemma stop_then_start_two_loops :
  run [Start; Stop; Start] bot_idle = {| isMonitoring := true; loops := 2 |}
  /\ ~ (loops (run [Start; Stop; Start] bot_idle) <= 1)%nat
  /\ run [Start; Stop; Start; Wake; Wake] bot_idle
     = {| isMonitoring := true; loops := 2 |}.
Proof.
  split; [reflexivity|]. split; [cbn; lia | reflexivity].
Qed.

Lemma startArbitrageBot_idempotent_while_running_witness :
  startArbitrageBot (run [Start] bot_idle) = run [Start] bot_idle
  /\ (loops (run [Start; Wake; Start; Wake] bot_idle) <= 1)%nat.
Proof.
  destruct startArbitrageBot_idempotent_while_running as (Hnoop & _ & Hone).
  split.
  - apply (Hnoop (run [Start] bot_idle)). reflexivity.
  - apply Hone. repeat constructor; discriminate.
Defined.

End ControllerScenarios.

(** * Further properties of the engine *)

Section EngineMore.
Import Engine.

Variable this POOL : address.
Variable router : Chain -> ExactInputSingleParams -> option (Z * Chain).
Variable quoter : Chain -> address -> address -> Z -> Z -> Z -> QuoterCall.

Lemma checked_add_storage a b w r w' :
  checked_add a b w = Ok (r, w') -> w' = w.
Proof. intros H. now apply checked_add_Ok in H as [[= _ ->] _]. Qed.

Lemma _swapUniswapV3_storage ctx tin tout amountIn fee w out w' :
  _swapUniswapV3 this router ctx tin tout amountIn fee w = Ok (out, w') ->
  storage w' = storage w.
Proof.
  unfold _swapUniswapV3. intros H.
  apply bind_Ok in H as ([] & w1 & Ha & H). revert Ha; intros [= <-].
  apply bind_Ok in H as (d & w2 & Hd & H).
  apply checked_add_storage in Hd as ->.
  now apply call_router_storage in H.
Qed.

Lemma _executeArbitrage_storage ctx p amount w profit w1 :
  _executeArbitrage this router ctx p amount w = Ok (profit, w1) ->
  storage w1 = storage w.
Proof.
  unfold _executeArbitrage. intros H.
  apply bind_Ok in H as (s & w0 & Hs & H). revert Hs; intros [= <- <-].
  apply bind_Ok in H as (o1 & wa & H1 & H).
  apply _swapUniswapV3_storage in H1.
  apply bind_Ok in H as (o2 & wb & H2 & H).
  apply bind_Ok in H as (e & wc & He & H). revert He; intros [= <- <-].
  revert H; intros [= _ <-].
  destruct (useAerodrome p).
  - revert H2; intros [= _ <-]. exact H1.
  - apply _swapUniswapV3_storage in H2. congruence.
Qed.

Lemma executeOperation_bad_caller
    ctx asset amount premium initiator params w :
  msg_sender ctx <> POOL ->
  executeOperation this POOL router ctx asset amount premium initiator
    params w = Err InvalidCaller.
Proof.
  intros Hc. unfold executeOperation. apply Z.eqb_neq in Hc. now rewrite Hc.
Qed.

Lemma executeOperation_bad_initiator
    ctx asset amount premium initiator params w :
  msg_sender ctx = POOL -> initiator <> this ->
  executeOperation this POOL router ctx asset amount premium initiator
    params w = Err InvalidInitiator.
Proof.
  intros Hc Hi. unfold executeOperation. apply Z.eqb_neq in Hi.
  now rewrite Hc, Z.eqb_refl, Hi.
Qed.

Lemma unprofitable_callback_fails
    ctx asset amount premium initiator p w profit w1 :
  _executeArbitrage this router ctx p amount w = Ok (profit, w1) ->
  profit <= 0 ->
  exists e,
    executeOperation this POOL router ctx asset amount premium initiator
      (Some p) w = Err e.
Proof.
  intros Harb Hp.
  destruct (Z.eq_dec (msg_sender ctx) POOL) as [Hc|Hc];
    [|eexists; now apply executeOperation_bad_caller].
  destruct (Z.eq_dec initiator this) as [->|Hi];
    [|eexists; now apply executeOperation_bad_initiator].
  rewrite executeOperation_unfold by assumption.
  rewrite (bind_Ok_intro _ _ _ _ _ Harb).
  now apply settle_unprofitable.
Qed.

(** X1.  [executeOperation] turns away, in this order, a caller other than
    the pool (InvalidCaller, whatever the other arguments), an initiator
    other than the engine (InvalidInitiator) and parameters that do not
    decode; none of the three touches the state. *)
Theorem executeOperation_trust_boundary
    ctx asset amount premium initiator params w :
  (msg_sender ctx <> POOL ->
   executeOperation this POOL router ctx asset amount premium initiator
     params w = Err InvalidCaller)
  /\ (msg_sender ctx = POOL -> initiator <> this ->
      executeOperation this POOL router ctx asset amount premium initiator
        params w = Err InvalidInitiator)
  /\ (msg_sender ctx = POOL -> initiator = this -> params = None ->
      executeOperation this POOL router ctx asset amount premium initiator
        params w = Err MalformedParams).
Proof.
  split; [|split].
  - apply executeOperation_bad_caller.
  - apply executeOperation_bad_initiator.
  - intros Hc -> ->. unfold executeOperation.
    now rewrite Hc, !Z.eqb_refl.
Qed.

Lemma executeOperation_Ok_effects
    ctx asset amount premium initiator params w b w' :
  executeOperation this POOL router ctx asset amount premium initiator
    params w = Ok (b, w') ->
  b = true
  /\ storage w' = storage w
  /\ allowance_in (chain w') asset this POOL = amount + premium
  /\ amount + premium <= balance_in (chain w') asset this
  /\ amount + premium <= uint256_max
  /\ exists profit earlier,
       0 < profit
       /\ events (chain w')
          = earlier ++ [ArbitrageExecuted asset amount profit (gasleft ctx)].
Proof.
  intros H.
  destruct (executeOperation_checks _ _ _ _ _ _ _ _ _ _ _ H)
    as (Hc & -> & p & ->).
  rewrite executeOperation_unfold in H by assumption.
  apply bind_Ok in H as (profit & w1 & Harb & Hs).
  pose proof (_executeArbitrage_storage _ _ _ _ _ _ Harb) as Hst.
  assert (Hfit : amount + premium <= uint256_max).
  { unfold settle in Hs. apply bind_Ok in Hs as (d & w0 & Hd & _).
    now apply checked_add_Ok in Hd as [_ Hd]. }
  apply settle_Ok in Hs as (-> & Hpos & Hheld & Hbal & Hst' & Hev & Hal).
  split; [reflexivity|]. split; [congruence|]. split; [exact Hal|].
  split; [unfold balance_in in *; now rewrite Hbal|].
  split; [exact Hfit|]. eauto.
Qed.

(** X2.  A callback that returns has returned [true], has left the engine's
    storage as it was, and has left the pool able to collect: the allowance
    of the pool on the asset is exactly [amount + premium], the engine holds
    at least that much of the asset, and the last event logged is the
    execution record with a strictly positive profit. *)
Theorem executeOperation_leaves_repayment_ready
    ctx asset amount premium initiator params w b w' :
  executeOperation this POOL router ctx asset amount premium initiator
    params w = Ok (b, w') ->
  b = true
  /\ storage w' = storage w
  /\ allowance_in (chain w') asset this POOL = amount + premium
  /\ amount + premium <= balance_in (chain w') asset this
  /\ amount + premium <= uint256_max
  /\ exists profit earlier,
       0 < profit
       /\ events (chain w')
          = earlier ++ [ArbitrageExecuted asset amount profit (gasleft ctx)].
Proof. apply executeOperation_Ok_effects. Qed.

Lemma bind_Err_inv {A B} (m : M A) (k : A -> M B) w e :
  bind m k w = Err e ->
  m w = Err e \/ exists a w', m w = Ok (a, w') /\ k a w' = Err e.
Proof.
  unfold bind. destruct (m w) as [[a w']|f]; [eauto|].
  intros [= ->]. now left.
Qed.

(** The failures of a callback the pool issues for the engine itself. *)
Lemma executeOperation_Err_trusted
    ctx asset amount premium params w e :
  msg_sender ctx = POOL ->
  executeOperation this POOL router ctx asset amount premium this params w
    = Err e ->
  In e [MalformedParams; ArithmeticPanic; ExternalCallReverted;
        InsufficientRepayment; UnprofitableTrade].
Proof.
  clear quoter.
  intros Hc. unfold executeOperation. rewrite Hc, !Z.eqb_refl.
  destruct params as [p|]; [|intros [= <-]; cbn; tauto].
  unfold _executeArbitrage, _swapUniswapV3, _swapAerodrome, call_router,
    checked_add, approve, balanceOf, emit, abi_decode, bind, require, ret,
    revert. cbn.
  destruct (block_timestamp ctx + 300 <=? uint256_max);
    [|intros [= <-]; cbn; tauto]. cbn.
  destruct (router _ _) as [[o1 c1]|]; [|intros [= <-]; cbn; tauto]. cbn.
  destruct (useAerodrome p); cbn.
  - destruct (amount + premium <=? uint256_max);
      [|intros [= <-]; cbn; tauto]. cbn.
    destruct (_ >=? _); [|intros [= <-]; cbn; tauto]. cbn.
    destruct (_ >? 0); [discriminate | intros [= <-]; cbn; tauto].
  - destruct (router _ _) as [[o2 c2]|]; [|intros [= <-]; cbn; tauto]. cbn.
    destruct (amount + premium <=? uint256_max);
      [|intros [= <-]; cbn; tauto]. cbn.
    destruct (_ >=? _); [|intros [= <-]; cbn; tauto]. cbn.
    destruct (_ >? 0); [discriminate | intros [= <-]; cbn; tauto].
Qed.

(** X4.  The callback enforces none of the settings: on the same ledger it
    gives the same verdict and the same ledger whatever the engine's storage
    holds, so neither [minProfitBasisPoints] nor [maxSlippage] nor
    [maxGasPrice] plays a part in it. *)
Theorem executeOperation_ignores_settings
    s1 s2 c ctx asset amount premium initiator params :
  executeOperation this POOL router ctx asset amount premium initiator params
    {| storage := s2; chain := c |}
  = Result_map (with_storage (fun _ => s2))
      (executeOperation this POOL router ctx asset amount premium initiator
         params {| storage := s1; chain := c |}).
Proof.
  exact (executeOperation_storage_blind this POOL router (fun _ => s2) ctx
           asset amount premium initiator params
           {| storage := s1; chain := c |}).
Qed.

(** X5.  The field [amountIn] of the decoded parameters is never read: the
    amount swapped is the loan amount, and two requests that differ only in
    [amountIn] run alike. *)
Theorem executeOperation_ignores_amountIn
    ctx asset amount premium initiator p v w :
  executeOperation this POOL router ctx asset amount premium initiator
    (Some {| tokenIn := tokenIn p; tokenOut := tokenOut p; amountIn := v;
             fee1 := fee1 p; fee2 := fee2 p;
             useAerodrome := useAerodrome p |}) w
  = executeOperation this POOL router ctx asset amount premium initiator
      (Some p) w.
Proof. destruct p. reflexivity. Qed.

(** X6.  With [useAerodrome] set the second leg is the placeholder, which
    moves nothing: the profit is what the first swap alone leaves, and if
    that swap does not raise the engine's balance of [tokenIn] the callback
    cannot succeed. *)
Theorem aerodrome_leg_cannot_profit
    ctx asset amount premium initiator p w :
  useAerodrome p = true ->
  (forall out w1,
     _swapUniswapV3 this router ctx (tokenIn p) (tokenOut p) amount (fee1 p) w
       = Ok (out, w1) ->
     balance_in (chain w1) (tokenIn p) this
     <= balance_in (chain w) (tokenIn p) this) ->
  exists e,
    executeOperation this POOL router ctx asset amount premium initiator
      (Some p) w = Err e.
Proof.
  intros Haero Hsell.
  destruct (_executeArbitrage this router ctx p amount w)
    as [[profit w1]|e] eqn:Harb.
  - apply (unprofitable_callback_fails ctx asset amount premium initiator p
             w profit w1 Harb).
    pose proof (_executeArbitrage_profit _ _ _ _ _ _ _ _ Harb) as Hp.
    unfold _executeArbitrage in Harb. rewrite Haero in Harb.
    apply bind_Ok in Harb as (s & w0 & Hs & Harb).
    revert Hs; intros [= <- <-].
    apply bind_Ok in Harb as (o1 & wa & H1 & Harb).
    apply bind_Ok in Harb as (o2 & wb & H2 & Harb).
    revert H2; intros [= _ <-].
    apply bind_Ok in Harb as (e & wc & He & Harb).
    revert He; intros [= <- <-]. revert Harb; intros [= _ <-].
    specialize (Hsell _ _ H1). lia.
  - destruct (Z.eq_dec (msg_sender ctx) POOL) as [Hc|Hc];
      [|eexists; now apply executeOperation_bad_caller].
    destruct (Z.eq_dec initiator this) as [->|Hi];
      [|eexists; now apply executeOperation_bad_initiator].
    rewrite executeOperation_unfold by assumption.
    exists e. now apply bind_Err.
Qed.

(** *** The entry point and the owner's operations *)

Lemma flashLoanSimple_Err premiumOf ctx asset amount params w e :
  flashLoanSimple this POOL router premiumOf ctx asset amount params w
    = Err e ->
  In e [LoanNotFunded; MalformedParams; ArithmeticPanic;
        ExternalCallReverted; InsufficientRepayment; UnprofitableTrade].
Proof.
  clear quoter.
  intros H. unfold flashLoanSimple in H.
  apply bind_Err_inv in H as [H|([] & w5 & _ & H)].
  { unfold transfer in H. destruct (_ && _); [discriminate|].
    revert H; intros [= <-]. cbn. tauto. }
  apply bind_Err_inv in H as [H|(ok & w6 & _ & H)].
  { apply executeOperation_Err_trusted in H; [|reflexivity].
    cbn in H |- *. tauto. }
  apply bind_Err_inv in H as [H|([] & w7 & _ & H)].
  { unfold require in H. destruct ok; [discriminate|].
    revert H; intros [= <-]. cbn. tauto. }
  unfold transferFrom in H.
  destruct (_ <=? _); [|revert H; intros [= <-]; cbn; tauto].
  apply bind_Err_inv in H as [H|([] & w8 & _ & H)]; [|discriminate].
  unfold transfer in H. destruct (_ && _); [discriminate|].
  revert H; intros [= <-]. cbn. tauto.
Qed.

Lemma onlyOwner_owner ctx w :
  msg_sender ctx = _owner (storage w) -> onlyOwner ctx w = Ok (tt, w).
Proof. intros Ho. unfold onlyOwner. now rewrite Ho, Z.eqb_refl. Qed.

Lemma onlyOwner_stranger ctx w :
  msg_sender ctx <> _owner (storage w) -> onlyOwner ctx w = Err AccessDenied.
Proof.
  intros Ho. unfold onlyOwner. apply not_eq_sym, Z.eqb_neq in Ho.
  now rewrite Ho.
Qed.

Lemma nonReentrantBefore_free w :
  _status (storage w) <> _ENTERED ->
  nonReentrantBefore w = Ok (tt, with_storage (set_status _ENTERED) w).
Proof.
  intros Hs. unfold nonReentrantBefore, bind. apply Z.eqb_neq in Hs.
  now rewrite Hs.
Qed.

(** Past its three gates, the entry point is the loan under a set guard. *)
Lemma executeFlashLoanArbitrage_admitted
    premiumOf ctx asset amount params w :
  msg_sender ctx = _owner (storage w) ->
  _status (storage w) <> _ENTERED ->
  tx_gasprice ctx <= maxGasPrice (storage w) ->
  executeFlashLoanArbitrage this POOL router premiumOf ctx asset amount
    params w
  = bind (flashLoanSimple this POOL router premiumOf ctx asset amount params)
      (fun _ => nonReentrantAfter)
      (with_storage (set_status _ENTERED) w).
Proof.
  intros Ho Hs Hg. unfold executeFlashLoanArbitrage.
  rewrite (bind_Ok_intro _ _ _ _ _ (onlyOwner_owner ctx w Ho)).
  rewrite (bind_Ok_intro _ _ _ _ _ (nonReentrantBefore_free w Hs)).
  unfold bind at 1. cbn [storage with_storage set_status maxGasPrice].
  destruct (Z.leb_spec (tx_gasprice ctx) (maxGasPrice (storage w))); [|lia].
  reflexivity.
Qed.

Lemma executeFlashLoanArbitrage_gas_gate
    premiumOf ctx asset amount params w :
  msg_sender ctx = _owner (storage w) ->
  _status (storage w) <> _ENTERED ->
  maxGasPrice (storage w) < tx_gasprice ctx ->
  executeFlashLoanArbitrage this POOL router premiumOf ctx asset amount
    params w = Err GasPriceExceeded.
Proof.
  intros Ho Hs Hg. unfold executeFlashLoanArbitrage.
  rewrite (bind_Ok_intro _ _ _ _ _ (onlyOwner_owner ctx w Ho)).
  rewrite (bind_Ok_intro _ _ _ _ _ (nonReentrantBefore_free w Hs)).
  unfold bind at 1. cbn [storage with_storage set_status maxGasPrice].
  destruct (Z.leb_spec (tx_gasprice ctx) (maxGasPrice (storage w))); [lia|].
  reflexivity.
Qed.

Lemma executeFlashLoanArbitrage_admitted_Err
    premiumOf ctx asset amount params w e :
  msg_sender ctx = _owner (storage w) ->
  _status (storage w) <> _ENTERED ->
  tx_gasprice ctx <= maxGasPrice (storage w) ->
  executeFlashLoanArbitrage this POOL router premiumOf ctx asset amount
    params w = Err e ->
  In e [LoanNotFunded; MalformedParams; ArithmeticPanic;
        ExternalCallReverted; InsufficientRepayment; UnprofitableTrade].
Proof.
  intros Ho Hs Hg H.
  rewrite executeFlashLoanArbitrage_admitted in H by assumption.
  apply bind_Err_inv in H as [H|([] & w' & _ & H)]; [|discriminate].
  exact (flashLoanSimple_Err _ _ _ _ _ _ _ H).
Qed.

(** X7.  The gates of [executeFlashLoanArbitrage], in order: a caller other
    than the owner is refused with AccessDenied whatever the guard and the
    gas price; the owner, with the guard free, is refused with
    GasPriceExceeded exactly when the transaction's gas price is above
    [maxGasPrice]; at or below the cap the attempt goes on to the loan and can
    no longer fail at a gate. *)
Theorem executeFlashLoanArbitrage_gates
    premiumOf ctx asset amount params w :
  (msg_sender ctx <> _owner (storage w) ->
   executeFlashLoanArbitrage this POOL router premiumOf ctx asset amount
     params w = Err AccessDenied)
  /\ (msg_sender ctx = _owner (storage w) ->
      _status (storage w) <> _ENTERED ->
      (maxGasPrice (storage w) < tx_gasprice ctx
       <-> executeFlashLoanArbitrage this POOL router premiumOf ctx asset
             amount params w = Err GasPriceExceeded)
      /\ (tx_gasprice ctx <= maxGasPrice (storage w) ->
          forall e,
            executeFlashLoanArbitrage this POOL router premiumOf ctx asset
              amount params w = Err e ->
            e <> AccessDenied /\ e <> ReentrancyBlocked
            /\ e <> GasPriceExceeded)).
Proof.
  split.
  - intros Ho. unfold executeFlashLoanArbitrage.
    now rewrite (bind_Err _ _ _ _ (onlyOwner_stranger ctx w Ho)).
  - intros Ho Hs.
    assert (Hlate : tx_gasprice ctx <= maxGasPrice (storage w) ->
      forall e,
        executeFlashLoanArbitrage this POOL router premiumOf ctx asset
          amount params w = Err e ->
        e <> AccessDenied /\ e <> ReentrancyBlocked /\ e <> GasPriceExceeded).
    { intros Hg e He.
      pose proof (executeFlashLoanArbitrage_admitted_Err _ _ _ _ _ _ _
                    Ho Hs Hg He) as Hin.
      cbn in Hin. repeat split; intros ->;
        repeat (destruct Hin as [Hin|Hin]; [discriminate|]); exact Hin. }
    split; [split|exact Hlate].
    + now apply executeFlashLoanArbitrage_gas_gate.
    + intros He.
      destruct (Z.lt_ge_cases (maxGasPrice (storage w)) (tx_gasprice ctx))
        as [Hlt|Hge]; [exact Hlt|].
      destruct (Hlate Hge _ He) as (_ & _ & Hne). now elim Hne.
Qed.

Lemma updateSettings_by_owner ctx m g s w :
  msg_sender ctx = _owner (storage w) ->
  updateSettings ctx m g s w
  = Ok (tt, {| storage := {| _owner := _owner (storage w);
                             _status := _status (storage w);
                             minProfitBasisPoints := m;
                             maxGasPrice := g;
                             maxSlippage := s |};
               chain := chain w |}).
Proof.
  intros Ho. unfold updateSettings.
  now rewrite (bind_Ok_intro _ _ _ _ _ (onlyOwner_owner ctx w Ho)).
Qed.

(** X8.  [updateSettings]: anyone but the owner is refused with
    AccessDenied; the owner's call stores the three values as given, with no
    bound on any of them, and touches neither the owner, the guard nor the
    ledger; of two updates in a row only the second is left. *)
Theorem updateSettings_overwrites ctx m g s w :
  (msg_sender ctx <> _owner (storage w) ->
   updateSettings ctx m g s w = Err AccessDenied)
  /\ (msg_sender ctx = _owner (storage w) ->
      exists w',
        updateSettings ctx m g s w = Ok (tt, w')
        /\ minProfitBasisPoints (storage w') = m
        /\ maxGasPrice (storage w') = g
        /\ maxSlippage (storage w') = s
        /\ _owner (storage w') = _owner (storage w)
        /\ _status (storage w') = _status (storage w)
        /\ chain w' = chain w
        /\ forall m0 g0 s0,
             transact (updateSettings ctx m g s)
               (transact (updateSettings ctx m0 g0 s0) w) = w').
Proof.
  split.
  - intros Ho. unfold updateSettings.
    now rewrite (bind_Err _ _ _ _ (onlyOwner_stranger ctx w Ho)).
  - intros Ho. eexists. split; [now apply updateSettings_by_owner|].
    cbn. repeat split.
    intros m0 g0 s0. unfold transact.
    rewrite (updateSettings_by_owner ctx m0 g0 s0 w Ho).
    now rewrite updateSettings_by_owner.
Qed.

(** X9.  A new gas cap takes effect at once: after the owner's
    [updateSettings], an attempt is refused with GasPriceExceeded exactly
    when its gas price is above the new cap, whatever the old cap was. *)
Theorem updateSettings_then_attempt
    premiumOf ctx m g s ctx' asset amount params w :
  msg_sender ctx = _owner (storage w) ->
  msg_sender ctx' = _owner (storage w) ->
  _status (storage w) <> _ENTERED ->
  g < tx_gasprice ctx'
  <-> executeFlashLoanArbitrage this POOL router premiumOf ctx' asset amount
        params (transact (updateSettings ctx m g s) w)
      = Err GasPriceExceeded.
Proof.
  intros Ho Ho' Hs. unfold transact.
  rewrite (updateSettings_by_owner ctx m g s w Ho).
  set (w1 := {| storage := _; chain := chain w |}).
  split.
  - intros Hg. now apply executeFlashLoanArbitrage_gas_gate.
  - intros He.
    destruct (Z.lt_ge_cases g (tx_gasprice ctx')) as [Hlt|Hge]; [exact Hlt|].
    pose proof (executeFlashLoanArbitrage_admitted_Err premiumOf ctx' asset
                  amount params w1 _ Ho' Hs Hge He) as Hin.
    cbn in Hin.
    repeat (destruct Hin as [Hin|Hin]; [discriminate|]). elim Hin.
Qed.

Lemma transferFrom_allowance token spender from to amount w w' :
  transferFrom token spender from to amount w = Ok (tt, w') ->
  storage w' = storage w
  /\ allowance_in (chain w') token from spender
     = allowance_in (chain w) token from spender - amount.
Proof.
  unfold transferFrom. intros H.
  destruct (amount <=? allowance_in (chain w) token from spender);
    [|discriminate].
  apply bind_Ok in H as ([] & w1 & Ht & H).
  unfold transfer in Ht. destruct (_ && _); [|discriminate].
  revert Ht; intros [= <-]. revert H; intros [= <-]. cbn.
  split; [reflexivity|].
  unfold allowance_in. cbn. now rewrite lookup_insert_eq.
Qed.

Lemma transfer_storage token from to amount w w' :
  transfer token from to amount w = Ok (tt, w') -> storage w' = storage w.
Proof.
  unfold transfer. destruct (_ && _); [|discriminate]. now intros [= <-].
Qed.

(** X10.  A successful attempt was the owner's, at a gas price within the
    cap; it leaves the guard released, the owner and the three settings as
    they were, and no allowance to the pool on the asset: what the callback
    granted is what the pool collected. *)
Theorem successful_attempt_leaves_engine_ready
    premiumOf ctx asset amount params w w' :
  executeFlashLoanArbitrage this POOL router premiumOf ctx asset amount
    params w = Ok (tt, w') ->
  msg_sender ctx = _owner (storage w)
  /\ _status (storage w) <> _ENTERED
  /\ tx_gasprice ctx <= maxGasPrice (storage w)
  /\ storage w' = set_status _NOT_ENTERED (storage w)
  /\ allowance_in (chain w') asset this POOL = 0.
Proof.
  intros H. unfold executeFlashLoanArbitrage in H.
  apply bind_Ok in H as ([] & w1 & Ho & H).
  unfold onlyOwner in Ho. apply require_Ok in Ho as [Ho [= ->]].
  apply bind_Ok in H as ([] & w1 & Hg & H).
  unfold nonReentrantBefore in Hg.
  apply bind_Ok in Hg as ([] & w0 & Hg0 & Hg).
  apply require_Ok in Hg0 as [Hs [= ->]]. revert Hg; intros [= <-].
  apply bind_Ok in H as ([] & w1 & Hp & H).
  apply require_Ok in Hp as [Hp [= ->]].
  apply bind_Ok in H as ([] & w4 & Hf & H).
  unfold nonReentrantAfter in H. revert H; intros [= <-].
  unfold flashLoanSimple in Hf.
  apply bind_Ok in Hf as ([] & w1 & Ht & Hf).
  apply bind_Ok in Hf as (ok & w2 & Hcb & Hf).
  apply bind_Ok in Hf as ([] & w3 & Hr & Hf).
  apply require_Ok in Hr as [_ [= ->]].
  apply transfer_storage in Ht.
  apply executeOperation_Ok_effects in Hcb as (_ & Hst & Hal & _).
  apply transferFrom_allowance in Hf as (Hst' & Hal').
  apply Z.eqb_eq in Ho. apply negb_true_iff, Z.eqb_neq in Hs.
  apply Z.leb_le in Hp. cbn in Hp.
  split; [now symmetry|]. split; [exact Hs|]. split; [exact Hp|]. split.
  - cbn. rewrite Hst', Hst, Ht. cbn. destruct (storage w); reflexivity.
  - cbn. rewrite Hal', Hal. lia.
Qed.

Lemma transfer_events token from to amount w w' :
  transfer token from to amount w = Ok (tt, w') ->
  events (chain w') = events (chain w).
Proof.
  unfold transfer. destruct (_ && _); [|discriminate]. now intros [= <-].
Qed.

Lemma withdrawProfits_run ctx token w (v : World) held :
  msg_sender ctx = _owner (storage w) ->
  storage v = storage w ->
  balance_in (chain v) token this = held ->
  withdrawProfits this ctx token v
  = if held >? 0
    then bind (transfer token this (_owner (storage w)) held)
           (fun _ => emit (ProfitWithdrawn token held)) v
    else Err NothingToWithdraw.
Proof.
  intros Ho Hsv Hbv.
  unfold withdrawProfits, onlyOwner, balanceOf, bind. cbn.
  rewrite Hsv, <- Ho, Z.eqb_refl. cbn. rewrite Hbv.
  destruct (held >? 0); cbn; [|reflexivity].
  now rewrite Hsv, <- Ho.
Qed.

(** X11.  [withdrawProfits]: anyone but the owner is refused with
    AccessDenied and an empty balance with NothingToWithdraw; otherwise the
    owner receives the engine's whole balance of the token, the engine is
    left with none, the withdrawal is logged, and a second withdrawal of the
    same token right after is refused with NothingToWithdraw. *)
Theorem withdrawProfits_empties_balance ctx token w :
  (msg_sender ctx <> _owner (storage w) ->
   withdrawProfits this ctx token w = Err AccessDenied)
  /\ (msg_sender ctx = _owner (storage w) ->
      balance_in (chain w) token this <= 0 ->
      withdrawProfits this ctx token w = Err NothingToWithdraw)
  /\ (msg_sender ctx = _owner (storage w) ->
      0 < balance_in (chain w) token this ->
      _owner (storage w) <> this ->
      exists w',
        withdrawProfits this ctx token w = Ok (tt, w')
        /\ storage w' = storage w
        /\ balance_in (chain w') token this = 0
        /\ balance_in (chain w') token (_owner (storage w))
           = balance_in (chain w) token (_owner (storage w))
             + balance_in (chain w) token this
        /\ events (chain w')
           = events (chain w)
             ++ [ProfitWithdrawn token (balance_in (chain w) token this)]
        /\ withdrawProfits this ctx token w' = Err NothingToWithdraw).
Proof.
  split; [|split].
  - intros Ho. unfold withdrawProfits.
    now rewrite (bind_Err _ _ _ _ (onlyOwner_stranger ctx w Ho)).
  - intros Ho Hz.
    rewrite (withdrawProfits_run ctx token w w _ Ho eq_refl eq_refl).
    destruct (Z.gtb_spec (balance_in (chain w) token this) 0);
      [lia | reflexivity].
  - intros Ho Hpos Hne.
    rewrite (withdrawProfits_run ctx token w w _ Ho eq_refl eq_refl).
    destruct (Z.gtb_spec (balance_in (chain w) token this) 0); [|lia].
    destruct (transfer token this (_owner (storage w))
                (balance_in (chain w) token this) w)
      as [[[] w1]|e] eqn:Ht.
    + pose proof (transfer_storage _ _ _ _ _ _ Ht) as Hst.
      pose proof (transfer_events _ _ _ _ _ _ Ht) as Hev.
      rewrite (bind_Ok_intro _ _ _ _ _ Ht).
      apply transfer_Ok in Ht as (_ & Hto & Hfrom); [|congruence].
      eexists. split; [reflexivity|]. cbn.
      split; [exact Hst|].
      split; [change (balance_in (chain w1) token this = 0); lia|].
      split; [exact Hto|]. split; [now rewrite Hev|].
      rewrite (withdrawProfits_run ctx token w _ 0 Ho); [reflexivity| |].
      * cbn. exact Hst.
      * change (balance_in (chain w1) token this = 0). lia.
    + exfalso. unfold transfer in Ht.
      destruct (Z.leb_spec 0 (balance_in (chain w) token this)); [|lia].
      destruct (Z.leb_spec (balance_in (chain w) token this)
                  (balance_in (chain w) token this)); [discriminate|lia].
Qed.

(** *** The quoting helper, further *)

Lemma calculateArbitrageOpportunity_cases
    tokenA tokenB fee1 fee2 testAmount w q1 w1 quoteBack w2 :
  _getUniswapQuote quoter tokenA tokenB testAmount fee1 w = Ok (q1, w1) ->
  _getUniswapQuote quoter tokenB tokenA q1 fee2 w1 = Ok (quoteBack, w2) ->
  calculateArbitrageOpportunity quoter tokenA tokenB fee1 fee2 testAmount w
  = if quoteBack >? testAmount then
      if (quoteBack - testAmount) * 10000 <=? uint256_max then
        if testAmount =? 0 then Err ArithmeticPanic
        else Ok (((quoteBack - testAmount) * 10000 / testAmount
                  >=? minProfitBasisPoints (storage w),
                  quoteBack - testAmount, testAmount), w2)
      else Err ArithmeticPanic
    else Ok ((false, 0, 0), w2).
Proof.
  intros H1 H2.
  rewrite (calculateArbitrageOpportunity_unfold _ _ _ _ _ _ _ _ _ _ _ H1 H2).
  assert (Hs : storage w2 = storage w).
  { rewrite (_getUniswapQuote_storage _ _ _ _ _ _ _ _ H2).
    apply (_getUniswapQuote_storage _ _ _ _ _ _ _ _ H1). }
  destruct (quoteBack >? testAmount); [|reflexivity].
  unfold checked_mul, checked_div, read_minProfitBasisPoints, bind, ret,
    revert.
  destruct (_ <=? uint256_max); [|reflexivity].
  destruct (testAmount =? 0); [reflexivity|]. now rewrite Hs.
Qed.

(** X12.  [calculateArbitrageOpportunity] fails in two ways only.  It
    reverts without a reason exactly when one of its two quoter calls has
    nothing to decode (no code at the quoter's address, or return data too
    short), which the [try ... catch] does not cover.  It fails by an
    arithmetic panic exactly when both quotes are obtained, the round trip
    quotes more than the test amount and either the test amount is zero (a
    division by zero) or the profit times 10000 does not fit a uint256. *)
Theorem calculateArbitrageOpportunity_panics
    tokenA tokenB fee1 fee2 testAmount w :
  (forall e,
     calculateArbitrageOpportunity quoter tokenA tokenB fee1 fee2 testAmount w
       = Err e -> e = BadReturnData \/ e = ArithmeticPanic)
  /\ (calculateArbitrageOpportunity quoter tokenA tokenB fee1 fee2 testAmount
        w = Err BadReturnData
      <-> quoter (chain w) tokenA tokenB fee1 testAmount 0 = QuoterUnanswered
          \/ exists q1 w1,
               _getUniswapQuote quoter tokenA tokenB testAmount fee1 w
                 = Ok (q1, w1)
               /\ quoter (chain w1) tokenB tokenA fee2 q1 0
                  = QuoterUnanswered)
  /\ (calculateArbitrageOpportunity quoter tokenA tokenB fee1 fee2 testAmount
        w = Err ArithmeticPanic
      <-> exists q1 w1 quoteBack w2,
            _getUniswapQuote quoter tokenA tokenB testAmount fee1 w
              = Ok (q1, w1)
            /\ _getUniswapQuote quoter tokenB tokenA q1 fee2 w1
               = Ok (quoteBack, w2)
            /\ testAmount < quoteBack
            /\ (testAmount = 0
                \/ uint256_max < (quoteBack - testAmount) * 10000)).
Proof.
  clear router.
  destruct (_getUniswapQuote_cases quoter tokenA tokenB testAmount fee1 w)
    as [(q1 & w1 & H1 & Hn1)|[H1 Hun1]].
  2:{ assert (Hc :
        calculateArbitrageOpportunity quoter tokenA tokenB fee1 fee2
          testAmount w = Err BadReturnData)
        by exact (bind_Err _ _ _ _ H1).
      rewrite Hc. split; [intros e [= <-]; now left|].
      split; [split; [intros _; now left | reflexivity]|].
      split; [discriminate|].
      intros (q1 & w1 & qb & w2 & H1' & _). congruence. }
  destruct (_getUniswapQuote_cases quoter tokenB tokenA q1 fee2 w1)
    as [(quoteBack & w2 & H2 & Hn2)|[H2 Hun2]].
  2:{ assert (Hc :
        calculateArbitrageOpportunity quoter tokenA tokenB fee1 fee2
          testAmount w = Err BadReturnData).
      { unfold calculateArbitrageOpportunity.
        rewrite (bind_Ok_intro _ _ _ _ _ H1). exact (bind_Err _ _ _ _ H2). }
      rewrite Hc. split; [intros e [= <-]; now left|].
      split; [split; [intros _; right; eauto | reflexivity]|].
      split; [discriminate|].
      intros (q1' & w1' & qb & w2 & H1' & H2' & _).
      rewrite H1 in H1'. revert H1'; intros [= <- <-]. congruence. }
  rewrite (calculateArbitrageOpportunity_cases _ _ _ _ _ _ _ _ _ _ H1 H2).
  assert (Hno : ~ (quoter (chain w) tokenA tokenB fee1 testAmount 0
                     = QuoterUnanswered
                   \/ exists q1' w1',
                        _getUniswapQuote quoter tokenA tokenB testAmount fee1 w
                          = Ok (q1', w1')
                        /\ quoter (chain w1') tokenB tokenA fee2 q1' 0
                           = QuoterUnanswered)).
  { intros [Hu|(q1' & w1' & H1' & Hu)]; [contradiction|].
    rewrite H1 in H1'. revert H1'; intros [= <- <-]. contradiction. }
  assert (Hex : forall P : Z -> Prop,
    (exists q1' w1' qb w2',
       _getUniswapQuote quoter tokenA tokenB testAmount fee1 w = Ok (q1', w1')
       /\ _getUniswapQuote quoter tokenB tokenA q1' fee2 w1' = Ok (qb, w2')
       /\ P qb) <-> P quoteBack).
  { intros P. split; [|intros HP; exists q1, w1, quoteBack, w2; auto].
    intros (q1' & w1' & qb & w2' & H1' & H2' & HP).
    rewrite H1 in H1'. revert H1'; intros [= <- <-].
    rewrite H2 in H2'. revert H2'; intros [= <- <-]. exact HP. }
  specialize (Hex (fun qb => testAmount < qb
    /\ (testAmount = 0 \/ uint256_max < (qb - testAmount) * 10000))).
  cbn beta in Hex. rewrite Hex.
  destruct (Z.gtb_spec quoteBack testAmount) as [Hgt|Hle].
  2:{ split; [discriminate|].
      split; [split; [discriminate | intros Hc; now destruct Hno]|].
      split; [discriminate | lia]. }
  destruct (Z.leb_spec ((quoteBack - testAmount) * 10000) uint256_max)
    as [Hfit|Hover].
  - destruct (Z.eqb_spec testAmount 0) as [Hz|Hnz].
    + split; [intros e [= <-]; now right|].
      split; [split; [discriminate | intros Hc; now destruct Hno]|].
      split; [lia | reflexivity].
    + split; [discriminate|].
      split; [split; [discriminate | intros Hc; now destruct Hno]|].
      split; [discriminate | lia].
  - split; [intros e [= <-]; now right|].
    split; [split; [discriminate | intros Hc; now destruct Hno]|].
    split; [lia | reflexivity].
Qed.

(** X13.  What the flag means without the division: when the call returns
    for a test amount that is not negative, it reports [profitable] exactly
    when the round trip quotes more than the test amount and
    [quoteBack * 10000 >= testAmount * (10000 + minProfitBasisPoints)]; and
    whenever it reports a profit the expected profit is the positive
    difference and the recommended amount is the test amount. *)
Theorem profitable_means_margin
    tokenA tokenB fee1 fee2 testAmount w q1 w1 quoteBack w2
    profitable expectedProfit optimalAmount w' :
  0 <= testAmount ->
  _getUniswapQuote quoter tokenA tokenB testAmount fee1 w = Ok (q1, w1) ->
  _getUniswapQuote quoter tokenB tokenA q1 fee2 w1 = Ok (quoteBack, w2) ->
  calculateArbitrageOpportunity quoter tokenA tokenB fee1 fee2 testAmount w
    = Ok ((profitable, expectedProfit, optimalAmount), w') ->
  (profitable = true
   <-> testAmount < quoteBack
       /\ testAmount * (10000 + minProfitBasisPoints (storage w))
          <= quoteBack * 10000)
  /\ (profitable = true ->
      expectedProfit = quoteBack - testAmount /\ 0 < expectedProfit
      /\ optimalAmount = testAmount /\ 0 < optimalAmount).
Proof.
  intros Hnn H1 H2.
  rewrite (calculateArbitrageOpportunity_cases _ _ _ _ _ _ _ _ _ _ H1 H2).
  destruct (Z.gtb_spec quoteBack testAmount) as [Hgt|Hle].
  - destruct (_ <=? uint256_max); [|discriminate].
    destruct (Z.eqb_spec testAmount 0) as [|Hnz]; [discriminate|].
    intros [= <- <- <- <-].
    set (m := minProfitBasisPoints (storage w)).
    set (a := (quoteBack - testAmount) * 10000).
    assert (Hpos : 0 < testAmount) by lia.
    assert (Hiff : (a / testAmount >=? m) = true <-> testAmount * m <= a).
    { rewrite Z.geb_le. split.
      - intros Hm. pose proof (Z.mul_div_le a testAmount Hpos). nia.
      - intros Hm. now apply Z.div_le_lower_bound. }
    split.
    + rewrite Hiff. unfold a. split; [intros; split; lia|]. lia.
    + intros _. repeat split; lia.
  - intros [= <- <- <- <-]. split; [|discriminate].
    split; [discriminate|lia].
Qed.

End EngineMore.

Section EngineMoreScenarios.
Import Engine Scenario.

Lemma executeOperation_trust_boundary_witness :
  executeOperation engine pool rate_router from_owner tokA 10 1 engine
    (Some round_trip) world_entered = Err InvalidCaller
  /\ executeOperation engine pool rate_router from_pool tokA 10 1 deployer
       (Some round_trip) world_entered = Err InvalidInitiator
  /\ executeOperation engine pool rate_router from_pool tokA 10 1 engine
       None world_entered = Err MalformedParams.
Proof.
  split; [|split].
  - apply (executeOperation_trust_boundary engine pool rate_router).
    vm_compute. discriminate.
  - apply (executeOperation_trust_boundary engine pool rate_router).
    + reflexivity.
    + vm_compute. discriminate.
  - apply (executeOperation_trust_boundary engine pool rate_router);
      reflexivity.
Defined.

Lemma executeOperation_leaves_repayment_ready_witness :
  allowance_in
    (chain (transact
       (executeOperation engine pool rate_router from_pool tokA 10 1 engine
          (Some round_trip)) world_entered)) tokA engine pool = 11.
Proof.
  edestruct (executeOperation_leaves_repayment_ready engine pool rate_router
               from_pool tokA 10 1 engine (Some round_trip) world_entered)
    as (_ & _ & Hal & _).
  { vm_compute. reflexivity. }
  etransitivity; [|exact Hal]. vm_compute. reflexivity.
Defined.

Lemma aerodrome_leg_cannot_profit_witness :
  exists e,
    executeOperation engine pool rate_router from_pool tokA 10 1 engine
      (Some {| tokenIn := tokA; tokenOut := tokB; amountIn := 10;
               fee1 := 3000; fee2 := 500; useAerodrome := true |})
      world_entered = Err e.
Proof.
  apply (aerodrome_leg_cannot_profit engine pool rate_router).
  - reflexivity.
  - intros out w1 H. vm_compute in H. revert H; intros [= <- <-].
    vm_compute. discriminate.
Defined.

Lemma executeFlashLoanArbitrage_gates_witness :
  executeFlashLoanArbitrage engine pool rate_router premium_5bps from_pool
    tokA 10000 (Some round_trip) world_funded = Err AccessDenied
  /\ executeFlashLoanArbitrage engine pool rate_router premium_5bps
       {| msg_sender := deployer; tx_gasprice := 50 * 10 ^ 9 + 1;
          block_timestamp := 1000; gasleft := 5 |}
       tokA 10000 (Some round_trip) world_funded = Err GasPriceExceeded.
Proof.
  split.
  - apply (executeFlashLoanArbitrage_gates engine pool rate_router).
    vm_compute. discriminate.
  - apply (executeFlashLoanArbitrage_gates engine pool rate_router);
      [reflexivity | vm_compute; discriminate | vm_compute; reflexivity].
Defined.

Lemma updateSettings_overwrites_witness :
  updateSettings from_pool 0 1 2 world_idle = Err AccessDenied
  /\ exists w',
       updateSettings from_owner 0 1 2 world_idle = Ok (tt, w')
       /\ maxGasPrice (storage w') = 1.
Proof.
  split.
  - apply updateSettings_overwrites. vm_compute. discriminate.
  - edestruct (updateSettings_overwrites from_owner 0 1 2 world_idle)
      as [_ Hown].
    destruct (Hown eq_refl) as (w' & Hok & _ & Hg & _).
    exists w'. split; assumption.
Defined.

Lemma updateSettings_then_attempt_witness :
  executeFlashLoanArbitrage engine pool rate_router premium_5bps from_owner
    tokA 10000 (Some round_trip)
    (transact (updateSettings from_owner 50 0 300) world_funded)
  = Err GasPriceExceeded.
Proof.
  apply (updateSettings_then_attempt engine pool rate_router premium_5bps
           from_owner 50 0 300 from_owner tokA 10000 (Some round_trip)
           world_funded);
    [reflexivity | reflexivity | vm_compute; discriminate
    | vm_compute; reflexivity].
Defined.

Lemma successful_attempt_leaves_engine_ready_witness :
  allowance_in
    (chain (transact
       (executeFlashLoanArbitrage engine pool rate_router premium_5bps
          from_owner tokA 10000 (Some round_trip)) world_funded))
    tokA engine pool = 0.
Proof.
  edestruct (successful_attempt_leaves_engine_ready engine pool rate_router
               premium_5bps from_owner tokA 10000 (Some round_trip)
               world_funded) as (_ & _ & _ & _ & Hal).
  { vm_compute. reflexivity. }
  etransitivity; [|exact Hal]. vm_compute. reflexivity.
Defined.

Lemma withdrawProfits_empties_balance_witness :
  withdrawProfits engine from_pool tokA world_idle = Err AccessDenied
  /\ withdrawProfits engine from_owner tokB world_idle = Err NothingToWithdraw
  /\ exists w',
       withdrawProfits engine from_owner tokA world_idle = Ok (tt, w')
       /\ balance_in (chain w') tokA engine = 0
       /\ balance_in (chain w') tokA deployer = 50.
Proof.
  destruct (withdrawProfits_empties_balance engine from_pool tokA world_idle)
    as (Hstranger & _ & _).
  destruct (withdrawProfits_empties_balance engine from_owner tokB world_idle)
    as (_ & Hnone & _).
  destruct (withdrawProfits_empties_balance engine from_owner tokA world_idle)
    as (_ & _ & Hall).
  split; [apply Hstranger; vm_compute; discriminate|].
  split; [apply Hnone; [reflexivity | vm_compute; discriminate]|].
  destruct Hall as (w' & Hok & _ & Hzero & Hown & _);
    [reflexivity | vm_compute; reflexivity | vm_compute; discriminate|].
  exists w'. split; [exact Hok|]. split; [exact Hzero|].
  etransitivity; [exact Hown|]. vm_compute. reflexivity.
Defined.

Lemma calculateArbitrageOpportunity_panics_witness :
  calculateArbitrageOpportunity example_quoter tokA tokB 3000 500 0 world_idle
  = Err ArithmeticPanic
  /\ calculateArbitrageOpportunity half_quoter tokA tokB 3000 500 1000
       world_idle = Err BadReturnData
  /\ (ArithmeticPanic = BadReturnData \/ ArithmeticPanic = ArithmeticPanic).
Proof.
  split; [|split].
  - apply (calculateArbitrageOpportunity_panics example_quoter tokA tokB
             3000 500 0 world_idle).
    exists 1050, world_idle, 1060, world_idle.
    split; [reflexivity|]. split; [reflexivity|].
    split; [reflexivity | left; reflexivity].
  - apply (calculateArbitrageOpportunity_panics half_quoter tokA tokB
             3000 500 1000 world_idle).
    right. exists 1050, world_idle. split; reflexivity.
  - apply (proj1 (calculateArbitrageOpportunity_panics example_quoter tokA
                    tokB 3000 500 0 world_idle) ArithmeticPanic).
    vm_compute. reflexivity.
Defined.

Lemma profitable_means_margin_witness :
  1000 * (10000 + minProfitBasisPoints (storage world_idle)) <= 1060 * 10000.
Proof.
  edestruct (profitable_means_margin example_quoter tokA tokB 3000 500 1000
               world_idle) as [Hiff _].
  { vm_compute. discriminate. }
  { vm_compute. reflexivity. } { vm_compute. reflexivity. }
  { vm_compute. reflexivity. }
  apply Hiff. reflexivity.
Defined.

End EngineMoreScenarios.

(** * Further properties of the scanner *)

Section ScannerMore.
Import Js Scanner.

Variable arith : Arith.


(** X14.  The shape of a scan result: [findArbitrageOpportunities] always
    returns; it returns at most ten opportunities, highest price difference
    first, each with its difference strictly inside the retention window. *)
Theorem scan_result_shape feed now :
  exists found,
    findArbitrageOpportunities arith feed now = Normal found
    /\ (length found <= 10)%nat
    /\ Sorted ranks_before found
    /\ Forall in_window found.
Proof.
  destruct (findArbitrageOpportunities_in_window arith feed now)
    as (found & Hf & Hw & Hlen & Hs).
  exists found. repeat split; assumption.
Qed.

(** X15.  Every opportunity a scan returns is backed by its pairs: both
    liquidities are strictly above the floor, and the two price fields it
    carries, which are the feed's own texts, are read by [parseFloat] as
    numbers that lie strictly inside the narrower band and from which the
    reported difference is computed. *)
Theorem scanned_opportunities_sound feed now found :
  findArbitrageOpportunities arith feed now = Normal found ->
  Forall (fun o =>
    (minLiquidity < liquidity1 o)%Q /\ (minLiquidity < liquidity2 o)%Q
    /\ exists p1 p2,
         parseFloat arith (price1 o) = Some p1
         /\ parseFloat arith (price2 o) = Some p2
         /\ (lit_0_0001 < p1)%Q /\ (p1 < 100000)%Q
         /\ (lit_0_0001 < p2)%Q /\ (p2 < 100000)%Q
         /\ priceDiff o = priceDiffPercent_of arith p1 p2) found.
Proof.
  intros H.
  refine (findArbitrageOpportunities_Forall arith _ _ feed now found H).
  intros now' pair1 pair2 o Hex.
  destruct (examine_sound arith _ _ _ _ Hex) as (Hl1 & Hl2 & Hprices & _).
  split; [exact Hl1|]. split; [exact Hl2 | exact Hprices].
Qed.

Lemma scan_tokens_throws feed now token pair1 pair2 rest tokens :
  In token tokens ->
  getBaseTokenPairs feed token = Normal (pair1 :: pair2 :: rest) ->
  quoteToken pair1 = None ->
  forall acc, exists e, scan_tokens arith feed now tokens acc = Throw e.
Proof.
  intros Hin Hpairs Hq.
  induction tokens as [|t tokens IH]; [destruct Hin|]. intros acc. cbn.
  destruct (getBaseTokenPairs feed t) as [pairs|e] eqn:Hg; cbn; [|eauto].
  destruct (scan_pairs arith now pairs acc) as [acc'|e] eqn:Hsp; cbn;
    [|eauto].
  destruct Hin as [->|Hin]; [|exact (IH Hin acc')].
  exfalso. rewrite Hpairs in Hg. revert Hg; intros [= <-].
  cbn in Hsp. unfold examine in Hsp. rewrite Hq in Hsp. discriminate.
Qed.

(** X16.  One malformed pair empties the scan: if, for some monitored
    token, the feed's pairs on Base start with a pair whose [quoteToken] is
    missing and hold at least one more pair, the exception is caught at the
    top and [findArbitrageOpportunities] returns the empty list, whatever
    else the feed holds. *)
Theorem malformed_pair_empties_scan feed now token pair1 pair2 rest :
  In token tokensToMonitor ->
  getBaseTokenPairs feed token = Normal (pair1 :: pair2 :: rest) ->
  quoteToken pair1 = None ->
  findArbitrageOpportunities arith feed now = Normal [].
Proof.
  intros Hin Hpairs Hq. unfold findArbitrageOpportunities.
  destruct (scan_tokens_throws feed now token pair1 pair2 rest
              tokensToMonitor Hin Hpairs Hq []) as [e ->].
  reflexivity.
Qed.

Lemma filter_base_nil pairs :
  Forall (fun pair => chainId pair <> "base"%string) pairs ->
  List.filter (fun pair => String.eqb (chainId pair) "base") pairs = [].
Proof.
  induction 1 as [|pair pairs Hne _ IH]; cbn; [reflexivity|].
  apply String.eqb_neq in Hne. now rewrite Hne.
Qed.

Lemma scan_tokens_nothing feed now tokens acc :
  (forall token, getBaseTokenPairs feed token = Normal []) ->
  scan_tokens arith feed now tokens acc = Normal acc.
Proof.
  intros Hnone. induction tokens as [|t tokens IH]; cbn; [reflexivity|].
  rewrite Hnone. cbn. exact IH.
Qed.

(** X17.  A feed with nothing usable gives an empty scan and no error: when
    for every token the request fails or reports only pairs of other
    networks, [findArbitrageOpportunities] returns the empty list. *)
Theorem unusable_feed_gives_empty_scan feed now :
  (forall token,
     match feed token with
     | Throw _ => True
     | Normal pairs =>
         Forall (fun pair => chainId pair <> "base"%string) pairs
     end) ->
  findArbitrageOpportunities arith feed now = Normal [].
Proof.
  intros Hfeed. unfold findArbitrageOpportunities.
  rewrite scan_tokens_nothing; [reflexivity|].
  intros token. unfold getBaseTokenPairs. specialize (Hfeed token).
  destruct (feed token) as [pairs|e]; cbn; [|reflexivity].
  now rewrite filter_base_nil.
Qed.

(** X18.  The cut keeps the top: the opportunities returned together with
    those cut off are the candidates collected, every one cut off has a
    price difference no higher than every one returned, and nothing is cut
    off when at most ten candidates were collected. *)
Theorem scan_keeps_the_top feed now all :
  scan_tokens arith feed now tokensToMonitor [] = Normal all ->
  exists found dropped,
    findArbitrageOpportunities arith feed now = Normal found
    /\ found ++ dropped ≡ₚ all
    /\ (forall kept late,
          In kept found -> In late dropped ->
          (priceDiff late <= priceDiff kept)%Q)
    /\ ((length all <= 10)%nat -> dropped = []).
Proof.
  intros Hs. unfold findArbitrageOpportunities. rewrite Hs. cbn.
  exists (take 10 (sort_desc all)), (drop 10 (sort_desc all)).
  split; [reflexivity|]. split; [|split].
  - rewrite take_drop. apply sort_desc_Permutation.
  - apply Sorted_ranks_app. rewrite take_drop. apply sort_desc_Sorted.
  - intros Hlen. apply drop_ge.
    rewrite (Permutation_length (sort_desc_Permutation all)). exact Hlen.
Qed.

End ScannerMore.

(** * Further properties of the controller *)

Section ControllerMore.
Import Js Scanner Controller.

(** X19.  The loan amount of a scanned opportunity: since both liquidities
    of every opportunity a scan returns are above 100, [executeArbitrage]
    borrows 0.01 ether when the smaller liquidity is at least 1000 and 0.001
    ether otherwise; the lowest tier of 0.0001 ether is never used. *)
Theorem scanned_loan_amount arith feed now found o :
  findArbitrageOpportunities arith feed now = Normal found ->
  In o found ->
  loanAmount_of o
  = (if ge (Qmin (liquidity1 o) (liquidity2 o)) 1000
     then ether_0_01 else ether_0_001)
  /\ loanAmount_of o <> ether_0_0001.
Proof.
  intros Hscan Hin.
  pose proof (findArbitrageOpportunities_Forall arith
                (fun o => (minLiquidity < liquidity1 o)%Q
                          /\ (minLiquidity < liquidity2 o)%Q)) as Hall.
  specialize (Hall (fun now' pair1 pair2 o' Hex =>
    let H := examine_sound arith now' pair1 pair2 o' Hex in
    conj (proj1 H) (proj1 (proj2 H))) feed now found Hscan).
  rewrite List.Forall_forall in Hall. destruct (Hall o Hin) as [H1 H2].
  assert (Hge : ge (Qmin (liquidity1 o) (liquidity2 o)) 100 = true).
  { unfold ge. apply Qle_bool_iff. apply Q.min_glb; apply Qlt_le_weak;
      assumption. }
  unfold loanAmount_of. rewrite Hge.
  destruct (ge (Qmin (liquidity1 o) (liquidity2 o)) 1000);
    split; try reflexivity; vm_compute; discriminate.
Qed.

(** X20.  When an attempt succeeds: [executeArbitrage] returns a success
    result exactly when the contract object exists, the wallet's balance can
    be read and is at least 0.0005 ether, the submission at the gas price
    chosen goes through and its receipt arrives; the result then carries the
    receipt's hash and gas used.  In every other case it returns a failure
    result, and in both it hands the opportunity back unchanged. *)
Theorem executeArbitrage_success_iff net opportunity :
  (forall txHash used o,
     executeArbitrage net opportunity = Normal (Success txHash used o)
     <-> (o = opportunity
          /\ contract_ready net = true
          /\ exists balance tx,
               wallet_getBalance net = Normal balance
               /\ ether_0_0005 <= balance
               /\ contract_executeFlashLoanArbitrage net
                    (submission opportunity
                       match provider_getGasPrice net with
                       | Normal price => price
                       | Throw _ => gwei_0_5
                       end) = Normal tx
               /\ tx_wait net tx
                  = Normal {| transactionHash := txHash;
                              gasUsed := used |}))
  /\ (forall e o,
        executeArbitrage net opportunity = Normal (Failure e o) ->
        o = opportunity).
Proof.
  unfold executeArbitrage, getOptimalGasPrice. split.
  - intros txHash used o. split.
    + destruct (contract_ready net); cbn; [|discriminate].
      destruct (wallet_getBalance net) as [balance|e]; cbn; [|discriminate].
      destruct (Z.ltb_spec balance ether_0_0005); cbn; [discriminate|].
      destruct (provider_getGasPrice net) as [price|e]; cbn.
      * destruct (contract_executeFlashLoanArbitrage net _) as [tx|e] eqn:Hs;
          cbn; [|discriminate].
        destruct (tx_wait net tx) as [[h u]|e] eqn:Hw; cbn; [|discriminate].
        intros [= <- <- <-]. repeat split. exists balance, tx. auto.
      * destruct (contract_executeFlashLoanArbitrage net _) as [tx|e'] eqn:Hs;
          cbn; [|discriminate].
        destruct (tx_wait net tx) as [[h u]|e'] eqn:Hw; cbn; [|discriminate].
        intros [= <- <- <-]. repeat split. exists balance, tx. auto.
    + intros (-> & -> & balance & tx & -> & Hmin & Hs & Hw). cbn.
      destruct (Z.ltb_spec balance ether_0_0005); [lia|]. cbn.
      destruct (provider_getGasPrice net) as [price|e]; cbn;
        rewrite Hs; cbn; rewrite Hw; reflexivity.
  - intros e o.
    destruct (contract_ready net); cbn; [|now intros [= _ <-]].
    destruct (wallet_getBalance net) as [balance|e0]; cbn;
      [|now intros [= _ <-]].
    destruct (balance <? ether_0_0005); cbn; [now intros [= _ <-]|].
    destruct (provider_getGasPrice net) as [price|e0]; cbn;
      (destruct (contract_executeFlashLoanArbitrage net _) as [tx|e1]; cbn;
       [|now intros [= _ <-]];
       destruct (tx_wait net tx) as [r|e1]; cbn;
       [discriminate | now intros [= _ <-]]).
Qed.

(** A gas oracle that is down does not stop an attempt: past the checks,
    when [provider.getGasPrice] throws, the transaction is submitted at the
    fallback of half a gwei, and the result is the one that submission
    produces. *)
Lemma gas_oracle_failure_uses_fallback net opportunity balance e :
  contract_ready net = true ->
  wallet_getBalance net = Normal balance ->
  ether_0_0005 <= balance ->
  provider_getGasPrice net = Throw e ->
  executeArbitrage net opportunity
  = match contract_executeFlashLoanArbitrage net
            (submission opportunity gwei_0_5) with
    | Throw e' => Normal (Failure e' opportunity)
    | Normal tx =>
        match tx_wait net tx with
        | Throw e' => Normal (Failure e' opportunity)
        | Normal receipt =>
            Normal (Success (transactionHash receipt) (gasUsed receipt)
                      opportunity)
        end
    end.
Proof.
  intros Hready Hbal Hmin Hgas. unfold executeArbitrage, getOptimalGasPrice.
  rewrite Hready, Hbal, Hgas. cbn.
  destruct (Z.ltb_spec balance ether_0_0005); [lia|]. cbn.
  destruct (contract_executeFlashLoanArbitrage net _) as [tx|e']; cbn;
    [|reflexivity].
  destruct (tx_wait net tx); reflexivity.
Qed.

(** *** The run flag, further *)

Lemma run_wakes_stopped n :
  forall b, isMonitoring b = false ->
  run (repeat Wake n) b
  = {| isMonitoring := false; loops := loops b - n |}.
Proof.
  induction n as [|n IH]; intros [flag k] Hb; cbn in Hb; subst; cbn.
  - now rewrite Nat.sub_0_r.
  - rewrite IH by reflexivity. cbn. f_equal. lia.
Qed.

(** X21.  Stopping does not end a loop, it lets each loop end itself:
    [stopArbitrageBot] leaves the loops alive and clears the flag, and after
    it each wake-up ends one loop, so that [n] wake-ups later
    [loops - n] of them are left, none once every loop has woken. *)
Theorem stop_ends_loops_at_wake b n :
  loops (stopArbitrageBot b) = loops b
  /\ run (Stop :: repeat Wake n) b
     = {| isMonitoring := false; loops := loops b - n |}
  /\ ((loops b <= n)%nat ->
      run (Stop :: repeat Wake n) b = bot_idle).
Proof.
  split; [reflexivity|].
  assert (Hrun : run (Stop :: repeat Wake n) b
                 = {| isMonitoring := false; loops := loops b - n |}).
  { cbn. now rewrite run_wakes_stopped. }
  split; [exact Hrun|].
  intros Hle. rewrite Hrun. unfold bot_idle. f_equal. lia.
Qed.

Lemma step_starts_bound b k e :
  (isMonitoring b = true -> (1 <= loops b)%nat) ->
  (loops b <= k)%nat ->
  (isMonitoring (step b e) = true -> (1 <= loops (step b e))%nat)
  /\ (loops (step b e) <= k + Api.starts [e])%nat.
Proof.
  destruct b as [[|] n]; destruct e; cbn; intros Hflag Hk;
    split; intros; try discriminate; try lia;
    specialize (Hflag eq_refl); lia.
Qed.

Lemma run_starts_bound events :
  forall b k,
    (isMonitoring b = true -> (1 <= loops b)%nat) ->
    (loops b <= k)%nat ->
    (isMonitoring (run events b) = true -> (1 <= loops (run events b))%nat)
    /\ (loops (run events b) <= k + Api.starts events)%nat.
Proof.
  induction events as [|e events IH]; intros b k Hflag Hk.
  - cbn. split; [exact Hflag|lia].
  - destruct (step_starts_bound b k e Hflag Hk) as [Hflag' Hk'].
    destruct (IH (step b e) (k + Api.starts [e])%nat Hflag' Hk')
      as [H1 H2].
    split; [exact H1|].
    change (run (e :: events) b) with (run events (step b e)).
    assert (Api.starts (e :: events)
            = (Api.starts [e] + Api.starts events)%nat)
      by (unfold Api.starts; cbn; destruct e; cbn; lia).
    lia.
Qed.

(** X22.  From an idle bot, whatever the order of starts, stops and
    wake-ups: while the run flag is set at least one loop is alive, and the
    loops alive never outnumber the calls of [startArbitrageBot]. *)
Theorem flag_set_means_loop_alive events :
  (isMonitoring (run events bot_idle) = true ->
   (1 <= loops (run events bot_idle))%nat)
  /\ (loops (run events bot_idle) <= Api.starts events)%nat.
Proof.
  apply (run_starts_bound events bot_idle 0); cbn; [discriminate|lia].
Qed.

End ControllerMore.

(** * Properties of the HTTP surface and of the earlier copy *)

Section ApiFacts.
Import Js Controller Api.

Lemma handle_sound artifact_found s i :
  api_sound artifact_found s -> api_sound artifact_found (handle s i).
Proof.
  intros (Habi & Hc & Hb). destruct s as [abi c b]. cbn in *. subst abi.
  destruct i as [| |[addr|e]|];
    unfold api_sound, handle, post_start_bot, post_stop_bot, post_deploy;
    cbn; destruct c; destruct artifact_found; cbn;
    repeat split; try reflexivity; try discriminate; auto;
    try (intros _; rewrite Hb by reflexivity; reflexivity).
Qed.

Lemma handle_all_sound artifact_found incidents :
  forall s, api_sound artifact_found s ->
            api_sound artifact_found (handle_all incidents s).
Proof.
  induction incidents as [|i incidents IH]; intros s Hs; cbn; [exact Hs|].
  apply IH. now apply handle_sound.
Qed.

(** X23.  The bot runs only behind a contract object.  After any sequence
    of requests and wake-ups from start-up: if the run flag is set or a loop
    is alive then the contract object exists, and it exists only if the
    artifact was found; so when the artifact was missing at start-up no
    request ever starts the bot, deployment and start both answering 400; and
    [POST /api/start-bot] answers 400, changing nothing, exactly when there
    is no contract object. *)
Theorem api_bot_needs_contract artifact_found address_known incidents :
  (isMonitoring
     (bot (handle_all incidents
             (initializeBlockchain artifact_found address_known))) = true
   \/ (0 < loops
             (bot (handle_all incidents
                     (initializeBlockchain artifact_found address_known))))%nat
   -> contract (handle_all incidents
                  (initializeBlockchain artifact_found address_known))
      = true)
  /\ (contract (handle_all incidents
                  (initializeBlockchain artifact_found address_known))
      = true -> artifact_found = true)
  /\ (artifact_found = false ->
      bot (handle_all incidents
             (initializeBlockchain artifact_found address_known)) = bot_idle
      /\ forall deployment,
           fst (post_deploy deployment
                  (handle_all incidents
                     (initializeBlockchain artifact_found address_known)))
           = 400)
  /\ (forall s,
        (fst (post_start_bot s) = 400 <-> contract s = false)
        /\ (contract s = false -> snd (post_start_bot s) = s)).
Proof.
  assert (Hs : api_sound artifact_found
                 (handle_all incidents
                    (initializeBlockchain artifact_found address_known))).
  { apply handle_all_sound. unfold api_sound, initializeBlockchain. cbn.
    repeat split. intros H. now apply andb_true_iff in H. }
  set (s := handle_all incidents _) in *.
  destruct Hs as (Habi & Hc & Hb).
  split; [|split; [exact Hc|split]].
  - intros Hrun. destruct (contract s) eqn:E; [reflexivity|].
    rewrite (Hb eq_refl) in Hrun. cbn in Hrun.
    destruct Hrun; [discriminate|lia].
  - intros ->. split.
    + apply Hb. destruct (contract s); [|reflexivity].
      now specialize (Hc eq_refl).
    + intros deployment. unfold post_deploy. now rewrite Habi.
  - intros s0. unfold post_start_bot.
    destruct (contract s0); cbn; repeat split; auto; discriminate.
Qed.

End ApiFacts.

Section LegacyFacts.
Import Js Controller.

(** X24.  The gas price of the earlier copy: a price the provider reports
    is raised by ten percent, rounded down, so that it is never lowered and
    never raised by more than a tenth; when the provider fails the earlier
    copy falls back to one gwei.  The present [getOptimalGasPrice] returns
    the reported price as it is and falls back to half a gwei. *)
Theorem legacy_gas_buffer net :
  (forall price,
     provider_getGasPrice net = Normal price -> 0 <= price ->
     exists buffered,
       Legacy.getOptimalGasPrice net = Normal buffered
       /\ price <= buffered
       /\ 100 * buffered <= 110 * price < 100 * (buffered + 1)
       /\ getOptimalGasPrice net = Normal price)
  /\ (forall e,
        provider_getGasPrice net = Throw e ->
        Legacy.getOptimalGasPrice net = Normal (10 ^ 9)
        /\ getOptimalGasPrice net = Normal (5 * 10 ^ 8)).
Proof.
  unfold Legacy.getOptimalGasPrice, getOptimalGasPrice. split.
  - intros price -> Hnn. cbn. eexists. split; [reflexivity|].
    pose proof (Z.mul_div_le (price * 110) 100 ltac:(lia)).
    pose proof (Z.mul_succ_div_gt (price * 110) 100 ltac:(lia)).
    repeat split; lia.
  - intros e ->. split; reflexivity.
Qed.

End LegacyFacts.

Section OffchainMoreScenarios.
Import Js Scanner Controller Api Desk Bench.

(** The broken pair in front of the good ones empties the scan that found
    an opportunity without it. *)
Example broken_feed_scan :
  findArbitrageOpportunities exact_arith feed_broken 0 = Normal []
  /\ findArbitrageOpportunities exact_arith feed0 0 = Normal [opportunity0].
Proof. split; vm_compute; reflexivity. Qed.

Lemma scanned_opportunities_sound_witness :
  exists o p1,
    findArbitrageOpportunities exact_arith feed_suffixed 0 = Normal [o]
    /\ price1 o = "102abc"%string
    /\ parseFloat exact_arith (price1 o) = Some p1
    /\ (lit_0_0001 < p1)%Q /\ (p1 < 100000)%Q
    /\ (minLiquidity < liquidity1 o)%Q.
Proof.
  assert (Hscan : exists o,
    findArbitrageOpportunities exact_arith feed_suffixed 0 = Normal [o]
    /\ price1 o = "102abc"%string).
  { eexists. split; vm_compute; reflexivity. }
  destruct Hscan as (o & Hscan & Hraw).
  pose proof (scanned_opportunities_sound exact_arith feed_suffixed 0 [o]
                Hscan) as Hall.
  apply Forall_cons in Hall as [Ho _].
  destruct Ho as (Hl1 & _ & p1 & p2 & Hp1 & _ & Hlo & Hup & _).
  exists o, p1. repeat split; assumption.
Defined.

Lemma malformed_pair_empties_scan_witness :
  findArbitrageOpportunities exact_arith feed_broken 0 = Normal [].
Proof.
  apply (malformed_pair_empties_scan exact_arith feed_broken 0 WETH
           pair_broken pair_uniswap [pair_aerodrome]).
  - left. reflexivity.
  - reflexivity.
  - reflexivity.
Defined.

Lemma unusable_feed_gives_empty_scan_witness :
  findArbitrageOpportunities exact_arith feed_down 0 = Normal []
  /\ findArbitrageOpportunities exact_arith feed_elsewhere 0 = Normal [].
Proof.
  split.
  - apply unusable_feed_gives_empty_scan. intros token. exact I.
  - apply unusable_feed_gives_empty_scan. intros token. cbn.
    repeat constructor; discriminate.
Defined.

Lemma scan_keeps_the_top_witness :
  exists found dropped,
    findArbitrageOpportunities exact_arith feed_wide 0 = Normal found
    /\ length found = 10%nat
    /\ length dropped = 5%nat
    /\ forall kept late,
         In kept found -> In late dropped ->
         (priceDiff late <= priceDiff kept)%Q.
Proof.
  edestruct (scan_keeps_the_top exact_arith feed_wide 0)
    as (found & dropped & Hf & Hperm & Hrank & _).
  { vm_compute. reflexivity. }
  exists found, dropped. split; [exact Hf|].
  assert (Hlen : length found = 10%nat).
  { vm_compute in Hf. revert Hf; intros [= <-]. reflexivity. }
  split; [exact Hlen|]. split; [|exact Hrank].
  apply Permutation_length in Hperm. rewrite length_app, Hlen in Hperm.
  cbn in Hperm. lia.
Defined.

Lemma scanned_loan_amount_witness :
  loanAmount_of opportunity0 = ether_0_001.
Proof.
  destruct (scanned_loan_amount exact_arith feed0 0 [opportunity0]
              opportunity0) as [Hloan _].
  { vm_compute. reflexivity. }
  { left. reflexivity. }
  etransitivity; [exact Hloan|]. vm_compute. reflexivity.
Defined.

Lemma executeArbitrage_success_iff_witness :
  executeArbitrage net_mining opportunity0
  = Normal (Success "0xabc" 210000 opportunity0).
Proof.
  destruct (executeArbitrage_success_iff net_mining opportunity0)
    as [Hiff _].
  apply Hiff. split; [reflexivity|]. split; [reflexivity|].
  exists (10 ^ 18), "0xabc"%string.
  split; [reflexivity|]. split; [vm_compute; discriminate|].
  split; reflexivity.
Defined.

(** With the gas oracle down the transaction goes out at the fallback
    price. *)
Example oracle_down_submits_at_fallback :
  executeArbitrage net_no_oracle opportunity0
  = Normal (Success "fallback" 1 opportunity0)
  /\ executeArbitrage net_no_contract opportunity0
     = Normal (Failure ContractNotInitialized opportunity0)
  /\ executeArbitrage net_poor opportunity0
     = Normal (Failure InsufficientGasBalance opportunity0).
Proof. repeat split; vm_compute; reflexivity. Qed.

Lemma stop_ends_loops_at_wake_witness :
  run (Stop :: repeat Wake 2) {| isMonitoring := true; loops := 2 |}
  = bot_idle.
Proof.
  apply (stop_ends_loops_at_wake {| isMonitoring := true; loops := 2 |} 2).
  cbn. lia.
Defined.

Lemma flag_set_means_loop_alive_witness :
  (1 <= loops (run [Start; Stop; Start; Wake] bot_idle))%nat.
Proof.
  apply (flag_set_means_loop_alive [Start; Stop; Start; Wake]).
  reflexivity.
Defined.

Lemma api_bot_needs_contract_witness :
  contract
    (handle_all [StartBot; Deploy (Normal "0x1"%string); StartBot]
       (initializeBlockchain true false)) = true
  /\ bot (handle_all [StartBot; Deploy (Normal "0x1"%string); StartBot]
            (initializeBlockchain false true)) = bot_idle.
Proof.
  destruct (api_bot_needs_contract true false
              [StartBot; Deploy (Normal "0x1"%string); StartBot])
    as (Hrun & _).
  destruct (api_bot_needs_contract false true
              [StartBot; Deploy (Normal "0x1"%string); StartBot])
    as (_ & _ & Hnever & _).
  split.
  - apply Hrun. left. reflexivity.
  - apply Hnever. reflexivity.
Defined.

Lemma legacy_gas_buffer_witness :
  exists buffered,
    Legacy.getOptimalGasPrice net_mining = Normal buffered
    /\ 10 ^ 9 <= buffered
    /\ Legacy.getOptimalGasPrice net_no_oracle = Normal (10 ^ 9).
Proof.
  destruct (legacy_gas_buffer net_mining) as [Hbuf _].
  destruct (legacy_gas_buffer net_no_oracle) as [_ Hfall].
  destruct (Hbuf (10 ^ 9)) as (buffered & Hb & Hle & _);
    [reflexivity | vm_compute; discriminate|].
  exists buffered. split; [exact Hb|]. split; [exact Hle|].
  apply (Hfall NetworkError). reflexivity.
Defined.

End OffchainMoreScenarios.
